(** * ntfscloneimgdelta: deltas between ntfsclone special images

    A shallow embedding of [ntfscloneimgdelta.c] and the properties of its
    cluster-stream codec, of delta generation and of patch application.

    Conventions of the embedding.
    - A file is the list of its bytes.  An input descriptor is the list of
      the bytes not yet read, an output descriptor the list of the bytes
      written so far.  [read(2)] and [write(2)] transfer everything they are
      asked for; the retry loops of [read_all] and [write_all] are therefore
      a single step, and the only read failure left is the end of the file.
    - [err_exit] becomes the outcome [Fatal e]; a memory access outside the
      object it is aimed at becomes the outcome [Undefined].
    - An object is the list of the bytes that were written to it.  The
      extra block of an input is the one object that can be allocated and
      left unwritten (an extra length of [2 ^ 31] or more is negative as
      the [int] count of [read_all], which then reads nothing): it is
      held as the empty list, and [memcmp] over it answers [Undefined],
      where the program compares the bytes [malloc] left in the block.
      No statement below concludes anything from that answer: what is
      stated about the two [memcmp] of [prepare_image_files] is stated
      for blocks that were read from the files in full, or for a
      comparison that runs over the end of a block.
    - The header fields hold the raw little-endian bytes of the file (the
      source: "all values are in little endian"); [le32_to_cpu] and
      [sle64_to_cpu] decode them.  64-bit signed arithmetic wraps around.
    - [main] is embedded up to the call it makes: its result is the
      operation it calls, with the three file names, or the error it exits
      with. *)

From Stdlib Require Import String.
From Stdlib Require Import ZArith List Lia Bool.
From coqutil Require Import Byte Word.LittleEndianList.
Import ListNotations.
Local Open Scope Z_scope.

(** ** Outcomes of a run *)

Inductive error : Type :=
| read_eof
| bad_magic
| bad_version (major minor : byte)
| zero_repeat
| invalid_cmd
| header_mismatch
| first_remaining (n : Z)
| second_remaining (n : Z).


Inductive outcome (A : Type) : Type :=
| Ok (a : A)
| Fatal (e : error)
| Undefined.

Arguments Ok {A} a.
Arguments Fatal {A} e.
Arguments Undefined {A}.

Definition bind {A B : Type} (m : outcome A) (k : A -> outcome B) : outcome B :=
  match m with
  | Ok a => k a
  | Fatal e => Fatal e
  | Undefined => Undefined
  end.

Notation "x <- m ;; k" := (bind m (fun x => k))
  (at level 61, m at next level, right associativity).
Notation "' p <- m ;; k" := (bind m (fun x => let p := x in k))
  (at level 61, p pattern, m at next level, right associativity).

(** ** Machine integers *)

(** Conversion to [int], as done when a [size_t] or [uint32_t] is passed for
    the [count] of [read_all] and [write_all], or by a cast. *)
Definition to_int (z : Z) : Z := (z + 2 ^ 31) mod 2 ^ 32 - 2 ^ 31.

Definition to_uint32 (z : Z) : Z := z mod 2 ^ 32.

(** [int64_t] arithmetic, two's complement. *)
Definition to_int64 (z : Z) : Z := (z + 2 ^ 63) mod 2 ^ 64 - 2 ^ 63.

Definition le32_to_cpu (raw : list byte) : Z := le_combine raw.
Definition sle64_to_cpu (raw : list byte) : Z := to_int64 (le_combine raw).
Definition cpu_to_sle64 (z : Z) : list byte := le_split 8 z.

(** ** Byte strings *)

Fixpoint bytes_eqb (a b : list byte) : bool :=
  match a, b with
  | [], [] => true
  | x :: a', y :: b' => Byte.eqb x y && bytes_eqb a' b'
  | _, _ => false
  end.

Definition lenZ (l : list byte) : Z := Z.of_nat (length l).

Definition takeZ (n : Z) (l : list byte) : list byte := firstn (Z.to_nat n) l.
Definition dropZ (n : Z) (l : list byte) : list byte := skipn (Z.to_nat n) l.

(** [memcmp(a, b, n) != 0], where [a] and [b] are the objects pointed to. *)
Definition memcmp_ne (a b : list byte) (n : Z) : outcome bool :=
  if n <=? 0 then Ok false
  else if (lenZ a <? n) || (lenZ b <? n) then Undefined
  else Ok (negb (bytes_eqb (takeZ n a) (takeZ n b))).

(** [read_all(fd, buf, count)] into an object of [room] bytes: the bytes
    read and the rest of the file. *)
Definition read_all (fd : list byte) (room count : Z)
  : outcome (list byte * list byte) :=
  if count <=? 0 then Ok ([], fd)
  else
    let got := takeZ count fd in
    if room <? lenZ got then Undefined
    else if lenZ got <? count then Fatal read_eof
    else Ok (got, dropZ count fd).

(** [write_all(fd, buf, count)] from the object [buf]. *)
Definition write_all (fd : list byte) (buf : list byte) (count : Z)
  : outcome (list byte) :=
  if count <=? 0 then Ok fd
  else if lenZ buf <? count then Undefined
  else Ok (fd ++ takeZ count buf).

(** ** Constants and structures *)

Definition CMD_SKIP : byte := Byte.x00.
Definition CMD_DATA : byte := Byte.x01.
Definition CMD_DROP : byte := Byte.x02.

Definition IMAGE_MAGIC_SIZE : Z := 16.

(** The string literals, with their terminating zero. *)
Definition IMAGE_MAGIC : list byte :=
  Byte.x00 :: list_byte_of_string "ntfsclone-image" ++ [Byte.x00].
Definition DELTA_MAGIC : list byte :=
  Byte.x00 :: list_byte_of_string "ntfsclone-delta" ++ [Byte.x00].

Definition NTFSCLONE_IMG_VER_MAJOR : Z := 10.
Definition NTFSCLONE_IMG_VER_MINOR_OLD : Z := 0.
Definition NTFSCLONE_IMG_VER_MINOR_NEW : Z := 1.
Definition NTFS_MAX_CLUSTER_SIZE : Z := 65536.

(** [struct image_hdr], packed: offsets 0, 16, 17, 18, 22, 30, 38, 46. *)
Record image_hdr : Type := {
  magic : list byte;
  major_ver : byte;
  minor_ver : byte;
  cluster_size : list byte;
  device_size : list byte;
  nr_clusters : list byte;
  inuse : list byte;
  offset_to_image_data : list byte
}.

Definition sizeof_image_hdr : Z := 50.
Definition offsetof_inuse : Z := 38.
Definition offsetof_offset_to_image_data : Z := 46.

(** The bytes of the structure from [&hdr.cluster_size] on. *)
Definition from_cluster_size (h : image_hdr) : list byte :=
  cluster_size h ++ device_size h ++ nr_clusters h ++ inuse h
    ++ offset_to_image_data h.

(** The bytes of the structure from [&hdr.major_ver] on. *)
Definition from_major_ver (h : image_hdr) : list byte :=
  major_ver h :: minor_ver h :: from_cluster_size h.

Record input_image : Type := {
  fd : list byte;
  hdr : image_hdr;
  hdr_extra : list byte;
  hdr_extra_len : Z;
  csize : Z;
  ccount : Z;
  bbs_present : Z;
  cmd : byte;
  cmd_repeat : Z;
  cdata : list byte
}.

Record output_image : Type := {
  out_fd : list byte;
  out_cmd : byte;
  out_cmd_repeat : Z
}.

Definition set_cmd_repeat (img : input_image) (r : Z) : input_image :=
  {| fd := fd img; hdr := hdr img; hdr_extra := hdr_extra img;
     hdr_extra_len := hdr_extra_len img; csize := csize img;
     ccount := ccount img; bbs_present := bbs_present img;
     cmd := cmd img; cmd_repeat := r; cdata := cdata img |}.

Definition set_fd_cmd (img : input_image) (f : list byte) (c : byte)
  : input_image :=
  {| fd := f; hdr := hdr img; hdr_extra := hdr_extra img;
     hdr_extra_len := hdr_extra_len img; csize := csize img;
     ccount := ccount img; bbs_present := bbs_present img;
     cmd := c; cmd_repeat := cmd_repeat img; cdata := cdata img |}.

Definition set_fd_cdata (img : input_image) (f d : list byte) : input_image :=
  {| fd := f; hdr := hdr img; hdr_extra := hdr_extra img;
     hdr_extra_len := hdr_extra_len img; csize := csize img;
     ccount := ccount img; bbs_present := bbs_present img;
     cmd := cmd img; cmd_repeat := cmd_repeat img; cdata := d |}.

Definition set_fd (img : input_image) (f : list byte) : input_image :=
  set_fd_cmd img f (cmd img).

(** ** Opening and creating images *)

Definition sub (off len : Z) (l : list byte) : list byte :=
  takeZ len (dropZ off l).

(** The part of the header up to [offset_to_image_data], as read by the
    first [read_all] of [open_input_image]. *)
Definition hdr_of_bytes (b off : list byte) : image_hdr :=
  {| magic := sub 0 16 b;
     major_ver := nth 16 b Byte.x00;
     minor_ver := nth 17 b Byte.x00;
     cluster_size := sub 18 4 b;
     device_size := sub 22 8 b;
     nr_clusters := sub 30 8 b;
     inuse := sub 38 8 b;
     offset_to_image_data := off |}.

Definition zeroed (n : Z) : list byte := repeat Byte.x00 (Z.to_nat n).

(** [hdr_extra] is the part of the extra block that [read_all] filled:
    all of it, or nothing when the extra length is negative as an [int]
    (the block is then allocated, and left as [malloc] gave it). *)
Definition open_input_image (file : list byte) (magic0 : list byte)
  : outcome input_image :=
  '(b, fd1) <- read_all file sizeof_image_hdr offsetof_offset_to_image_data ;;
  let h0 := hdr_of_bytes b (zeroed 4) in
  if negb (bytes_eqb (magic h0) (takeZ IMAGE_MAGIC_SIZE magic0))
  then Fatal bad_magic
  else if negb (byte.unsigned (major_ver h0) =? NTFSCLONE_IMG_VER_MAJOR)
          || (negb (byte.unsigned (minor_ver h0) =? NTFSCLONE_IMG_VER_MINOR_OLD)
              && negb (byte.unsigned (minor_ver h0) =? NTFSCLONE_IMG_VER_MINOR_NEW))
  then Fatal (bad_version (major_ver h0) (minor_ver h0))
  else
    '(off, fd2) <- read_all fd1 4 4 ;;
    let h := hdr_of_bytes b off in
    let extra_len := to_uint32 (le32_to_cpu off - sizeof_image_hdr) in
    '(extra, fd3) <- (if extra_len >? 0
                      then read_all fd2 extra_len (to_int extra_len)
                      else Ok ([], fd2)) ;;
    Ok {| fd := fd3; hdr := h; hdr_extra := extra;
          hdr_extra_len := extra_len;
          csize := le32_to_cpu (cluster_size h);
          ccount := sle64_to_cpu (nr_clusters h);
          bbs_present :=
            (if byte.unsigned (minor_ver h) =? NTFSCLONE_IMG_VER_MINOR_NEW
             then 1 else 0);
          cmd := Byte.x00; cmd_repeat := 0;
          cdata := zeroed NTFS_MAX_CLUSTER_SIZE |}.

Definition create_output_image (magic0 : list byte) (old_img : input_image)
  : outcome output_image :=
  fd1 <- write_all [] magic0 IMAGE_MAGIC_SIZE ;;
  fd2 <- write_all fd1 (from_major_ver (hdr old_img))
           (sizeof_image_hdr - IMAGE_MAGIC_SIZE) ;;
  fd3 <- (if hdr_extra_len old_img =? 0 then Ok fd2
          else write_all fd2 (hdr_extra old_img) (to_int (hdr_extra_len old_img))) ;;
  Ok {| out_fd := fd3; out_cmd := CMD_DATA; out_cmd_repeat := 0 |}.

(** ** The cluster codec *)

Definition read_next_cluster (img : input_image) (allow_drop_cmd : bool)
  : outcome input_image :=
  if cmd_repeat img >? 0
  then Ok (set_cmd_repeat img (cmd_repeat img - 1))
  else
    '(c, fd1) <- read_all (fd img) 1 1 ;;
    let img1 := set_fd_cmd img fd1 (hd Byte.x00 c) in
    if Byte.eqb (cmd img1) CMD_SKIP
       || (allow_drop_cmd && Byte.eqb (cmd img1) CMD_DROP)
    then
      '(r, fd2) <- read_all (fd img1) 8 8 ;;
      let img2 := set_cmd_repeat (set_fd img1 fd2) (sle64_to_cpu r) in
      if cmd_repeat img2 =? 0 then Fatal zero_repeat
      else Ok (set_cmd_repeat img2 (to_int64 (cmd_repeat img2 - 1)))
    else if Byte.eqb (cmd img1) CMD_DATA
    then
      '(d, fd2) <- read_all (fd img1) NTFS_MAX_CLUSTER_SIZE (to_int (csize img1)) ;;
      Ok (set_fd_cdata img1 fd2 (d ++ skipn (length d) (cdata img1)))
    else Fatal invalid_cmd.

Definition write_pending_cmd (img : output_image) : outcome output_image :=
  if negb (Byte.eqb (out_cmd img) CMD_DATA)
  then
    let repeat := cpu_to_sle64 (out_cmd_repeat img) in
    fd1 <- write_all (out_fd img) [out_cmd img] 1 ;;
    fd2 <- write_all fd1 repeat 8 ;;
    Ok {| out_fd := fd2; out_cmd := CMD_DATA; out_cmd_repeat := 0 |}
  else Ok img.

Definition write_cmd (img : output_image) (c : byte) : outcome output_image :=
  if Byte.eqb (out_cmd img) c
  then Ok {| out_fd := out_fd img; out_cmd := out_cmd img;
             out_cmd_repeat := to_int64 (out_cmd_repeat img + 1) |}
  else
    img1 <- write_pending_cmd img ;;
    Ok {| out_fd := out_fd img1; out_cmd := c; out_cmd_repeat := 1 |}.

Definition write_data (img : output_image) (cdata0 : list byte) (csize0 : Z)
  : outcome output_image :=
  img1 <- write_pending_cmd img ;;
  fd1 <- write_all (out_fd img1) [out_cmd img1] 1 ;;
  fd2 <- write_all fd1 cdata0 (to_int csize0) ;;
  Ok {| out_fd := fd2; out_cmd := out_cmd img1;
        out_cmd_repeat := out_cmd_repeat img1 |}.

(** ** Preparing and finishing an operation *)

Definition prepare_image_files
    (file1 magic1 file2 magic2 magic3 : list byte)
  : outcome (input_image * input_image * output_image) :=
  img1 <- open_input_image file1 magic1 ;;
  img2 <- open_input_image file2 magic2 ;;
  d1 <- memcmp_ne (from_cluster_size (hdr img1)) (from_cluster_size (hdr img2))
          (offsetof_inuse - IMAGE_MAGIC_SIZE - 2) ;;
  if d1 then Fatal header_mismatch
  else
    d2 <- (if hdr_extra_len img1 =? 0 then Ok false
           else memcmp_ne (hdr_extra img1) (hdr_extra img2)
                  (hdr_extra_len img1)) ;;
    if d2 then Fatal header_mismatch
    else
      img3 <- create_output_image magic3 img2 ;;
      Ok (img1, img2, img3).

(** [fsync] has no effect on the bytes of the file. *)
Definition finish_image_files (img1 img2 : input_image) (img3 : output_image)
  : outcome output_image :=
  if cmd_repeat img1 >? 0
  then Fatal (first_remaining (to_int (cmd_repeat img1)))
  else if cmd_repeat img2 >? 0
  then Fatal (second_remaining (to_int (cmd_repeat img2)))
  else write_pending_cmd img3.

(** ** Delta generation *)

Definition images : Type := (input_image * input_image * output_image)%type.

(** The body of the loop of [create_delta]. *)
Definition create_delta_step (st : images) : outcome images :=
  let '(old, new, delta) := st in
  old <- read_next_cluster old false ;;
  new <- read_next_cluster new false ;;
  same <- (if Byte.eqb (cmd old) (cmd new)
           then if Byte.eqb (cmd old) CMD_SKIP then Ok true
                else ne <- memcmp_ne (cdata old) (cdata new) (csize old) ;;
                     Ok (negb ne)
           else Ok false) ;;
  delta <- (if same then write_cmd delta CMD_SKIP
            else if Byte.eqb (cmd new) CMD_SKIP then write_cmd delta CMD_DROP
            else write_data delta (cdata new) (csize new)) ;;
  Ok (old, new, delta).

(** [for(pos = 0; pos < n; pos++) body]. *)
Fixpoint for_loop (n : nat) (body : images -> outcome images) (st : images)
  : outcome images :=
  match n with
  | O => Ok st
  | S n' => st' <- body st ;; for_loop n' body st'
  end.

(** The handling of a backup boot sector that only one of the inputs has;
    it is the same text in [create_delta] and [apply_patch]. *)
Definition lone_backup_boot_sector (st : images) : outcome images :=
  let '(img1, img2, img3) := st in
  if (bbs_present img1 =? 1) && (bbs_present img2 =? 0)
  then
    img1 <- read_next_cluster img1 false ;;
    Ok (img1, img2, img3)
  else if (bbs_present img1 =? 0) && (bbs_present img2 =? 1)
  then
    img2 <- read_next_cluster img2 false ;;
    img3 <- write_data img3 (cdata img2) (csize img2) ;;
    Ok (img1, img2, img3)
  else Ok st.

Definition finish (st : images) : outcome (list byte) :=
  let '(img1, img2, img3) := st in
  img3 <- finish_image_files img1 img2 img3 ;;
  Ok (out_fd img3).

(** [create_delta(file1, file2, file3)]: the bytes written to [file3]. *)
Definition create_delta (file1 file2 : list byte) : outcome (list byte) :=
  st <- prepare_image_files file1 IMAGE_MAGIC file2 IMAGE_MAGIC DELTA_MAGIC ;;
  let '(old, new, _) := st in
  let ccount0 :=
    if (bbs_present old =? 1) && (bbs_present new =? 1)
    then to_int64 (ccount old + 1) else ccount old in
  st <- for_loop (Z.to_nat ccount0) create_delta_step st ;;
  st <- lone_backup_boot_sector st ;;
  finish st.

(** ** Patch application *)

(** The body of the loop of [apply_patch]. *)
Definition apply_patch_step (st : images) : outcome images :=
  let '(old, delta, new) := st in
  old <- read_next_cluster old false ;;
  delta <- read_next_cluster delta true ;;
  new <- (if Byte.eqb (cmd delta) CMD_DROP
             || (Byte.eqb (cmd old) CMD_SKIP && Byte.eqb (cmd delta) CMD_SKIP)
          then write_cmd new CMD_SKIP
          else if Byte.eqb (cmd delta) CMD_SKIP
          then write_data new (cdata old) (csize old)
          else write_data new (cdata delta) (csize delta)) ;;
  Ok (old, delta, new).

(** The count the source computes in its local [ccount] and the bound its
    loop tests, [old.ccount]. *)
Definition apply_patch_ccount (old delta : input_image) : Z :=
  if (bbs_present old =? 1) && (bbs_present delta =? 1)
  then to_int64 (ccount old + 1) else ccount old.

Definition apply_patch_loop_bound (old delta : input_image) : Z :=
  let ccount0 := apply_patch_ccount old delta in
  ccount old.

(** [apply_patch(file1, file2, file3)]: the bytes written to [file3]. *)
Definition apply_patch (file1 file2 : list byte) : outcome (list byte) :=
  st <- prepare_image_files file1 IMAGE_MAGIC file2 DELTA_MAGIC IMAGE_MAGIC ;;
  let '(old, delta, _) := st in
  st <- for_loop (Z.to_nat (apply_patch_loop_bound old delta))
          apply_patch_step st ;;
  st <- lone_backup_boot_sector st ;;
  finish st.

(** ** The command line *)

(** What [main] does with its arguments: the operation it calls, with the
    three file names it passes, or the error it exits with.  [usage] is the
    exit of the function [usage]. *)
Inductive invocation : Type :=
| call_create_delta (file1 file2 file3 : string)
| call_apply_patch (file1 file2 file3 : string)
| usage
| stdin_twice.

(** [main(argc, argv)], with [argc] the length of [argv]. *)
Definition main (argv : list string) : invocation :=
  let argc := Z.of_nat (length argv) in
  if argc <? 3 then usage
  else
    let file1 := nth 2 argv EmptyString in
    let file2 := if argc >? 3 then nth 3 argv EmptyString else "-"%string in
    let file3 := if argc >? 4 then nth 4 argv EmptyString else "-"%string in
    if (String.eqb file1 "-" && String.eqb file2 "-")%bool then stdin_twice
    else if String.eqb (nth 1 argv EmptyString) "delta"
    then call_create_delta file1 file2 file3
    else if String.eqb (nth 1 argv EmptyString) "patch"
    then call_apply_patch file1 file2 file3
    else usage.

(** ** Cluster events

    What one call of [read_next_cluster] delivers, and what one call of
    [write_cmd] or [write_data] is given. *)

Inductive event : Type :=
| Skip
| Drop
| Data (payload : list byte).

Definition event_of (img : input_image) : event :=
  if Byte.eqb (cmd img) CMD_SKIP then Skip
  else if Byte.eqb (cmd img) CMD_DROP then Drop
  else Data (takeZ (csize img) (cdata img)).

Definition emit (csize0 : Z) (img : output_image) (e : event)
  : outcome output_image :=
  match e with
  | Skip => write_cmd img CMD_SKIP
  | Drop => write_cmd img CMD_DROP
  | Data payload => write_data img payload csize0
  end.

Fixpoint emit_all (csize0 : Z) (img : output_image) (es : list event)
  : outcome output_image :=
  match es with
  | [] => Ok img
  | e :: es' => img' <- emit csize0 img e ;; emit_all csize0 img' es'
  end.

(** [n] calls of [read_next_cluster], with the event after each. *)
Fixpoint read_events (n : nat) (allow_drop_cmd : bool) (img : input_image)
  : outcome (list event * input_image) :=
  match n with
  | O => Ok ([], img)
  | S n' =>
      img1 <- read_next_cluster img allow_drop_cmd ;;
      '(es, img2) <- read_events n' allow_drop_cmd img1 ;;
      Ok (event_of img1 :: es, img2)
  end.

Definition fresh_output (fd0 : list byte) : output_image :=
  {| out_fd := fd0; out_cmd := CMD_DATA; out_cmd_repeat := 0 |}.

(** * Notions used in the statements *)

(** ** States of the reader *)

(** The input image right after [open_input_image], for a header [h], an
    extra block [extra] and the command stream [rest]. *)
Definition extra_len_of (h : image_hdr) : Z :=
  to_uint32 (le32_to_cpu (offset_to_image_data h) - sizeof_image_hdr).

Definition initial_image (h : image_hdr) (extra rest : list byte)
  : input_image :=
  {| fd := rest; hdr := h; hdr_extra := extra;
     hdr_extra_len := extra_len_of h;
     csize := le32_to_cpu (cluster_size h);
     ccount := sle64_to_cpu (nr_clusters h);
     bbs_present :=
       (if byte.unsigned (minor_ver h) =? NTFSCLONE_IMG_VER_MINOR_NEW
        then 1 else 0);
     cmd := Byte.x00; cmd_repeat := 0;
     cdata := zeroed NTFS_MAX_CLUSTER_SIZE |}.

(** The fields of an input image that [read_next_cluster] never assigns. *)
Definition static (img : input_image) :=
  (hdr img, hdr_extra img, hdr_extra_len img, csize img, ccount img,
   bbs_present img).

(** The cluster buffer has its declared size. *)
Definition buffer_ok (img : input_image) : Prop :=
  lenZ (cdata img) = NTFS_MAX_CLUSTER_SIZE.

(** A reader that never allows the drop command holds a skip or a data
    command. *)
Definition base_tags (img : input_image) : Prop :=
  cmd img = CMD_SKIP \/ cmd img = CMD_DATA.

Definition reader_ok (img : input_image) : Prop :=
  base_tags img /\ buffer_ok img.

(** The number of clusters the command stream of an image holds. *)
Definition clusters_of (img : input_image) : nat :=
  (Z.to_nat (ccount img) + Z.to_nat (bbs_present img))%nat.

(** ** States of the writer *)

(** Either nothing is pending, or a run of at least one cluster. *)
Definition writer_inv (w : output_image) : Prop :=
  (out_cmd w = CMD_DATA /\ out_cmd_repeat w = 0)
  \/ ((out_cmd w = CMD_SKIP \/ out_cmd w = CMD_DROP) /\ 1 <= out_cmd_repeat w).

(** The event of a run tag. *)
Definition tag_event (c : byte) : event :=
  if Byte.eqb c CMD_SKIP then Skip else Drop.

(** What [write_pending_cmd] appends, and the events it stands for. *)
Definition pending_bytes (w : output_image) : list byte :=
  if Byte.eqb (out_cmd w) CMD_DATA then []
  else out_cmd w :: cpu_to_sle64 (out_cmd_repeat w).

Definition pending_events (w : output_image) : list event :=
  if Byte.eqb (out_cmd w) CMD_DATA then []
  else repeat (tag_event (out_cmd w)) (Z.to_nat (out_cmd_repeat w)).



(** The output of an operation only grows. *)
Definition extends (a b : list byte) : Prop := exists s, b = a ++ s.

Definition output_of (st : images) : list byte := out_fd (snd st).

(** The image written from a template header and a list of cluster
    events: [create_output_image], one [write_cmd] or [write_data] per
    event, and the final [write_pending_cmd]. *)
Definition write_image (magic0 : list byte) (tmpl : input_image)
    (es : list event) : outcome (list byte) :=
  w <- create_output_image magic0 tmpl ;;
  w <- emit_all (csize tmpl) w es ;;
  w <- write_pending_cmd w ;;
  Ok (out_fd w).

(** ** Events *)

(** A data event carries one cluster. *)
Definition payload_ok (csize0 : Z) (e : event) : Prop :=
  match e with
  | Data p => lenZ p = csize0
  | _ => True
  end.

Definition no_drop (e : event) : Prop := e <> Drop.

(** The branches of the loop bodies of [create_delta] and [apply_patch],
    on the events of the two readers. *)
Definition delta_event (eo en : event) : event :=
  match eo, en with
  | Skip, Skip => Skip
  | Data a, Data b => if bytes_eqb a b then Skip else Data b
  | _, Skip => Drop
  | _, e => e
  end.

Definition patch_event (eo ed : event) : event :=
  match ed, eo with
  | Drop, _ => Skip
  | Skip, e => e
  | Data q, _ => Data q
  end.

Fixpoint zip_with (f : event -> event -> event) (l1 l2 : list event)
  : list event :=
  match l1, l2 with
  | a :: l1', b :: l2' => f a b :: zip_with f l1' l2'
  | _, _ => []
  end.

(** ** Headers *)

(** What the checks of [open_input_image] establish: the field sizes of
    the packed structure and a supported version.  No condition bears on
    the value of any other field. *)
Definition hdr_wf (h : image_hdr) : Prop :=
  length (magic h) = 16%nat /\ length (cluster_size h) = 4%nat
  /\ length (device_size h) = 8%nat /\ length (nr_clusters h) = 8%nat
  /\ length (inuse h) = 8%nat /\ length (offset_to_image_data h) = 4%nat
  /\ byte.unsigned (major_ver h) = NTFSCLONE_IMG_VER_MAJOR
  /\ (byte.unsigned (minor_ver h) = NTFSCLONE_IMG_VER_MINOR_OLD
      \/ byte.unsigned (minor_ver h) = NTFSCLONE_IMG_VER_MINOR_NEW).

(** The 50 bytes of the structure. *)
Definition hdr_bytes (h : image_hdr) : list byte := magic h ++ from_major_ver h.

(** The extra block as [open_input_image] reads it: [hdr_extra_len] bytes
    when that length is positive as an [int], none otherwise. *)
Definition extra_ok (h : image_hdr) (extra : list byte) : Prop :=
  if 0 <? to_int (extra_len_of h) then lenZ extra = extra_len_of h
  else extra = [].

Definition set_cluster_size (h : image_hdr) (cs : list byte) : image_hdr :=
  {| magic := magic h; major_ver := major_ver h; minor_ver := minor_ver h;
     cluster_size := cs; device_size := device_size h;
     nr_clusters := nr_clusters h; inuse := inuse h;
     offset_to_image_data := offset_to_image_data h |}.

Definition set_magic (h : image_hdr) (m : list byte) : image_hdr :=
  {| magic := m; major_ver := major_ver h; minor_ver := minor_ver h;
     cluster_size := cluster_size h; device_size := device_size h;
     nr_clusters := nr_clusters h; inuse := inuse h;
     offset_to_image_data := offset_to_image_data h |}.

(** The two comparisons of [prepare_image_files], between its two calls
    of [open_input_image] and its call of [create_output_image]. *)
Definition header_check (img1 img2 : input_image) : outcome unit :=
  d1 <- memcmp_ne (from_cluster_size (hdr img1)) (from_cluster_size (hdr img2))
          (offsetof_inuse - IMAGE_MAGIC_SIZE - 2) ;;
  if d1 then Fatal header_mismatch
  else
    d2 <- (if hdr_extra_len img1 =? 0 then Ok false
           else memcmp_ne (hdr_extra img1) (hdr_extra img2)
                  (hdr_extra_len img1)) ;;
    if d2 then Fatal header_mismatch else Ok tt.

(** The fields the first [memcmp] covers: 20 bytes from [cluster_size]. *)
Definition compared_fields (h : image_hdr) : list byte :=
  cluster_size h ++ device_size h ++ nr_clusters h.

(** ** Versions *)

(** The versions [open_input_image] lets through. *)
Definition supported_version (major minor : byte) : Prop :=
  byte.unsigned major = NTFSCLONE_IMG_VER_MAJOR
  /\ (byte.unsigned minor = NTFSCLONE_IMG_VER_MINOR_OLD
      \/ byte.unsigned minor = NTFSCLONE_IMG_VER_MINOR_NEW).

(** ** A backup boot sector in one input only *)

(** The clusters [lone_backup_boot_sector] reads from an input: one from
    the input that alone has a backup boot sector. *)
Definition lone_cluster (img other : input_image) : nat :=
  if (bbs_present img =? 1) && (bbs_present other =? 0) then 1%nat else 0%nat.

(** The events it writes: the cluster buffer of the second input, as a data
    cluster, when that input alone has a backup boot sector. *)
Definition kept_cluster (img1 img2 : input_image) : list event :=
  if (bbs_present img1 =? 0) && (bbs_present img2 =? 1)
  then [Data (takeZ (csize img2) (cdata img2))] else [].

(** ** Bytes after the last record *)

(** The reader [img] on a file that goes on with the bytes [j]. *)
Definition more (j : list byte) (img : input_image) : input_image :=
  set_fd img (fd img ++ j).

(** * Example images *)

(** An image file of version 10.[minor], with its extra block and command
    stream. *)
Definition image_file (magic0 : list byte) (minor : Z)
    (cs dev nr used : Z) (extra cmds : list byte) : list byte :=
  takeZ 16 magic0 ++ [byte.of_Z 10; byte.of_Z minor]
    ++ le_split 4 cs ++ le_split 8 dev ++ le_split 8 nr ++ le_split 8 used
    ++ le_split 4 (50 + lenZ extra) ++ extra ++ cmds.

Definition run_record (c : byte) (n : Z) : list byte := c :: cpu_to_sle64 n.
Definition data_record (payload : list byte) : list byte := CMD_DATA :: payload.

(** The result of a run that went well. *)
Definition force {A : Type} (d : A) (o : outcome A) : A :=
  match o with
  | Ok a => a
  | _ => d
  end.

Definition is_ok {A : Type} (o : outcome A) : bool :=
  match o with
  | Ok _ => true
  | _ => false
  end.

Definition blank_hdr : image_hdr :=
  {| magic := takeZ 16 IMAGE_MAGIC; major_ver := byte.of_Z 10;
     minor_ver := Byte.x00; cluster_size := le_split 4 2;
     device_size := le_split 8 0; nr_clusters := le_split 8 0;
     inuse := le_split 8 0; offset_to_image_data := le_split 4 50 |}.

Definition opened (file magic0 : list byte) : input_image :=
  force (initial_image blank_hdr [] []) (open_input_image file magic0).

(** Clusters of two bytes. *)
Definition ex_a : list byte := [Byte.x61; Byte.x61].
Definition ex_b : list byte := [Byte.x62; Byte.x62].
Definition ex_c : list byte := [Byte.x63; Byte.x63].

(** Two images of four clusters, with one byte of extra block and with
    in-use counts 3 and 2, and their delta. *)
Definition ex_old := image_file IMAGE_MAGIC 0 2 8 4 3 [Byte.x2a]
  (data_record ex_a ++ run_record CMD_SKIP 1 ++ data_record ex_b ++ data_record ex_c).
Definition ex_new := image_file IMAGE_MAGIC 0 2 8 4 2 [Byte.x2a]
  (data_record ex_a ++ data_record ex_c ++ run_record CMD_SKIP 2).
Definition ex_delta : list byte := force [] (create_delta ex_old ex_new).

(** [ex_new] without its extra block. *)
Definition ex_new_bare := image_file IMAGE_MAGIC 0 2 8 4 2 []
  (data_record ex_a ++ data_record ex_c ++ run_record CMD_SKIP 2).


(** The same two clusters, as one run and as two runs. *)
Definition one_run := image_file IMAGE_MAGIC 0 2 4 2 0 [] (run_record CMD_SKIP 2).
Definition two_runs := image_file IMAGE_MAGIC 0 2 4 2 0 []
  (run_record CMD_SKIP 1 ++ run_record CMD_SKIP 1).

(** One cluster and a backup boot sector, in both images. *)
Definition bbs_old := image_file IMAGE_MAGIC 1 2 2 1 1 []
  (data_record ex_a ++ data_record ex_b).
Definition bbs_new := image_file IMAGE_MAGIC 1 2 2 1 1 []
  (data_record ex_a ++ data_record ex_c).
Definition bbs_delta : list byte := force [] (create_delta bbs_old bbs_new).
Definition one_cluster_bbs := image_file IMAGE_MAGIC 1 2 2 1 1 []
  (data_record ex_a).

(** A backup boot sector in one of the images only. *)
Definition lone_old := image_file IMAGE_MAGIC 1 2 2 1 1 []
  (data_record ex_a ++ data_record ex_b).
Definition plain_new := image_file IMAGE_MAGIC 0 2 2 1 1 [] (data_record ex_c).
Definition plain_old := image_file IMAGE_MAGIC 0 2 2 1 1 [] (data_record ex_a).
Definition lone_new := image_file IMAGE_MAGIC 1 2 2 1 0 []
  (run_record CMD_SKIP 1 ++ data_record ex_c).
Definition lone_new_skipped := image_file IMAGE_MAGIC 1 2 2 1 1 []
  (data_record ex_c ++ run_record CMD_SKIP 1).
Definition lone_new_stale := image_file IMAGE_MAGIC 1 2 2 1 1 []
  (data_record ex_c ++ data_record ex_c).

Definition long_run := image_file IMAGE_MAGIC 0 2 2 1 0 [] (run_record CMD_SKIP 2).


(** Readers in front of a run record. *)
Definition run_of_three : input_image :=
  initial_image blank_hdr [] (run_record CMD_SKIP 3 ++ data_record ex_a).
Definition run_of_one : input_image :=
  initial_image blank_hdr [] (run_record CMD_SKIP 1 ++ data_record ex_a).

(** A cluster size one byte larger than the cluster buffer. *)
Definition big_cluster_size : list byte := le_split 4 (NTFS_MAX_CLUSTER_SIZE + 1).
Definition big_payload : list byte :=
  repeat Byte.x61 (Z.to_nat (NTFS_MAX_CLUSTER_SIZE + 1)).

(** Events of clusters of two bytes. *)
Definition ex_events : list event := [Skip; Skip; Drop; Data ex_a; Skip].

(** A reader in front of a run record with a negative count, and one in
    front of a drop record. *)
Definition run_below_zero : input_image :=
  initial_image blank_hdr [] (run_record CMD_SKIP (-5) ++ data_record ex_a).
Definition drop_record : input_image :=
  initial_image blank_hdr [] (run_record CMD_DROP 1).

(** The first 50 bytes of an image of version 9.0. *)
Definition version_nine : list byte :=
  takeZ 16 IMAGE_MAGIC ++ [byte.of_Z 9; Byte.x00] ++ repeat Byte.x00 32.

(** A header whose data offset is 0. *)
Definition low_offset_hdr : image_hdr :=
  {| magic := takeZ 16 IMAGE_MAGIC; major_ver := byte.of_Z 10;
     minor_ver := Byte.x00; cluster_size := le_split 4 2;
     device_size := le_split 8 0; nr_clusters := le_split 8 0;
     inuse := le_split 8 0; offset_to_image_data := le_split 4 0 |}.

(** Two images of no cluster, the second with a record after its header. *)
Definition no_cluster_old := image_file IMAGE_MAGIC 0 2 0 0 0 [] [].
Definition no_cluster_new := image_file IMAGE_MAGIC 0 2 0 0 0 []
  (data_record ex_a).

(** The three results of [prepare_image_files]. *)
Definition prepared (file1 magic1 file2 magic2 magic3 : list byte) : images :=
  force (run_of_one, run_of_one, fresh_output [])
    (prepare_image_files file1 magic1 file2 magic2 magic3).

(** The events of [n] calls of [read_next_cluster], and the reader after
    them. *)
Definition events_read (n : nat) (allow_drop_cmd : bool) (img : input_image)
  : list event * input_image :=
  force ([], img) (read_events n allow_drop_cmd img).

(** An image that agrees with [ex_old] where [ex_delta] skips. *)
Definition ex_old_variant := image_file IMAGE_MAGIC 0 2 8 4 2 [Byte.x2a]
  (data_record ex_a ++ data_record ex_b ++ run_record CMD_SKIP 2).

(** * Properties *)

Arguments cpu_to_sle64 : simpl never.
Arguments sle64_to_cpu : simpl never.
Arguments le32_to_cpu : simpl never.
Arguments read_all : simpl never.
Arguments write_all : simpl never.
Arguments memcmp_ne : simpl never.
Arguments to_int : simpl never.
Arguments to_int64 : simpl never.
Arguments to_uint32 : simpl never.
Arguments takeZ : simpl never.
Arguments dropZ : simpl never.
Arguments zeroed : simpl never.
Arguments Z.pow : simpl never.
Arguments Z.sub : simpl never.
Arguments Z.add : simpl never.

(** ** Outcomes *)

Lemma bind_Ok {A B} (m : outcome A) (k : A -> outcome B) (b : B) :
  bind m k = Ok b -> exists a, m = Ok a /\ k a = Ok b.
Proof. destruct m; simpl; intros H; try discriminate. eauto. Qed.

Ltac consts :=
  unfold sizeof_image_hdr, offsetof_offset_to_image_data, offsetof_inuse,
    IMAGE_MAGIC_SIZE, NTFS_MAX_CLUSTER_SIZE, NTFSCLONE_IMG_VER_MAJOR,
    NTFSCLONE_IMG_VER_MINOR_OLD, NTFSCLONE_IMG_VER_MINOR_NEW in *.

Ltac case_if H :=
  match type of H with
  | context [if ?c then _ else _] => destruct c
  end.

Ltac inv_bind H :=
  let x := fresh "x" in
  let E := fresh "E" in
  apply bind_Ok in H; destruct H as (x & E & H).

(** ** Integers and byte strings *)

Lemma to_int64_small z : - 2 ^ 63 <= z < 2 ^ 63 -> to_int64 z = z.
Proof. intros H. unfold to_int64. rewrite Z.mod_small; lia. Qed.

Lemma to_int_small z : - 2 ^ 31 <= z < 2 ^ 31 -> to_int z = z.
Proof. intros H. unfold to_int. rewrite Z.mod_small; lia. Qed.

Lemma to_int64_range z : - 2 ^ 63 <= to_int64 z < 2 ^ 63.
Proof.
  unfold to_int64.
  assert (0 < 2 ^ 64) as Hp by lia.
  pose proof (Z.mod_pos_bound (z + 2 ^ 63) (2 ^ 64) Hp). lia.
Qed.

Lemma length_cpu_to_sle64 z : length (cpu_to_sle64 z) = 8%nat.
Proof. apply length_le_split. Qed.

Lemma sle64_to_cpu_to_sle64 z :
  - 2 ^ 63 <= z < 2 ^ 63 -> sle64_to_cpu (cpu_to_sle64 z) = z.
Proof.
  intros H. unfold sle64_to_cpu, cpu_to_sle64.
  rewrite le_combine_split. change (Z.of_nat 8 * 8) with 64.
  unfold to_int64.
  destruct (Z_lt_le_dec z 0).
  - replace (z mod 2 ^ 64) with (z + 2 ^ 64).
    + replace (z + 2 ^ 64 + 2 ^ 63) with (z + 2 ^ 63 + 1 * 2 ^ 64) by lia.
      rewrite Z.mod_add by lia. rewrite Z.mod_small; lia.
    + symmetry. replace z with (z + 2 ^ 64 + (-1) * 2 ^ 64) at 1 by lia.
      rewrite Z.mod_add by lia. apply Z.mod_small. lia.
  - rewrite (Z.mod_small z) by lia. rewrite Z.mod_small; lia.
Qed.

Lemma cpu_to_sle64_to_cpu raw :
  length raw = 8%nat -> cpu_to_sle64 (sle64_to_cpu raw) = raw.
Proof.
  intros H. unfold sle64_to_cpu, cpu_to_sle64.
  rewrite <- (split_le_combine raw) at 2. rewrite H.
  apply le_combine_inj.
  - now rewrite !length_le_split.
  - rewrite !le_combine_split. change (Z.of_nat 8 * 8) with 64.
    unfold to_int64.
    rewrite Zminus_mod_idemp_l.
    replace ((le_combine raw + 2 ^ 63) - 2 ^ 63) with (le_combine raw) by lia.
    reflexivity.
Qed.

Lemma bytes_eqb_eq a b : bytes_eqb a b = true <-> a = b.
Proof.
  revert b. induction a as [|x a IH]; intros [|y b]; simpl;
    try (split; [discriminate | discriminate]); try tauto.
  rewrite andb_true_iff, IH. split.
  - intros [H1 H2]. apply Byte.byte_dec_bl in H1. congruence.
  - intros H. injection H as -> ->. split; [now apply Byte.byte_dec_lb|reflexivity].
Qed.

Lemma bytes_eqb_refl a : bytes_eqb a a = true.
Proof. now apply bytes_eqb_eq. Qed.

Lemma byte_eqb_eq x y : Byte.eqb x y = true <-> x = y.
Proof.
  split; [apply Byte.byte_dec_bl | apply Byte.byte_dec_lb].
Qed.

Lemma byte_eqb_neq x y : Byte.eqb x y = false <-> x <> y.
Proof.
  split.
  - intros H E. apply byte_eqb_eq in E. congruence.
  - intros H. destruct (Byte.eqb x y) eqn:E; [|reflexivity].
    apply byte_eqb_eq in E. contradiction.
Qed.

Lemma takeZ_app_exact a rest n : lenZ a = n -> takeZ n (a ++ rest) = a.
Proof.
  unfold takeZ, lenZ. intros <-. rewrite Nat2Z.id.
  now apply List.firstn_app_l.
Qed.

Lemma dropZ_app_exact a rest n : lenZ a = n -> dropZ n (a ++ rest) = rest.
Proof.
  unfold dropZ, lenZ. intros <-. rewrite Nat2Z.id.
  rewrite skipn_app, Nat.sub_diag, skipn_all. reflexivity.
Qed.

Lemma takeZ_all a n : lenZ a = n -> takeZ n a = a.
Proof.
  intros H. rewrite <- (app_nil_r a) at 1. now apply takeZ_app_exact.
Qed.

Lemma lenZ_app a b : lenZ (a ++ b) = lenZ a + lenZ b.
Proof. unfold lenZ. rewrite length_app. lia. Qed.

Lemma lenZ_nonneg a : 0 <= lenZ a.
Proof. unfold lenZ. lia. Qed.

Lemma lenZ_takeZ n l : 0 <= n <= lenZ l -> lenZ (takeZ n l) = n.
Proof. unfold lenZ, takeZ. intros H. rewrite length_firstn. lia. Qed.

(** Reading exactly the bytes [a] that the file starts with. *)
Lemma read_all_app a rest room n :
  lenZ a = n -> n <= room -> 0 < n ->
  read_all (a ++ rest) room n = Ok (a, rest).
Proof.
  intros Hn Hroom Hpos. unfold read_all.
  destruct (n <=? 0) eqn:E; [lia|].
  rewrite takeZ_app_exact, dropZ_app_exact by assumption.
  destruct (room <? lenZ a) eqn:E1; [lia|].
  destruct (lenZ a <? n) eqn:E2; [lia|]. reflexivity.
Qed.

Lemma read_all_Ok f room n got rest :
  read_all f room n = Ok (got, rest) ->
  f = got ++ rest /\ (0 < n -> lenZ got = n /\ n <= room) /\ (n <= 0 -> got = []).
Proof.
  unfold read_all. destruct (n <=? 0) eqn:E.
  - intros H. injection H as <- <-. repeat split; try lia; reflexivity.
  - destruct (room <? lenZ (takeZ n f)) eqn:E1; [discriminate|].
    destruct (lenZ (takeZ n f) <? n) eqn:E2; [discriminate|].
    intros H. injection H as <- <-. split.
    + unfold takeZ, dropZ. now rewrite firstn_skipn.
    + split; [|lia]. intros _.
      assert (lenZ (takeZ n f) <= n).
      { unfold lenZ, takeZ. rewrite length_firstn. lia. }
      lia.
Qed.

Lemma write_all_exact out buf n :
  lenZ buf = n -> write_all out buf n = Ok (out ++ buf).
Proof.
  intros H. unfold write_all. destruct (n <=? 0) eqn:E.
  - assert (buf = []) as ->.
    { destruct buf; [reflexivity|]. unfold lenZ in H. simpl in H. lia. }
    now rewrite app_nil_r.
  - destruct (lenZ buf <? n) eqn:E1; [lia|]. now rewrite takeZ_all.
Qed.

(** ** The reader *)

Lemma static_inv a b :
  static a = static b ->
  hdr a = hdr b /\ hdr_extra a = hdr_extra b
  /\ hdr_extra_len a = hdr_extra_len b /\ csize a = csize b
  /\ ccount a = ccount b /\ bbs_present a = bbs_present b.
Proof. unfold static. intros H. injection H. auto 10. Qed.

Lemma static_csize a b : static a = static b -> csize a = csize b.
Proof. intros H. apply static_inv in H. tauto. Qed.

Lemma static_bbs a b : static a = static b -> bbs_present a = bbs_present b.
Proof. intros H. apply static_inv in H. tauto. Qed.

Lemma length_store_prefix (d buf : list byte) :
  (length d <= length buf)%nat -> length (d ++ skipn (length d) buf) = length buf.
Proof. intros H. rewrite length_app, length_skipn. lia. Qed.

Lemma read_next_cluster_static img a img' :
  read_next_cluster img a = Ok img' ->
  static img' = static img /\ (buffer_ok img -> buffer_ok img').
Proof.
  unfold read_next_cluster.
  destruct (cmd_repeat img >? 0).
  { intros H. injection H as <-. split; [reflexivity|auto]. }
  intros H. inv_bind H. destruct x as [c fd1]. simpl in H.
  destruct (_ || _).
  - inv_bind H. destruct x as [r fd2]. simpl in H.
    destruct (_ =? 0); [discriminate|]. injection H as <-.
    split; [reflexivity|auto].
  - destruct (Byte.eqb _ CMD_DATA); [|discriminate].
    inv_bind H. destruct x as [d fd2]. simpl in H. injection H as <-.
    split; [reflexivity|]. unfold buffer_ok, lenZ. simpl.
    intros Hb. apply read_all_Ok in E0. destruct E0 as (_ & Hpos & Hneg).
    rewrite length_store_prefix; [assumption|].
    destruct (Z_lt_le_dec 0 (to_int (csize img))) as [Hc|Hc].
    + destruct (Hpos Hc) as [Hl Hr]. unfold lenZ in Hl. lia.
    + rewrite (Hneg Hc). simpl. lia.
Qed.

(** Inside a run, a read only counts down. *)
Lemma read_next_cluster_in_run img a :
  0 < cmd_repeat img ->
  read_next_cluster img a = Ok (set_cmd_repeat img (cmd_repeat img - 1)).
Proof.
  intros H. unfold read_next_cluster.
  destruct (cmd_repeat img >? 0) eqn:E; [reflexivity|lia].
Qed.

(** At a record boundary, a run record of [r] clusters. *)
Lemma read_next_cluster_run img a c r rest :
  cmd_repeat img <= 0 ->
  fd img = c :: cpu_to_sle64 r ++ rest ->
  c = CMD_SKIP \/ (a = true /\ c = CMD_DROP) ->
  1 <= r < 2 ^ 63 ->
  read_next_cluster img a
  = Ok (set_cmd_repeat (set_fd_cmd img rest c) (r - 1)).
Proof.
  intros Hrep Hfd Hc Hr. unfold read_next_cluster.
  destruct (cmd_repeat img >? 0) eqn:E; [lia|].
  rewrite Hfd. change (c :: cpu_to_sle64 r ++ rest)
    with ([c] ++ (cpu_to_sle64 r ++ rest)).
  rewrite read_all_app by (reflexivity || lia). cbn.
  replace (Byte.eqb c CMD_SKIP || (a && Byte.eqb c CMD_DROP)) with true.
  2:{ symmetry. destruct Hc as [->|[-> ->]]; reflexivity. }
  rewrite read_all_app; try lia.
  2:{ unfold lenZ. now rewrite length_cpu_to_sle64. }
  cbn. rewrite sle64_to_cpu_to_sle64 by lia.
  destruct (r =? 0) eqn:E0; [lia|].
  rewrite to_int64_small by lia. reflexivity.
Qed.

(** At a record boundary, a data record. *)
Lemma read_next_cluster_data img a p rest :
  cmd_repeat img <= 0 ->
  fd img = CMD_DATA :: p ++ rest ->
  lenZ p = csize img -> csize img <= NTFS_MAX_CLUSTER_SIZE ->
  read_next_cluster img a
  = Ok (set_fd_cdata (set_fd_cmd img rest CMD_DATA) rest
          (p ++ skipn (length p) (cdata img))).
Proof.
  intros Hrep Hfd Hp Hc. unfold read_next_cluster.
  destruct (cmd_repeat img >? 0) eqn:E; [lia|].
  rewrite Hfd. change (CMD_DATA :: p ++ rest) with ([CMD_DATA] ++ (p ++ rest)).
  rewrite read_all_app by (reflexivity || lia). cbn.
  rewrite andb_false_r. cbn.
  assert (NTFS_MAX_CLUSTER_SIZE = 65536) as HM by reflexivity.
  pose proof (lenZ_nonneg p).
  rewrite to_int_small by lia.
  destruct (Z.eq_dec (csize img) 0) as [Hz|Hz].
  - assert (p = []) as ->.
    { destruct p; [reflexivity|]. unfold lenZ in Hp. cbn in Hp. lia. }
    rewrite Hz. reflexivity.
  - rewrite read_all_app by lia. reflexivity.
Qed.

Lemma read_events_app n m a img :
  read_events (n + m) a img
  = '(es1, img1) <- read_events n a img ;;
    '(es2, img2) <- read_events m a img1 ;;
    Ok (es1 ++ es2, img2).
Proof.
  revert img. induction n as [|n IH]; intros img; cbn.
  - destruct (read_events m a img) as [[es2 img2]| |]; reflexivity.
  - destruct (read_next_cluster img a) as [img1| |]; cbn; try reflexivity.
    rewrite IH. destruct (read_events n a img1) as [[es1 img2]| |]; cbn;
      try reflexivity.
    destruct (read_events m a img2) as [[es2 img3]| |]; reflexivity.
Qed.

(** The remaining clusters of a run. *)
Lemma read_events_in_run k a img :
  cmd_repeat img = Z.of_nat k ->
  cmd img = CMD_SKIP \/ cmd img = CMD_DROP ->
  read_events k a img
  = Ok (repeat (tag_event (cmd img)) k, set_cmd_repeat img 0).
Proof.
  revert img. induction k as [|k IH]; intros img Hk Hc.
  - cbn. f_equal. f_equal. destruct img; cbn in *. now subst.
  - cbn [read_events]. rewrite read_next_cluster_in_run by lia. cbn [bind].
    rewrite IH; [| cbn; lia | exact Hc]. cbn. f_equal. f_equal.
    f_equal. unfold event_of, tag_event. cbn.
    destruct Hc as [-> | ->]; reflexivity.
Qed.

(** A whole run record of [r] clusters expands to [r] events. *)
Lemma read_events_run img a c r rest :
  cmd_repeat img <= 0 ->
  fd img = c :: cpu_to_sle64 r ++ rest ->
  c = CMD_SKIP \/ (a = true /\ c = CMD_DROP) ->
  1 <= r < 2 ^ 63 ->
  read_events (Z.to_nat r) a img
  = Ok (repeat (tag_event c) (Z.to_nat r),
        set_cmd_repeat (set_fd_cmd img rest c) 0).
Proof.
  intros Hrep Hfd Hc Hr.
  replace (Z.to_nat r) with (S (Z.to_nat (r - 1))) by lia.
  cbn [read_events].
  rewrite (read_next_cluster_run img a c r rest) by assumption. cbn [bind].
  rewrite read_events_in_run; [| cbn; lia | cbn; tauto ].
  cbn. f_equal. f_equal. f_equal. unfold event_of, tag_event. cbn.
  destruct Hc as [->|[_ ->]]; reflexivity.
Qed.

(** ** The writer *)

Lemma writer_inv_fresh out : writer_inv (fresh_output out).
Proof. left. split; reflexivity. Qed.

Lemma write_pending_cmd_eq w :
  writer_inv w ->
  write_pending_cmd w = Ok (fresh_output (out_fd w ++ pending_bytes w)).
Proof.
  intros Hw. unfold write_pending_cmd, pending_bytes.
  destruct Hw as [[Hc Hr]|[Hc Hr]].
  - rewrite Hc. cbn. rewrite app_nil_r. destruct w; cbn in *. now subst.
  - assert (Byte.eqb (out_cmd w) CMD_DATA = false) as ->.
    { destruct Hc as [-> | ->]; reflexivity. }
    cbn. rewrite (write_all_exact _ [out_cmd w] 1) by reflexivity. cbn.
    rewrite write_all_exact.
    2:{ unfold lenZ. now rewrite length_cpu_to_sle64. }
    unfold fresh_output. rewrite <- app_assoc. reflexivity.
Qed.

Lemma write_cmd_same w c :
  out_cmd w = c ->
  write_cmd w c
  = Ok {| out_fd := out_fd w; out_cmd := c;
          out_cmd_repeat := to_int64 (out_cmd_repeat w + 1) |}.
Proof.
  intros <-. unfold write_cmd.
  now rewrite (proj2 (byte_eqb_eq _ _) eq_refl).
Qed.

Lemma write_cmd_other w c :
  writer_inv w -> out_cmd w <> c ->
  write_cmd w c
  = Ok {| out_fd := out_fd w ++ pending_bytes w; out_cmd := c;
          out_cmd_repeat := 1 |}.
Proof.
  intros Hw Hc. unfold write_cmd.
  rewrite (proj2 (byte_eqb_neq _ _) Hc).
  now rewrite write_pending_cmd_eq.
Qed.

Lemma write_data_eq w p csz :
  writer_inv w -> lenZ p = csz -> csz < 2 ^ 31 ->
  write_data w p csz
  = Ok (fresh_output (out_fd w ++ pending_bytes w ++ CMD_DATA :: p)).
Proof.
  intros Hw Hp Hc. unfold write_data.
  rewrite write_pending_cmd_eq by assumption. cbn.
  rewrite (write_all_exact _ [CMD_DATA] 1) by reflexivity. cbn.
  pose proof (lenZ_nonneg p).
  rewrite to_int_small by lia.
  rewrite write_all_exact by assumption.
  unfold fresh_output. rewrite <- !app_assoc. reflexivity.
Qed.

(** Writing from the cluster buffer writes its first [csize] bytes. *)
Lemma write_data_buffer w buf csz :
  0 <= csz <= lenZ buf -> csz < 2 ^ 31 ->
  write_data w buf csz = write_data w (takeZ csz buf) csz.
Proof.
  intros Hc Hc'. unfold write_data.
  destruct (write_pending_cmd w) as [w1| |]; cbn; try reflexivity.
  destruct (write_all (out_fd w1) [out_cmd w1] 1) as [f1| |]; cbn;
    try reflexivity.
  rewrite to_int_small by lia. unfold write_all.
  destruct (csz <=? 0) eqn:E; [reflexivity|].
  rewrite lenZ_takeZ by lia.
  destruct (lenZ buf <? csz) eqn:E1; [lia|].
  destruct (csz <? csz) eqn:E2; [lia|].
  unfold takeZ. rewrite firstn_firstn, Nat.min_id. reflexivity.
Qed.

(** The reader expands what a flush appends into the pending events. *)
Lemma read_events_pending w img rest :
  writer_inv w -> out_cmd_repeat w < 2 ^ 63 ->
  cmd_repeat img <= 0 -> fd img = pending_bytes w ++ rest ->
  exists img',
    read_events (length (pending_events w)) true img
    = Ok (pending_events w, img')
    /\ fd img' = rest /\ cmd_repeat img' <= 0
    /\ static img' = static img /\ cdata img' = cdata img.
Proof.
  intros Hw Hr Himg Hfd. unfold pending_bytes in Hfd. unfold pending_events.
  destruct Hw as [[Hc Hz]|[Hc Hz]].
  - rewrite Hc in *. cbn in *. exists img. repeat split; auto.
  - assert (Byte.eqb (out_cmd w) CMD_DATA = false) as E.
    { destruct Hc as [-> | ->]; reflexivity. }
    rewrite E in *. rewrite repeat_length.
    eexists. split.
    + apply (read_events_run img true (out_cmd w) (out_cmd_repeat w) rest);
        try assumption; try lia.
      destruct Hc; [left|right]; auto.
    + cbn. repeat split; auto. lia.
Qed.

Lemma repeat_snoc_app {A} (x : A) n l :
  repeat x (S n) ++ l = repeat x n ++ x :: l.
Proof.
  induction n as [|n IH]; [reflexivity|].
  change (repeat x (S (S n))) with (x :: repeat x (S n)).
  cbn [app]. rewrite IH. reflexivity.
Qed.

Lemma read_events_compose n m a img es1 img1 es2 img2 :
  read_events n a img = Ok (es1, img1) ->
  read_events m a img1 = Ok (es2, img2) ->
  read_events (n + m) a img = Ok (es1 ++ es2, img2).
Proof.
  intros H1 H2. rewrite read_events_app, H1. cbn. rewrite H2. reflexivity.
Qed.

Lemma emit_run csz w c e :
  writer_inv w ->
  (c = CMD_SKIP /\ e = Skip) \/ (c = CMD_DROP /\ e = Drop) ->
  (out_cmd w = c -> out_cmd_repeat w + 1 < 2 ^ 63) ->
  exists w',
    emit csz w e = Ok w' /\ writer_inv w' /\ out_cmd w' = c
    /\ ((out_cmd w = c /\ out_fd w' = out_fd w
         /\ out_cmd_repeat w' = out_cmd_repeat w + 1)
        \/ (out_cmd w <> c /\ out_fd w' = out_fd w ++ pending_bytes w
            /\ out_cmd_repeat w' = 1)).
Proof.
  intros Hw Hce Hr.
  assert (emit csz w e = write_cmd w c) as ->.
  { destruct Hce as [[-> ->]|[-> ->]]; reflexivity. }
  assert (c = CMD_SKIP \/ c = CMD_DROP) as Hc by tauto.
  destruct (Byte.byte_eq_dec (out_cmd w) c) as [E|E].
  - rewrite write_cmd_same by assumption.
    assert (1 <= out_cmd_repeat w) as Hpos.
    { destruct Hw as [[Hd _]|[_ ?]]; [|assumption].
      rewrite Hd in E. destruct Hc as [-> | ->]; discriminate. }
    specialize (Hr E).
    rewrite to_int64_small by lia.
    eexists. split; [reflexivity|]. cbn. split; [|split; [reflexivity|]].
    + right. cbn. split; [assumption|lia].
    + left. auto.
  - rewrite write_cmd_other by assumption.
    eexists. split; [reflexivity|]. cbn. split; [|split; [reflexivity|]].
    + right. cbn. split; [assumption|lia].
    + right. auto.
Qed.

(** The step of the next lemma for a skip or a drop: the event joins the
    pending run, or the pending run is flushed and a new one starts. *)
Ltac codec_run_case csz w es IH Hw Hr c e :=
  let w' := fresh "w'" in
  let Ew := fresh "Ew" in
  let Hw' := fresh "Hw'" in
  let Hc' := fresh "Hc'" in
  let Hcase := fresh "Hcase" in
  destruct (emit_run csz w c e Hw) as (w' & Ew & Hw' & Hc' & Hcase);
    [tauto | intros _; lia |];
  let Hc := fresh "Hc" in
  let Hf := fresh "Hf" in
  let Hr' := fresh "Hr'" in
  let w1 := fresh "w1" in
  let s := fresh "s" in
  let E1 := fresh "E1" in
  let Hw1 := fresh "Hw1" in
  let Hout := fresh "Hout" in
  let Hread := fresh "Hread" in
  destruct Hcase as [(Hc & Hf & Hr')|(Hc & Hf & Hr')];
  (destruct (IH w' Hw') as (w1 & s & E1 & Hw1 & Hout & Hread); [lia|]);
  [ exists w1, s; cbn [emit_all]; rewrite Ew; cbn [bind];
    split; [assumption|]; split; [assumption|];
    split; [now rewrite Hout, Hf|];
    let img := fresh "img" in
    let rest := fresh "rest" in
    let Hrep := fresh "Hrep" in
    let Hfd := fresh "Hfd" in
    let Hcs := fresh "Hcs" in
    let Hb := fresh "Hb" in
    let img' := fresh "img'" in
    let R := fresh "R" in
    let Rest := fresh "Rest" in
    intros img rest Hrep Hfd Hcs Hb;
    destruct (Hread img rest Hrep Hfd Hcs Hb) as (img' & R & Rest);
    exists img'; split; [|assumption];
    assert (pending_events w' ++ es = pending_events w ++ e :: es) as <-;
    [ unfold pending_events; rewrite Hc', Hc, Hr'; cbn;
      replace (Z.to_nat (out_cmd_repeat w + 1))
        with (S (Z.to_nat (out_cmd_repeat w))) by lia;
      apply repeat_snoc_app
    | assumption ]
  | exists w1, (pending_bytes w ++ s); cbn [emit_all]; rewrite Ew; cbn [bind];
    split; [assumption|]; split; [assumption|];
    split; [now rewrite Hout, Hf, app_assoc|];
    let img := fresh "img" in
    let rest := fresh "rest" in
    let Hrep := fresh "Hrep" in
    let Hfd := fresh "Hfd" in
    let Hcs := fresh "Hcs" in
    let Hb := fresh "Hb" in
    intros img rest Hrep Hfd Hcs Hb; rewrite <- app_assoc in Hfd;
    let img1 := fresh "img1" in
    let R1 := fresh "R1" in
    let F1 := fresh "F1" in
    let C1 := fresh "C1" in
    let S1 := fresh "S1" in
    let D1 := fresh "D1" in
    destruct (read_events_pending w img (s ++ rest))
      as (img1 & R1 & F1 & C1 & S1 & D1); try assumption; try lia;
    let img' := fresh "img'" in
    let R := fresh "R" in
    let F := fresh "F" in
    let C := fresh "C" in
    let S := fresh "S" in
    let B := fresh "B" in
    destruct (Hread img1 rest) as (img' & R & F & C & S & B);
      [ assumption | assumption
      | now rewrite (static_csize _ _ S1)
      | unfold buffer_ok; now rewrite D1 | ];
    exists img'; rewrite length_app;
    assert (pending_events w' ++ es = e :: es) as Q
      by (unfold pending_events; rewrite Hc', Hr'; reflexivity);
    rewrite Q in R; split;
    [ apply (read_events_compose _ _ _ _ _ img1); assumption
    | repeat split; try assumption; now rewrite S ] ].

Section Codec.

Variable csz : Z.
Hypothesis csz_range : 0 <= csz <= NTFS_MAX_CLUSTER_SIZE.

(** Whatever the writer has pending, the events it is given afterwards and
    its final flush are read back, cluster by cluster, as the pending
    events followed by the given ones. *)
Lemma codec es :
  Forall (payload_ok csz) es ->
  forall w, writer_inv w ->
  out_cmd_repeat w + Z.of_nat (length es) < 2 ^ 63 ->
  exists w1 s,
    emit_all csz w es = Ok w1 /\ writer_inv w1
    /\ out_fd w1 ++ pending_bytes w1 = out_fd w ++ s
    /\ forall img rest,
        cmd_repeat img <= 0 -> fd img = s ++ rest ->
        csize img = csz -> buffer_ok img ->
        exists img',
          read_events (length (pending_events w ++ es)) true img
          = Ok (pending_events w ++ es, img')
          /\ fd img' = rest /\ cmd_repeat img' <= 0
          /\ static img' = static img /\ buffer_ok img'.
Proof.
  assert (NTFS_MAX_CLUSTER_SIZE = 65536) as HM by reflexivity.
  induction 1 as [|e es He Hes IH]; intros w Hw Hr.
  - exists w, (pending_bytes w). cbn [emit_all].
    split; [reflexivity|]. split; [assumption|]. split; [reflexivity|].
    intros img rest Hrep Hfd Hcs Hb. rewrite app_nil_r.
    cbn [length] in Hr.
    destruct (read_events_pending w img rest) as (img' & R & F & C & S & D);
      try assumption; try lia.
    exists img'. repeat split; try assumption.
    unfold buffer_ok. now rewrite D.
  - cbn [length] in Hr.
    assert (0 <= out_cmd_repeat w) as Hr0.
    { destruct Hw as [[_ ->]|[_ ?]]; lia. }
    destruct e as [| |p].
    + codec_run_case csz w es IH Hw Hr CMD_SKIP Skip.
    + codec_run_case csz w es IH Hw Hr CMD_DROP Drop.
    + (* a data cluster *)
      cbn in He.
      pose (w' := fresh_output (out_fd w ++ pending_bytes w ++ CMD_DATA :: p)).
      assert (emit csz w (Data p) = Ok w') as Ew.
      { cbn. apply write_data_eq; try assumption. lia. }
      destruct (IH w' (writer_inv_fresh _)) as (w1 & s & E1 & Hw1 & Hout & Hread);
        [cbn; lia|].
      exists w1, (pending_bytes w ++ CMD_DATA :: p ++ s).
      cbn [emit_all]. rewrite Ew. cbn [bind].
      split; [assumption|]. split; [assumption|]. split.
      { rewrite Hout. unfold w'. cbn. rewrite <- !app_assoc. reflexivity. }
      intros img rest Hrep Hfd Hcs Hb. rewrite <- app_assoc in Hfd.
      destruct (read_events_pending w img ((CMD_DATA :: p ++ s) ++ rest))
        as (img1 & R1 & F1 & C1 & S1 & D1); try assumption; try lia.
      assert (csize img1 = csz) as Hcs1.
      { now rewrite (static_csize _ _ S1). }
      pose (img2 := set_fd_cdata (set_fd_cmd img1 (s ++ rest) CMD_DATA)
                      (s ++ rest) (p ++ skipn (length p) (cdata img1))).
      assert (read_next_cluster img1 true = Ok img2) as R2.
      { apply read_next_cluster_data; try assumption; try lia.
        rewrite F1. cbn. now rewrite <- app_assoc. }
      assert (buffer_ok img1) as Hb1 by (unfold buffer_ok; now rewrite D1).
      destruct (read_next_cluster_static _ _ _ R2) as [S2 B2].
      destruct (Hread img2 rest) as (img' & R & F & C & S & B);
        [exact C1 | reflexivity | exact Hcs1 | auto |].
      exists img'. rewrite length_app. split.
      { apply (read_events_compose _ _ _ _ _ img1); [assumption|].
        cbn [length read_events]. rewrite R2. cbn [bind].
        change (pending_events w' ++ es) with es in R. rewrite R. cbn.
        f_equal. f_equal. f_equal. unfold event_of. cbn.
        rewrite Hcs1. now rewrite takeZ_app_exact. }
      repeat split; try assumption. now rewrite S, S2.
Qed.

End Codec.

(** The invariant of the writer, along any sequence of events. *)
Lemma emit_inv csz w e w' :
  writer_inv w -> out_cmd_repeat w + 1 < 2 ^ 63 ->
  emit csz w e = Ok w' ->
  writer_inv w' /\ out_cmd_repeat w' <= out_cmd_repeat w + 1.
Proof.
  intros Hw Hr He.
  assert (0 <= out_cmd_repeat w) as Hr0.
  { destruct Hw as [[_ ->]|[_ ?]]; lia. }
  destruct e as [| |p].
  - destruct (emit_run csz w CMD_SKIP Skip Hw) as (w2 & E2 & Hw2 & _ & Hcase);
      [tauto|intros _; lia|].
    rewrite E2 in He. injection He as <-. split; [assumption|].
    destruct Hcase as [(_ & _ & ->)|(_ & _ & ->)]; lia.
  - destruct (emit_run csz w CMD_DROP Drop Hw) as (w2 & E2 & Hw2 & _ & Hcase);
      [tauto|intros _; lia|].
    rewrite E2 in He. injection He as <-. split; [assumption|].
    destruct Hcase as [(_ & _ & ->)|(_ & _ & ->)]; lia.
  - cbn in He. unfold write_data in He.
    rewrite write_pending_cmd_eq in He by assumption. cbn in He.
    inv_bind He. inv_bind He. injection He as <-. cbn.
    split; [left; split; reflexivity|lia].
Qed.

Lemma emit_all_inv csz es : forall w w',
  writer_inv w -> out_cmd_repeat w + Z.of_nat (length es) < 2 ^ 63 ->
  emit_all csz w es = Ok w' ->
  writer_inv w' /\ out_cmd_repeat w' <= out_cmd_repeat w + Z.of_nat (length es).
Proof.
  induction es as [|e es IH]; intros w w' Hw Hr He.
  - injection He as <-. split; [assumption|cbn; lia].
  - cbn [emit_all] in He. inv_bind He. cbn [length] in Hr.
    destruct (emit_inv csz w e x Hw) as [Hx Hrx]; [lia|assumption|].
    destruct (IH x w' Hx) as [Hw' Hr']; [lia|assumption|].
    split; [assumption|]. cbn [length]. lia.
Qed.

Lemma read_next_cluster_zero img a c rest :
  cmd_repeat img <= 0 ->
  fd img = c :: cpu_to_sle64 0 ++ rest ->
  c = CMD_SKIP \/ (a = true /\ c = CMD_DROP) ->
  read_next_cluster img a = Fatal zero_repeat.
Proof.
  intros Hrep Hfd Hc. unfold read_next_cluster.
  destruct (cmd_repeat img >? 0) eqn:E; [lia|].
  rewrite Hfd. change (c :: cpu_to_sle64 0 ++ rest)
    with ([c] ++ (cpu_to_sle64 0 ++ rest)).
  rewrite read_all_app by (reflexivity || lia). cbn.
  replace (Byte.eqb c CMD_SKIP || (a && Byte.eqb c CMD_DROP)) with true.
  2:{ symmetry. destruct Hc as [->|[-> ->]]; reflexivity. }
  rewrite read_all_app; try lia.
  2:{ unfold lenZ. now rewrite length_cpu_to_sle64. }
  cbn. rewrite sle64_to_cpu_to_sle64 by lia. reflexivity.
Qed.

(** ** The repeat count on the wire *)

Lemma tag_event_cases c :
  c = CMD_SKIP \/ c = CMD_DROP ->
  (c = CMD_SKIP /\ tag_event c = Skip) \/ (c = CMD_DROP /\ tag_event c = Drop).
Proof. intros [-> | ->]; cbn; tauto. Qed.

(** [k] more clusters of the tag of the pending run. *)
Lemma emit_all_more csz c k : forall w,
  c = CMD_SKIP \/ c = CMD_DROP ->
  writer_inv w -> out_cmd w = c ->
  out_cmd_repeat w + Z.of_nat k < 2 ^ 63 ->
  exists w',
    emit_all csz w (repeat (tag_event c) k) = Ok w'
    /\ writer_inv w' /\ out_cmd w' = c /\ out_fd w' = out_fd w
    /\ out_cmd_repeat w' = out_cmd_repeat w + Z.of_nat k.
Proof.
  induction k as [|k IH]; intros w Hc Hw Hcw Hr.
  - exists w. cbn. repeat split; try assumption. lia.
  - destruct (emit_run csz w c (tag_event c) Hw (tag_event_cases c Hc))
      as (w1 & E1 & Hw1 & Hc1 & Hcase); [intros _; lia|].
    destruct Hcase as [(_ & Hf & Hr')|(Habs & _)]; [|contradiction].
    destruct (IH w1 Hc Hw1 Hc1) as (w' & E' & Hw' & Hc' & Hf' & Hr''); [lia|].
    exists w'. cbn [repeat emit_all]. rewrite E1. cbn [bind].
    repeat split; try assumption; try congruence. lia.
Qed.

(** A run of [n >= 1] clusters of a tag other than the pending one. *)
Lemma emit_all_run csz c n w0 :
  c = CMD_SKIP \/ c = CMD_DROP ->
  1 <= Z.of_nat n < 2 ^ 63 ->
  writer_inv w0 -> out_cmd w0 <> c ->
  exists w,
    emit_all csz w0 (repeat (tag_event c) n) = Ok w
    /\ writer_inv w /\ out_cmd w = c
    /\ out_fd w = out_fd w0 ++ pending_bytes w0
    /\ out_cmd_repeat w = Z.of_nat n.
Proof.
  intros Hc Hn Hw0 Hne. destruct n as [|n]; [lia|].
  destruct (emit_run csz w0 c (tag_event c) Hw0 (tag_event_cases c Hc))
    as (w1 & E1 & Hw1 & Hc1 & Hcase); [intros Habs; contradiction|].
  destruct Hcase as [(Habs & _)|(_ & Hf & Hr')]; [contradiction|].
  destruct (emit_all_more csz c n w1 Hc Hw1 Hc1)
    as (w' & E' & Hw' & Hc' & Hf' & Hr''); [lia|].
  exists w'. cbn [repeat emit_all]. rewrite E1. cbn [bind].
  repeat split; try assumption; try congruence. lia.
Qed.

Lemma write_pending_cmd_run w c :
  c = CMD_SKIP \/ c = CMD_DROP -> writer_inv w -> out_cmd w = c ->
  write_pending_cmd w
  = Ok (fresh_output (out_fd w ++ c :: cpu_to_sle64 (out_cmd_repeat w))).
Proof.
  intros Hc Hw Hcw. rewrite write_pending_cmd_eq by assumption.
  unfold pending_bytes. rewrite Hcw. destruct Hc as [-> | ->]; reflexivity.
Qed.

(** C5, as the code has it: a pending run of [n] clusters, [n >= 1], is
    flushed as the tag byte followed by the signed 64-bit value [n] itself
    (not [n - 1]), and a run record whose stored repeat count is [n]
    stands for exactly [n] clusters (not [n + 1]): [n] reads deliver [n]
    events of the tag and leave the reader at the next record. *)
Theorem run_record_counts_its_clusters
    (csz : Z) (c : byte) (n : nat) (w0 : output_image)
    (img : input_image) (a : bool) (rest : list byte) :
  c = CMD_SKIP \/ c = CMD_DROP ->
  1 <= Z.of_nat n < 2 ^ 63 ->
  writer_inv w0 -> out_cmd w0 <> c ->
  cmd_repeat img <= 0 ->
  fd img = c :: cpu_to_sle64 (Z.of_nat n) ++ rest ->
  c = CMD_SKIP \/ a = true ->
  (exists w,
      emit_all csz w0 (repeat (tag_event c) n) = Ok w
      /\ out_cmd w = c /\ out_cmd_repeat w = Z.of_nat n
      /\ write_pending_cmd w
         = Ok (fresh_output (out_fd w ++ c :: cpu_to_sle64 (Z.of_nat n))))
  /\ sle64_to_cpu (cpu_to_sle64 (Z.of_nat n)) = Z.of_nat n
  /\ read_events n a img
     = Ok (repeat (tag_event c) n, set_cmd_repeat (set_fd_cmd img rest c) 0).
Proof.
  intros Hc Hn Hw0 Hne Hrep Hfd Ha. split; [|split].
  - destruct (emit_all_run csz c n w0 Hc Hn Hw0 Hne)
      as (w & E & Hw & Hcw & Hf & Hr).
    exists w. repeat split; try assumption.
    rewrite (write_pending_cmd_run w c) by assumption. now rewrite Hr.
  - apply sle64_to_cpu_to_sle64. lia.
  - rewrite <- (Nat2Z.id n) at 1 2.
    apply read_events_run; try assumption.
    destruct Hc as [-> | ->]; [now left|].
    destruct Ha as [Ha|Ha]; [discriminate|]. right. auto.
Qed.

(** ** The run-length inverse law *)

(** C6: a sequence of [n >= 1] events of one non-data tag, given to the
    writer and flushed, is read back as exactly that sequence; no reachable
    state of the writer flushes a run record whose stored repeat count is
    zero; the reader rejects a stored repeat count of zero.  The length of
    a sequence is below [2 ^ 63], as every count of the program is an
    [int64_t]. *)
Theorem run_length_inverse_law
    (csz : Z) (e : event) (n : nat) (out : list byte)
    (img : input_image) (rest : list byte) :
  e = Skip \/ e = Drop ->
  (1 <= n)%nat -> Z.of_nat n < 2 ^ 63 ->
  cmd_repeat img <= 0 ->
  (exists w s,
      emit_all csz (fresh_output out) (repeat e n) = Ok w
      /\ write_pending_cmd w = Ok (fresh_output (out ++ s))
      /\ (fd img = s ++ rest ->
          exists img',
            read_events n true img = Ok (repeat e n, img')
            /\ fd img' = rest /\ cmd_repeat img' = 0))
  /\ (forall es w,
        Z.of_nat (length es) < 2 ^ 63 ->
        emit_all csz (fresh_output out) es = Ok w ->
        out_cmd w <> CMD_DATA ->
        exists k,
          write_pending_cmd w
          = Ok (fresh_output (out_fd w ++ out_cmd w :: cpu_to_sle64 k))
          /\ sle64_to_cpu (cpu_to_sle64 k) = k /\ k <> 0)
  /\ (forall c a img0 rest0,
        cmd_repeat img0 <= 0 ->
        fd img0 = c :: cpu_to_sle64 0 ++ rest0 ->
        c = CMD_SKIP \/ (a = true /\ c = CMD_DROP) ->
        read_next_cluster img0 a = Fatal zero_repeat).
Proof.
  intros He Hn1 Hn Hrep. split; [|split].
  - pose (c := match e with Drop => CMD_DROP | _ => CMD_SKIP end).
    assert (c = CMD_SKIP \/ c = CMD_DROP) as Hc.
    { destruct He as [-> | ->]; cbn; tauto. }
    assert (tag_event c = e) as Ht.
    { destruct He as [-> | ->]; reflexivity. }
    destruct (emit_all_run csz c n (fresh_output out) Hc)
      as (w & E & Hw & Hcw & Hf & Hr);
      [lia | apply writer_inv_fresh
       | cbn; destruct Hc as [-> | ->]; discriminate |].
    rewrite Ht in E. cbn in Hf. rewrite app_nil_r in Hf.
    exists w, (c :: cpu_to_sle64 (Z.of_nat n)).
    split; [assumption|]. split.
    { rewrite (write_pending_cmd_run w c) by assumption.
      now rewrite Hr, Hf. }
    intros Hfd. eexists. split; [|split].
    + rewrite <- (Nat2Z.id n) at 1 2. rewrite <- Ht.
      apply read_events_run; try eassumption; try lia.
      destruct Hc as [-> | ->]; [now left|right; auto].
    + reflexivity.
    + reflexivity.
  - intros es w Hlen E Hd.
    destruct (emit_all_inv csz es (fresh_output out) w) as [Hw Hr];
      [apply writer_inv_fresh | cbn; lia | assumption |].
    cbn in Hr.
    destruct Hw as [[Habs _]|[Hc Hr1]]; [contradiction|].
    exists (out_cmd_repeat w). split; [|split].
    + destruct Hc as [Hc|Hc].
      * rewrite (write_pending_cmd_run w CMD_SKIP); auto.
        { now rewrite Hc. }
        right. split; auto.
      * rewrite (write_pending_cmd_run w CMD_DROP); auto.
        { now rewrite Hc. }
        right. split; auto.
    + apply sle64_to_cpu_to_sle64. lia.
    + lia.
  - intros c a img0 rest0. apply read_next_cluster_zero.
Qed.

(** ** The two per-cluster policies *)

Lemma read_next_cluster_base_tags img img' :
  read_next_cluster img false = Ok img' -> base_tags img -> base_tags img'.
Proof.
  unfold read_next_cluster, base_tags.
  destruct (cmd_repeat img >? 0).
  { intros H. injection H as <-. auto. }
  intros H _. inv_bind H. destruct x as [c fd1]. cbn in H.
  rewrite orb_false_r in H.
  destruct (Byte.eqb (hd Byte.x00 c) CMD_SKIP) eqn:E1.
  - inv_bind H. destruct x as [r fd2]. cbn in H.
    destruct (_ =? 0); [discriminate|]. injection H as <-. cbn.
    left. now apply byte_eqb_eq.
  - destruct (Byte.eqb (hd Byte.x00 c) CMD_DATA) eqn:E2; [|discriminate].
    inv_bind H. destruct x as [d fd2]. cbn in H. injection H as <-. cbn.
    right. now apply byte_eqb_eq.
Qed.

Lemma event_of_base_tags img :
  base_tags img ->
  (cmd img = CMD_SKIP /\ event_of img = Skip)
  \/ (cmd img = CMD_DATA
      /\ event_of img = Data (takeZ (csize img) (cdata img))).
Proof.
  unfold event_of. intros [H|H]; rewrite H; cbn; auto.
Qed.

Lemma memcmp_ne_buffers a b csz :
  buffer_ok a -> buffer_ok b -> 0 <= csz <= NTFS_MAX_CLUSTER_SIZE ->
  memcmp_ne (cdata a) (cdata b) csz
  = Ok (negb (bytes_eqb (takeZ csz (cdata a)) (takeZ csz (cdata b)))).
Proof.
  unfold buffer_ok, memcmp_ne. intros -> -> Hc.
  destruct (csz <=? 0) eqn:E.
  - replace csz with 0 by lia. reflexivity.
  - destruct (NTFS_MAX_CLUSTER_SIZE <? csz) eqn:E1; [lia|]. reflexivity.
Qed.

Lemma write_data_cluster w img :
  buffer_ok img -> 0 <= csize img <= NTFS_MAX_CLUSTER_SIZE ->
  write_data w (cdata img) (csize img)
  = emit (csize img) w (Data (takeZ (csize img) (cdata img))).
Proof.
  intros Hb Hc. cbn [emit]. apply write_data_buffer.
  - rewrite Hb. lia.
  - assert (NTFS_MAX_CLUSTER_SIZE = 65536) by reflexivity. lia.
Qed.

Lemma create_delta_step_eq old new old' new' delta :
  read_next_cluster old false = Ok old' ->
  read_next_cluster new false = Ok new' ->
  base_tags old -> base_tags new ->
  buffer_ok old -> buffer_ok new ->
  csize old = csize new -> 0 <= csize old <= NTFS_MAX_CLUSTER_SIZE ->
  create_delta_step (old, new, delta)
  = (d <- emit (csize new) delta (delta_event (event_of old') (event_of new')) ;;
     Ok (old', new', d)).
Proof.
  intros Ro Rn To Tn Bo Bn Hcs Hc.
  destruct (read_next_cluster_static _ _ _ Ro) as [So Bo'].
  destruct (read_next_cluster_static _ _ _ Rn) as [Sn Bn'].
  specialize (Bo' Bo). specialize (Bn' Bn).
  pose proof (static_csize _ _ So) as Co.
  pose proof (static_csize _ _ Sn) as Cn.
  pose proof (read_next_cluster_base_tags _ _ Ro To) as To'.
  pose proof (read_next_cluster_base_tags _ _ Rn Tn) as Tn'.
  unfold create_delta_step. rewrite Ro, Rn. cbn [bind].
  destruct (event_of_base_tags _ To') as [[Eo ->]|[Eo ->]];
    destruct (event_of_base_tags _ Tn') as [[En ->]|[En ->]];
    rewrite Eo, En; cbn [Byte.eqb CMD_SKIP CMD_DATA bind]; cbn.
  - reflexivity.
  - rewrite <- Cn. rewrite write_data_cluster; [reflexivity|assumption|].
    rewrite Cn, <- Hcs. assumption.
  - reflexivity.
  - rewrite memcmp_ne_buffers by (assumption || (rewrite Co; assumption)).
    cbn [bind]. rewrite negb_involutive.
    rewrite Cn, <- Hcs, <- Co.
    destruct (bytes_eqb _ _); [reflexivity|].
    rewrite Co, Hcs, <- Cn.
    rewrite write_data_cluster; [reflexivity|assumption|].
    rewrite Cn, <- Hcs. assumption.
Qed.

Lemma apply_patch_step_eq old delta old' delta' new :
  read_next_cluster old false = Ok old' ->
  read_next_cluster delta true = Ok delta' ->
  base_tags old ->
  buffer_ok old -> buffer_ok delta ->
  csize old = csize delta -> 0 <= csize old <= NTFS_MAX_CLUSTER_SIZE ->
  apply_patch_step (old, delta, new)
  = (n <- emit (csize old) new (patch_event (event_of old') (event_of delta')) ;;
     Ok (old', delta', n)).
Proof.
  intros Ro Rd To Bo Bd Hcs Hc.
  destruct (read_next_cluster_static _ _ _ Ro) as [So Bo'].
  destruct (read_next_cluster_static _ _ _ Rd) as [Sd Bd'].
  specialize (Bo' Bo). specialize (Bd' Bd).
  pose proof (static_csize _ _ So) as Co.
  pose proof (static_csize _ _ Sd) as Cd.
  pose proof (read_next_cluster_base_tags _ _ Ro To) as To'.
  unfold apply_patch_step. rewrite Ro, Rd. cbn [bind].
  unfold patch_event. unfold event_of at 1.
  destruct (Byte.eqb (cmd delta') CMD_SKIP) eqn:E1.
  - apply byte_eqb_eq in E1. rewrite E1. cbn [Byte.eqb CMD_SKIP CMD_DROP orb].
    destruct (event_of_base_tags _ To') as [[Eo ->]|[Eo ->]]; rewrite Eo.
    + reflexivity.
    + cbn. rewrite <- Co. rewrite write_data_cluster; [reflexivity|assumption|].
      rewrite Co. assumption.
  - destruct (Byte.eqb (cmd delta') CMD_DROP) eqn:E2.
    + reflexivity.
    + rewrite andb_false_r. cbn.
      rewrite write_data_cluster; [|assumption|].
      * rewrite Cd, <- Hcs. reflexivity.
      * rewrite Cd, <- Hcs. assumption.
Qed.




(** ** Headers *)

Tactic Notation "exact_length" ident(l) integer(n) :=
  do n (destruct l as [|? l]; [discriminate|]);
  destruct l; [|discriminate].

Lemma hdr_of_bytes_fields b off :
  length b = 46%nat ->
  let h := hdr_of_bytes b off in
  magic h ++ major_ver h :: minor_ver h :: cluster_size h ++ device_size h
    ++ nr_clusters h ++ inuse h = b
  /\ length (magic h) = 16%nat /\ length (cluster_size h) = 4%nat
  /\ length (device_size h) = 8%nat /\ length (nr_clusters h) = 8%nat
  /\ length (inuse h) = 8%nat.
Proof.
  intros H. exact_length b 46. cbv. repeat split.
Qed.

Lemma hdr_of_bytes_hdr h :
  hdr_wf h ->
  hdr_of_bytes (magic h ++ major_ver h :: minor_ver h :: cluster_size h
                  ++ device_size h ++ nr_clusters h ++ inuse h)
    (offset_to_image_data h) = h.
Proof.
  intros (Hm & Hc & Hd & Hn & Hi & Ho & _).
  destruct h as [m ma mi cs ds nr iu off]. cbn in *.
  exact_length m 16. exact_length cs 4. exact_length ds 8.
  exact_length nr 8. exact_length iu 8. reflexivity.
Qed.

Lemma open_input_image_intro h extra rest magic0 :
  hdr_wf h -> magic h = takeZ IMAGE_MAGIC_SIZE magic0 -> extra_ok h extra ->
  open_input_image (hdr_bytes h ++ extra ++ rest) magic0
  = Ok (initial_image h extra rest).
Proof.
  intros Hwf Hmagic Hextra. pose proof Hwf as Hwf'.
  destruct Hwf' as (Hm & Hc & Hd & Hn & Hi & Ho & Hmaj & Hmin).
  set (b := magic h ++ major_ver h :: minor_ver h :: cluster_size h
              ++ device_size h ++ nr_clusters h ++ inuse h).
  assert (hdr_bytes h ++ extra ++ rest
          = b ++ offset_to_image_data h ++ extra ++ rest) as ->.
  { unfold hdr_bytes, from_major_ver, from_cluster_size, b.
    rewrite <- !app_assoc. cbn. rewrite <- !app_assoc. reflexivity. }
  assert (lenZ b = 46) as Hb.
  { unfold lenZ, b. rewrite length_app. cbn [length].
    rewrite !length_app. lia. }
  unfold open_input_image.
  rewrite read_all_app; [| exact Hb | consts; lia | consts; lia].
  cbn [bind].
  assert (forall o, magic (hdr_of_bytes b o) = magic h
                    /\ major_ver (hdr_of_bytes b o) = major_ver h
                    /\ minor_ver (hdr_of_bytes b o) = minor_ver h) as Hh0.
  { intros o. pose proof (hdr_of_bytes_hdr (set_magic h (magic h))) as Hh.
    assert (forall o', hdr_of_bytes b o' =
       {| magic := magic h; major_ver := major_ver h; minor_ver := minor_ver h;
          cluster_size := cluster_size h; device_size := device_size h;
          nr_clusters := nr_clusters h; inuse := inuse h;
          offset_to_image_data := o' |}) as Hall.
    { intros o'. unfold b. clear - Hm Hc Hd Hn Hi.
      destruct h as [m ma mi cs ds nr iu off]. cbn in *.
      exact_length m 16. exact_length cs 4. exact_length ds 8.
      exact_length nr 8. exact_length iu 8. reflexivity. }
    rewrite Hall. cbn. auto. }
  destruct (Hh0 (zeroed 4)) as (-> & -> & ->).
  rewrite <- Hmagic, bytes_eqb_refl. cbn [negb].
  rewrite Hmaj, Z.eqb_refl. cbn [negb orb].
  assert (negb (byte.unsigned (minor_ver h) =? NTFSCLONE_IMG_VER_MINOR_OLD)
          && negb (byte.unsigned (minor_ver h) =? NTFSCLONE_IMG_VER_MINOR_NEW)
          = false) as ->.
  { destruct Hmin as [-> | ->]; reflexivity. }
  rewrite read_all_app; [| unfold lenZ; rewrite Ho; reflexivity | lia | lia].
  cbn [bind]. unfold b. rewrite hdr_of_bytes_hdr by assumption.
  fold (extra_len_of h). unfold extra_ok in Hextra.
  assert ((if extra_len_of h >? 0
           then read_all (extra ++ rest) (extra_len_of h)
                  (to_int (extra_len_of h))
           else Ok ([], extra ++ rest)) = Ok (extra, rest)) as ->.
  { assert (0 <= extra_len_of h < 2 ^ 32) as Hrange.
    { unfold extra_len_of, to_uint32. apply Z.mod_pos_bound. lia. }
    destruct (0 <? to_int (extra_len_of h)) eqn:E.
    - assert (to_int (extra_len_of h) = extra_len_of h) as Hti.
      { destruct (Z_lt_le_dec (extra_len_of h) (2 ^ 31)).
        - apply to_int_small. lia.
        - exfalso. unfold to_int in E.
          replace (extra_len_of h + 2 ^ 31)
            with (extra_len_of h - 2 ^ 31 + 1 * 2 ^ 32) in E by lia.
          rewrite Z.mod_add in E by lia.
          rewrite Z.mod_small in E by lia. lia. }
      rewrite Hti in *.
      destruct (extra_len_of h >? 0) eqn:E1; [|lia].
      apply read_all_app; lia.
    - subst extra. cbn [app].
      destruct (extra_len_of h >? 0); [|reflexivity].
      unfold read_all. destruct (to_int (extra_len_of h) <=? 0) eqn:E2;
        [reflexivity|lia]. }
  reflexivity.
Qed.

Lemma to_int_pos z : 0 <= z < 2 ^ 32 -> 0 < to_int z -> to_int z = z.
Proof.
  intros Hz Hp. destruct (Z_lt_le_dec z (2 ^ 31)).
  - apply to_int_small. lia.
  - exfalso. unfold to_int in Hp.
    replace (z + 2 ^ 31) with (z - 2 ^ 31 + 1 * 2 ^ 32) in Hp by lia.
    rewrite Z.mod_add in Hp by lia. rewrite Z.mod_small in Hp by lia. lia.
Qed.

Lemma extra_len_of_range h : 0 <= extra_len_of h < 2 ^ 32.
Proof. unfold extra_len_of, to_uint32. apply Z.mod_pos_bound. lia. Qed.

Lemma open_input_image_elim file magic0 img :
  open_input_image file magic0 = Ok img ->
  exists h extra rest,
    hdr_wf h /\ magic h = takeZ IMAGE_MAGIC_SIZE magic0 /\ extra_ok h extra
    /\ file = hdr_bytes h ++ extra ++ rest
    /\ img = initial_image h extra rest.
Proof.
  unfold open_input_image. intros H.
  inv_bind H. destruct x as [b fd1]. cbn [bind] in H.
  apply read_all_Ok in E. destruct E as (Hf & Hb & _).
  destruct Hb as [Hb _]; [consts; lia|].
  assert (length b = 46%nat) as Hb'.
  { unfold lenZ in Hb. consts. lia. }
  destruct (negb (bytes_eqb _ _)) eqn:Emag; [discriminate|].
  destruct (negb (_ =? _) || _) eqn:Ever; [discriminate|].
  inv_bind H. destruct x as [off fd2]. cbn [bind] in H.
  apply read_all_Ok in E. destruct E as (Hf1 & Ho & _).
  destruct Ho as [Ho _]; [lia|].
  inv_bind H. destruct x as [extra fd3]. injection H as <-.
  set (h := hdr_of_bytes b off) in *.
  destruct (hdr_of_bytes_fields b off Hb') as (Hbytes & Hm & Hc & Hd & Hn & Hi).
  fold h in Hbytes, Hm, Hc, Hd, Hn, Hi.
  assert (magic (hdr_of_bytes b (zeroed 4)) = magic h
          /\ major_ver (hdr_of_bytes b (zeroed 4)) = major_ver h
          /\ minor_ver (hdr_of_bytes b (zeroed 4)) = minor_ver h) as (Q1 & Q2 & Q3).
  { repeat split. }
  rewrite Q1 in Emag. rewrite Q2, Q3 in Ever.
  exists h, extra, fd3. split; [|split; [|split; [|split]]].
  - unfold hdr_wf. repeat split; try assumption.
    + unfold lenZ in Ho. cbn. lia.
    + apply orb_false_elim in Ever. destruct Ever as [Ev _].
      apply negb_false_iff in Ev. now apply Z.eqb_eq.
    + apply orb_false_elim in Ever. destruct Ever as [_ Ev].
      apply andb_false_elim in Ev.
      destruct Ev as [Ev|Ev]; apply negb_false_iff, Z.eqb_eq in Ev; auto.
  - apply negb_false_iff in Emag. now apply bytes_eqb_eq.
  - unfold extra_ok.
    change (to_uint32 (le32_to_cpu off - sizeof_image_hdr))
      with (extra_len_of h) in E.
    pose proof (extra_len_of_range h) as Hr.
    destruct (extra_len_of h >? 0) eqn:E1.
    + apply read_all_Ok in E. destruct E as (_ & Hp & Hn0).
      destruct (0 <? to_int (extra_len_of h)) eqn:E2.
      * destruct Hp as [Hp _]; [lia|]. rewrite Hp. apply to_int_pos; lia.
      * apply Hn0. lia.
    + injection E as <- <-.
      replace (extra_len_of h) with 0 by lia. reflexivity.
  - assert (fd2 = extra ++ fd3) as ->.
    { destruct (_ >? 0).
      - apply read_all_Ok in E. tauto.
      - now injection E as <- <-. }
    rewrite Hf, Hf1. unfold hdr_bytes, from_major_ver, from_cluster_size.
    rewrite <- Hbytes at 1. cbn [offset_to_image_data h hdr_of_bytes].
    rewrite <- !app_assoc. cbn. rewrite <- !app_assoc. reflexivity.
  - reflexivity.
Qed.

Lemma lenZ_from_major_ver h :
  hdr_wf h -> lenZ (from_major_ver h) = sizeof_image_hdr - IMAGE_MAGIC_SIZE.
Proof.
  intros (Hm & Hc & Hd & Hn & Hi & Ho & _).
  unfold lenZ, from_major_ver, from_cluster_size. cbn [length].
  rewrite !length_app. consts. lia.
Qed.

Lemma create_output_image_initial magic0 h extra rest :
  hdr_wf h -> extra_ok h extra -> IMAGE_MAGIC_SIZE <= lenZ magic0 ->
  create_output_image magic0 (initial_image h extra rest)
  = Ok (fresh_output (takeZ IMAGE_MAGIC_SIZE magic0 ++ from_major_ver h ++ extra)).
Proof.
  intros Hwf Hextra Hmagic. unfold create_output_image.
  assert (write_all [] magic0 IMAGE_MAGIC_SIZE
          = Ok (takeZ IMAGE_MAGIC_SIZE magic0)) as ->.
  { unfold write_all. consts.
    destruct (16 <=? 0) eqn:E; [lia|].
    destruct (lenZ magic0 <? 16) eqn:E1; [lia|]. reflexivity. }
  cbn [bind hdr initial_image].
  rewrite write_all_exact by now apply lenZ_from_major_ver.
  cbn [bind hdr_extra_len hdr_extra initial_image].
  unfold extra_ok in Hextra. pose proof (extra_len_of_range h) as Hr.
  destruct (extra_len_of h =? 0) eqn:E0.
  - assert (extra_len_of h = 0) as Hz by lia. rewrite Hz in Hextra.
    change (0 <? to_int 0) with false in Hextra. cbv iota in Hextra.
    subst extra. cbn. rewrite !app_nil_r. reflexivity.
  - destruct (0 <? to_int (extra_len_of h)) eqn:E1.
    + rewrite to_int_pos by lia.
      rewrite write_all_exact by assumption. cbn.
      rewrite <- app_assoc. reflexivity.
    + subst extra. unfold write_all.
      destruct (to_int (extra_len_of h) <=? 0) eqn:E2; [|lia].
      cbn. rewrite !app_nil_r. reflexivity.
Qed.

(** A data record longer than the cluster buffer. *)
Lemma read_next_cluster_overrun img a payload rest :
  cmd_repeat img <= 0 ->
  fd img = CMD_DATA :: payload ++ rest ->
  lenZ payload = csize img ->
  NTFS_MAX_CLUSTER_SIZE < csize img < 2 ^ 31 ->
  read_next_cluster img a = Undefined.
Proof.
  intros Hrep Hfd Hp Hbig. unfold read_next_cluster.
  destruct (cmd_repeat img >? 0) eqn:E; [lia|].
  rewrite Hfd.
  change (CMD_DATA :: payload ++ rest) with ([CMD_DATA] ++ (payload ++ rest)).
  rewrite read_all_app by (reflexivity || lia). cbn.
  rewrite andb_false_r. cbn.
  assert (NTFS_MAX_CLUSTER_SIZE = 65536) as HM by reflexivity.
  rewrite to_int_small by lia. unfold read_all.
  destruct (csize img <=? 0) eqn:E0; [lia|].
  rewrite takeZ_app_exact by assumption.
  destruct (NTFS_MAX_CLUSTER_SIZE <? lenZ payload) eqn:E1; [reflexivity|lia].
Qed.

(** C10: [open_input_image] never looks at the cluster size.  Whatever
    four bytes [cs] stand in the [cluster_size] field of a header that
    passes the magic and version checks, the image opens, with [csize] the
    value of [cs]; when that value exceeds [NTFS_MAX_CLUSTER_SIZE], a data
    record that comes next is read, [csize] bytes long, into the buffer
    [cdata] of [NTFS_MAX_CLUSTER_SIZE] bytes, which is outside the
    buffer. *)
Theorem open_input_image_any_cluster_size
    (h : image_hdr) (cs extra magic0 cmds : list byte) :
  hdr_wf h -> magic h = takeZ IMAGE_MAGIC_SIZE magic0 -> extra_ok h extra ->
  length cs = 4%nat ->
  exists img,
    open_input_image (hdr_bytes (set_cluster_size h cs) ++ extra ++ cmds) magic0
    = Ok img
    /\ csize img = le32_to_cpu cs
    /\ fd img = cmds
    /\ lenZ (cdata img) = NTFS_MAX_CLUSTER_SIZE
    /\ forall payload rest a,
        cmds = CMD_DATA :: payload ++ rest ->
        NTFS_MAX_CLUSTER_SIZE < le32_to_cpu cs < 2 ^ 31 ->
        lenZ payload = le32_to_cpu cs ->
        read_next_cluster img a = Undefined.
Proof.
  intros Hwf Hmagic Hextra Hcs.
  set (h' := set_cluster_size h cs).
  assert (hdr_wf h') as Hwf'.
  { destruct Hwf as (Hm & Hc & Hd & Hn & Hi & Ho & Hv).
    unfold hdr_wf, h'. cbn. tauto. }
  exists (initial_image h' extra cmds). split; [|split; [|split; [|split]]].
  - apply open_input_image_intro; assumption.
  - reflexivity.
  - reflexivity.
  - cbn. unfold lenZ, zeroed. rewrite repeat_length. consts. lia.
  - intros payload rest a Hcmds Hbig Hp.
    apply (read_next_cluster_overrun _ a payload rest);
      [cbn; lia | exact Hcmds | exact Hp | exact Hbig].
Qed.

(** ** The output only grows *)

Lemma extends_refl a : extends a a.
Proof. exists []. now rewrite app_nil_r. Qed.

Lemma extends_trans a b c : extends a b -> extends b c -> extends a c.
Proof. intros [s ->] [t ->]. exists (s ++ t). now rewrite app_assoc. Qed.

Lemma write_all_extends out buf n out' :
  write_all out buf n = Ok out' -> extends out out'.
Proof.
  unfold write_all. destruct (n <=? 0).
  - intros H. injection H as <-. apply extends_refl.
  - destruct (lenZ buf <? n); [discriminate|].
    intros H. injection H as <-. now eexists.
Qed.

Lemma write_pending_cmd_extends w w' :
  write_pending_cmd w = Ok w' -> extends (out_fd w) (out_fd w').
Proof.
  unfold write_pending_cmd. destruct (negb _).
  - intros H. inv_bind H. inv_bind H. injection H as <-. cbn.
    eapply extends_trans; eapply write_all_extends; eassumption.
  - intros H. injection H as <-. apply extends_refl.
Qed.

Lemma write_cmd_extends w c w' :
  write_cmd w c = Ok w' -> extends (out_fd w) (out_fd w').
Proof.
  unfold write_cmd. destruct (Byte.eqb _ _).
  - intros H. injection H as <-. apply extends_refl.
  - intros H. inv_bind H. injection H as <-. cbn.
    now apply write_pending_cmd_extends.
Qed.

Lemma write_data_extends w buf n w' :
  write_data w buf n = Ok w' -> extends (out_fd w) (out_fd w').
Proof.
  unfold write_data. intros H. inv_bind H. inv_bind H. inv_bind H.
  injection H as <-. cbn.
  eapply extends_trans; [eapply write_pending_cmd_extends; eassumption|].
  eapply extends_trans; eapply write_all_extends; eassumption.
Qed.

Lemma create_delta_step_extends st st' :
  create_delta_step st = Ok st' -> extends (output_of st) (output_of st').
Proof.
  destruct st as [[old new] delta]. unfold create_delta_step. intros H.
  inv_bind H. inv_bind H. inv_bind H. inv_bind H. injection H as <-.
  unfold output_of. cbn.
  destruct x1; [|case_if E2];
    eauto using write_cmd_extends, write_data_extends.
Qed.

Lemma apply_patch_step_extends st st' :
  apply_patch_step st = Ok st' -> extends (output_of st) (output_of st').
Proof.
  destruct st as [[old delta] new]. unfold apply_patch_step. intros H.
  inv_bind H. inv_bind H. inv_bind H. injection H as <-.
  unfold output_of. cbn.
  case_if E1; [|case_if E1];
    eauto using write_cmd_extends, write_data_extends.
Qed.

Lemma for_loop_extends body n :
  (forall st st', body st = Ok st' -> extends (output_of st) (output_of st')) ->
  forall st st',
    for_loop n body st = Ok st' -> extends (output_of st) (output_of st').
Proof.
  intros Hbody. induction n as [|n IH]; intros st st' H.
  - injection H as <-. apply extends_refl.
  - cbn in H. inv_bind H. eapply extends_trans; eauto.
Qed.

Lemma lone_backup_boot_sector_extends st st' :
  lone_backup_boot_sector st = Ok st' ->
  extends (output_of st) (output_of st').
Proof.
  destruct st as [[img1 img2] img3]. unfold lone_backup_boot_sector.
  destruct (_ && _).
  - intros H. inv_bind H. injection H as <-. apply extends_refl.
  - destruct (_ && _).
    + intros H. inv_bind H. inv_bind H. injection H as <-.
      unfold output_of. cbn. eauto using write_data_extends.
    + intros H. injection H as <-. apply extends_refl.
Qed.

Lemma finish_extends st out :
  finish st = Ok out -> extends (output_of st) out.
Proof.
  destruct st as [[img1 img2] img3]. unfold finish, finish_image_files.
  intros H. inv_bind H. injection H as <-.
  destruct (_ >? 0); [discriminate|]. destruct (_ >? 0); [discriminate|].
  now apply write_pending_cmd_extends.
Qed.

(** ** The cross-check of the two input headers *)

Lemma prepare_image_files_eq file1 magic1 file2 magic2 magic3 :
  prepare_image_files file1 magic1 file2 magic2 magic3
  = (img1 <- open_input_image file1 magic1 ;;
     img2 <- open_input_image file2 magic2 ;;
     _ <- header_check img1 img2 ;;
     img3 <- create_output_image magic3 img2 ;;
     Ok (img1, img2, img3)).
Proof.
  unfold prepare_image_files, header_check.
  destruct (open_input_image file1 magic1) as [img1| |]; cbn; try reflexivity.
  destruct (open_input_image file2 magic2) as [img2| |]; cbn; try reflexivity.
  destruct (memcmp_ne _ _ _) as [[|]| |]; cbn; try reflexivity.
  destruct (hdr_extra_len img1 =? 0); cbn.
  - reflexivity.
  - destruct (memcmp_ne _ _ _) as [[|]| |]; cbn; reflexivity.
Qed.

Lemma takeZ_compared_fields h :
  hdr_wf h ->
  takeZ (offsetof_inuse - IMAGE_MAGIC_SIZE - 2) (from_cluster_size h)
  = compared_fields h
  /\ offsetof_inuse - IMAGE_MAGIC_SIZE - 2 <= lenZ (from_cluster_size h).
Proof.
  intros (Hm & Hc & Hd & Hn & Hi & Ho & _).
  unfold from_cluster_size, compared_fields. split.
  - rewrite !app_assoc. rewrite <- (app_assoc _ (inuse h)).
    apply takeZ_app_exact. unfold lenZ. rewrite !length_app. consts. lia.
  - unfold lenZ. rewrite !length_app. consts. lia.
Qed.

Lemma extra_ok_takeZ h extra :
  extra_ok h extra ->
  takeZ (extra_len_of h) extra = extra
  /\ (extra_len_of h <= lenZ extra
      <-> (0 <? to_int (extra_len_of h)) = true \/ extra_len_of h = 0).
Proof.
  unfold extra_ok. pose proof (extra_len_of_range h) as Hr.
  destruct (0 <? to_int (extra_len_of h)) eqn:E.
  - intros H. split; [now apply takeZ_all|]. split; [auto|lia].
  - intros ->. split; [unfold takeZ; apply firstn_nil|].
    unfold lenZ. cbn. split.
    + intros H. right. lia.
    + intros [H|H]; [discriminate|lia].
Qed.

(** The check on two freshly opened images, when the extra blocks it
    compares have been read. *)
Lemma header_check_opened h1 e1 r1 h2 e2 r2 :
  hdr_wf h1 -> hdr_wf h2 -> extra_ok h1 e1 ->
  extra_len_of h1 <= lenZ e1 -> extra_len_of h1 <= lenZ e2 ->
  header_check (initial_image h1 e1 r1) (initial_image h2 e2 r2)
  = if bytes_eqb (compared_fields h1) (compared_fields h2)
       && bytes_eqb e1 (takeZ (extra_len_of h1) e2)
    then Ok tt else Fatal header_mismatch.
Proof.
  intros W1 W2 X1 L1 L2. unfold header_check. cbn [hdr initial_image].
  destruct (takeZ_compared_fields h1 W1) as [T1 B1].
  destruct (takeZ_compared_fields h2 W2) as [T2 B2].
  unfold memcmp_ne at 1.
  destruct (_ <=? 0) eqn:E; [consts; lia|].
  destruct (lenZ (from_cluster_size h1) <? _) eqn:E1; [lia|].
  destruct (lenZ (from_cluster_size h2) <? _) eqn:E2; [lia|].
  cbn [orb bind]. rewrite T1, T2.
  destruct (bytes_eqb (compared_fields h1) (compared_fields h2)); cbn;
    [|reflexivity].
  cbn [hdr_extra_len hdr_extra initial_image].
  pose proof (extra_len_of_range h1) as Hr.
  destruct (extra_ok_takeZ h1 e1 X1) as [T _].
  destruct (extra_len_of h1 =? 0) eqn:E0.
  - cbn. assert (extra_len_of h1 = 0) as Hz by lia.
    rewrite Hz in *. assert (e1 = []) as ->.
    { rewrite <- T. reflexivity. }
    reflexivity.
  - unfold memcmp_ne. destruct (extra_len_of h1 <=? 0) eqn:E3; [lia|].
    destruct (lenZ e1 <? _) eqn:E4; [lia|].
    destruct (lenZ e2 <? _) eqn:E5; [lia|].
    cbn. rewrite T. destruct (bytes_eqb _ _); reflexivity.
Qed.

Lemma header_check_Ok img1 img2 :
  header_check img1 img2 = Ok tt ->
  forall img2',
    from_cluster_size (hdr img2') = from_cluster_size (hdr img2) ->
    hdr_extra img2' = hdr_extra img2 ->
    header_check img1 img2' = Ok tt.
Proof.
  intros H img2' Hh He. unfold header_check in *. now rewrite Hh, He.
Qed.

Lemma app_eq_length {A} (a b c d : list A) :
  length a = length c -> a ++ b = c ++ d -> a = c /\ b = d.
Proof.
  revert c. induction a as [|x a IH]; intros [|y c] Hl H;
    try discriminate.
  - auto.
  - cbn in H. injection H as -> H. injection Hl as Hl.
    destruct (IH c Hl H) as [-> ->]. auto.
Qed.

Lemma compared_fields_eq h1 h2 :
  hdr_wf h1 -> hdr_wf h2 ->
  compared_fields h1 = compared_fields h2
  <-> cluster_size h1 = cluster_size h2 /\ device_size h1 = device_size h2
      /\ nr_clusters h1 = nr_clusters h2.
Proof.
  intros (_ & Hc1 & Hd1 & _) (_ & Hc2 & Hd2 & _). unfold compared_fields.
  split.
  - intros H. apply app_eq_length in H; [|congruence].
    destruct H as [Hc H]. apply app_eq_length in H; [|congruence].
    tauto.
  - intros (-> & -> & ->). reflexivity.
Qed.

Lemma lenZ_extra_ok h extra : extra_ok h extra -> lenZ extra <= extra_len_of h.
Proof.
  unfold extra_ok. pose proof (extra_len_of_range h).
  destruct (0 <? _); [lia|]. intros ->. cbn. lia.
Qed.


Lemma prepare_after_header_check file1 magic1 file2 magic2 magic3 img1 img2 :
  open_input_image file1 magic1 = Ok img1 ->
  open_input_image file2 magic2 = Ok img2 ->
  IMAGE_MAGIC_SIZE <= lenZ magic3 ->
  prepare_image_files file1 magic1 file2 magic2 magic3
  = (_ <- header_check img1 img2 ;;
     Ok (img1, img2,
         fresh_output (takeZ IMAGE_MAGIC_SIZE magic3
                         ++ from_major_ver (hdr img2) ++ hdr_extra img2))).
Proof.
  intros O1 O2 Hm3. rewrite prepare_image_files_eq, O1, O2. cbn [bind].
  destruct (open_input_image_elim _ _ _ O2)
    as (h2 & e2 & r2 & W2 & _ & X2 & _ & ->).
  destruct (header_check _ _) as [[]| |]; cbn [bind]; try reflexivity.
  now rewrite create_output_image_initial.
Qed.

(** The check on two freshly opened images, in every case. *)
Lemma header_check_cases h1 e1 r1 h2 e2 r2 :
  hdr_wf h1 -> hdr_wf h2 ->
  header_check (initial_image h1 e1 r1) (initial_image h2 e2 r2)
  = if negb (bytes_eqb (compared_fields h1) (compared_fields h2))
    then Fatal header_mismatch
    else if extra_len_of h1 =? 0 then Ok tt
    else if (lenZ e1 <? extra_len_of h1) || (lenZ e2 <? extra_len_of h1)
    then Undefined
    else if bytes_eqb (takeZ (extra_len_of h1) e1) (takeZ (extra_len_of h1) e2)
    then Ok tt else Fatal header_mismatch.
Proof.
  intros W1 W2. unfold header_check. cbn [hdr initial_image].
  destruct (takeZ_compared_fields h1 W1) as [T1 B1].
  destruct (takeZ_compared_fields h2 W2) as [T2 B2].
  unfold memcmp_ne at 1.
  destruct (_ <=? 0) eqn:E; [consts; lia|].
  destruct (lenZ (from_cluster_size h1) <? _) eqn:E1; [lia|].
  destruct (lenZ (from_cluster_size h2) <? _) eqn:E2; [lia|].
  cbn [orb bind]. rewrite T1, T2.
  destruct (bytes_eqb (compared_fields h1) (compared_fields h2)); cbn;
    [|reflexivity].
  cbn [hdr_extra_len hdr_extra initial_image].
  pose proof (extra_len_of_range h1) as Hr.
  destruct (extra_len_of h1 =? 0) eqn:E0; [reflexivity|].
  unfold memcmp_ne. destruct (extra_len_of h1 <=? 0) eqn:E3; [lia|].
  destruct (_ || _); [reflexivity|]. cbn.
  destruct (bytes_eqb _ _); reflexivity.
Qed.


(** What the statement above leaves out: when the three fields agree and
    the extra length of the second input is below that of the first, the
    second [memcmp] of [prepare_image_files] runs over the end of the
    block of the second input (which is no block at all when that length
    is 0). *)
Lemma header_check_short_second_block
    (file1 magic1 file2 magic2 magic3 : list byte) (img1 img2 : input_image) :
  open_input_image file1 magic1 = Ok img1 ->
  open_input_image file2 magic2 = Ok img2 ->
  IMAGE_MAGIC_SIZE <= lenZ magic3 ->
  compared_fields (hdr img1) = compared_fields (hdr img2) ->
  hdr_extra_len img2 < hdr_extra_len img1 ->
  prepare_image_files file1 magic1 file2 magic2 magic3 = Undefined.
Proof.
  intros O1 O2 Hm3 Hcf Hlt.
  rewrite (prepare_after_header_check _ _ _ _ _ _ _ O1 O2 Hm3).
  destruct (open_input_image_elim _ _ _ O1)
    as (h1 & e1 & r1 & W1 & _ & X1 & _ & ->).
  destruct (open_input_image_elim _ _ _ O2)
    as (h2 & e2 & r2 & W2 & _ & X2 & _ & ->).
  cbn [hdr hdr_extra_len initial_image] in *.
  rewrite header_check_cases by assumption.
  rewrite Hcf, bytes_eqb_refl. cbn [negb].
  pose proof (extra_len_of_range h2).
  pose proof (lenZ_extra_ok _ _ X2).
  destruct (extra_len_of h1 =? 0) eqn:E0; [lia|].
  destruct (lenZ e2 <? extra_len_of h1) eqn:E2; [|lia].
  rewrite orb_true_r. reflexivity.
Qed.

(** ** The header of the output *)

Lemma prepare_image_files_Ok file1 magic1 file2 magic2 magic3 img1 img2 img3 :
  prepare_image_files file1 magic1 file2 magic2 magic3 = Ok (img1, img2, img3) ->
  IMAGE_MAGIC_SIZE <= lenZ magic3 ->
  open_input_image file1 magic1 = Ok img1
  /\ open_input_image file2 magic2 = Ok img2
  /\ header_check img1 img2 = Ok tt
  /\ img3 = fresh_output (takeZ IMAGE_MAGIC_SIZE magic3
                            ++ from_major_ver (hdr img2) ++ hdr_extra img2).
Proof.
  rewrite prepare_image_files_eq. intros H Hm.
  inv_bind H. inv_bind H. inv_bind H. inv_bind H.
  injection H as <- <- <-. destruct x1.
  destruct (open_input_image_elim _ _ _ E0)
    as (h2 & e2 & r2 & W2 & M2 & X2 & F2 & I2).
  subst x0. rewrite create_output_image_initial in E2 by assumption.
  injection E2 as <-. auto.
Qed.

Lemma lenZ_IMAGE_MAGIC : IMAGE_MAGIC_SIZE <= lenZ IMAGE_MAGIC.
Proof. vm_compute. discriminate. Qed.

Lemma lenZ_DELTA_MAGIC : IMAGE_MAGIC_SIZE <= lenZ DELTA_MAGIC.
Proof. vm_compute. discriminate. Qed.

Lemma create_delta_extends file1 file2 out img1 img2 img3 :
  prepare_image_files file1 IMAGE_MAGIC file2 IMAGE_MAGIC DELTA_MAGIC
  = Ok (img1, img2, img3) ->
  create_delta file1 file2 = Ok out -> extends (out_fd img3) out.
Proof.
  intros P H. unfold create_delta in H. rewrite P in H. cbn [bind] in H.
  inv_bind H. inv_bind H.
  apply (for_loop_extends _ _ create_delta_step_extends) in E.
  apply lone_backup_boot_sector_extends in E0.
  apply finish_extends in H.
  eapply extends_trans; [exact E|]. eapply extends_trans; eassumption.
Qed.

Lemma apply_patch_extends file1 file2 out img1 img2 img3 :
  prepare_image_files file1 IMAGE_MAGIC file2 DELTA_MAGIC IMAGE_MAGIC
  = Ok (img1, img2, img3) ->
  apply_patch file1 file2 = Ok out -> extends (out_fd img3) out.
Proof.
  intros P H. unfold apply_patch in H. rewrite P in H. cbn [bind] in H.
  inv_bind H. inv_bind H.
  apply (for_loop_extends _ _ apply_patch_step_extends) in E.
  apply lone_backup_boot_sector_extends in E0.
  apply finish_extends in H.
  eapply extends_trans; [exact E|]. eapply extends_trans; eassumption.
Qed.

(** C4, as the code has it.  The output begins with the given magic tag,
    followed by every other header field and the extra block of a template
    copied byte for byte; the template is the second input of the
    operation: the NEW image when a delta is generated, and the DELTA file
    (not the OLD image) when a patch is applied. *)
Theorem output_header_from_second_input
    (file1 file2 out magic2 magic3 : list byte) (img2 : input_image) :
  open_input_image file2 magic2 = Ok img2 ->
  (magic2 = IMAGE_MAGIC /\ magic3 = DELTA_MAGIC
   /\ create_delta file1 file2 = Ok out)
  \/ (magic2 = DELTA_MAGIC /\ magic3 = IMAGE_MAGIC
      /\ apply_patch file1 file2 = Ok out) ->
  let copied := from_major_ver (hdr img2) ++ hdr_extra img2 in
  file2 = takeZ IMAGE_MAGIC_SIZE magic2 ++ copied ++ fd img2
  /\ exists cmds, out = takeZ IMAGE_MAGIC_SIZE magic3 ++ copied ++ cmds.
Proof.
  intros O2 Hop copied. split.
  - destruct (open_input_image_elim _ _ _ O2)
      as (h2 & e2 & r2 & W2 & M2 & X2 & F2 & I2).
    subst img2. unfold copied. cbn [hdr hdr_extra fd initial_image].
    rewrite F2. unfold hdr_bytes. rewrite M2, <- !app_assoc. reflexivity.
  - destruct Hop as [(-> & -> & H)|(-> & -> & H)].
    + pose proof H as H'. unfold create_delta in H'. inv_bind H'.
      destruct x as [[img1 img2'] img3].
      destruct (prepare_image_files_Ok _ _ _ _ _ _ _ _ E lenZ_DELTA_MAGIC)
        as (_ & O2' & _ & I3).
      assert (img2' = img2) as -> by congruence.
      destruct (create_delta_extends _ _ _ _ _ _ E H) as [s Hs].
      exists s. rewrite Hs, I3. unfold copied, fresh_output.
      cbn [out_fd]. rewrite <- !app_assoc. reflexivity.
    + pose proof H as H'. unfold apply_patch in H'. inv_bind H'.
      destruct x as [[img1 img2'] img3].
      destruct (prepare_image_files_Ok _ _ _ _ _ _ _ _ E lenZ_IMAGE_MAGIC)
        as (_ & O2' & _ & I3).
      assert (img2' = img2) as -> by congruence.
      destruct (apply_patch_extends _ _ _ _ _ _ E H) as [s Hs].
      exists s. rewrite Hs, I3. unfold copied, fresh_output.
      cbn [out_fd]. rewrite <- !app_assoc. reflexivity.
Qed.

(** ** The loops, as lists of events *)

Lemma read_next_cluster_reader_ok img img' :
  read_next_cluster img false = Ok img' -> reader_ok img -> reader_ok img'.
Proof.
  intros R [T B]. split.
  - eapply read_next_cluster_base_tags; eassumption.
  - eapply read_next_cluster_static; eassumption.
Qed.

Lemma event_of_reader_ok img :
  reader_ok img -> 0 <= csize img <= NTFS_MAX_CLUSTER_SIZE ->
  payload_ok (csize img) (event_of img) /\ no_drop (event_of img).
Proof.
  intros [T B] Hc.
  destruct (event_of_base_tags _ T) as [[_ ->]|[_ ->]]; split;
    try exact I; try discriminate.
  cbn. apply lenZ_takeZ. rewrite B. lia.
Qed.

Lemma read_events_facts n : forall img es img',
  read_events n false img = Ok (es, img') ->
  reader_ok img -> 0 <= csize img <= NTFS_MAX_CLUSTER_SIZE ->
  reader_ok img' /\ static img' = static img /\ length es = n
  /\ Forall (payload_ok (csize img)) es /\ Forall no_drop es.
Proof.
  induction n as [|n IH]; intros img es img' H Hok Hc.
  - injection H as <- <-. repeat split; auto; apply Hok.
  - cbn [read_events] in H. inv_bind H. inv_bind H. destruct x0 as [es1 img2].
    injection H as <- <-.
    pose proof (read_next_cluster_reader_ok _ _ E Hok) as Hok1.
    destruct (read_next_cluster_static _ _ _ E) as [S1 _].
    pose proof (static_csize _ _ S1) as C1.
    destruct (IH _ _ _ E0 Hok1) as (Hok' & S' & L & P & D); [now rewrite C1|].
    destruct (event_of_reader_ok x Hok1) as [Pe De]; [now rewrite C1|].
    rewrite C1 in *. repeat split; try apply Hok'.
    + now rewrite S'.
    + cbn. now rewrite L.
    + constructor; assumption.
    + constructor; assumption.
Qed.

Lemma read_events_split n m a img es img' :
  read_events (n + m) a img = Ok (es, img') ->
  exists es1 img1 es2,
    read_events n a img = Ok (es1, img1)
    /\ read_events m a img1 = Ok (es2, img') /\ es = es1 ++ es2.
Proof.
  rewrite read_events_app. intros H.
  inv_bind H. destruct x as [es1 img1]. cbn in H.
  inv_bind H. destruct x as [es2 img2]. cbn in H. injection H as <- <-.
  eauto 6.
Qed.

Lemma emit_all_app csz a b : forall w,
  emit_all csz w (a ++ b) = (w' <- emit_all csz w a ;; emit_all csz w' b).
Proof.
  induction a as [|e a IH]; intros w; cbn; [reflexivity|].
  destruct (emit csz w e); cbn; auto.
Qed.

(** A successful run of the loop of [create_delta] reads [n] clusters from
    each input and emits the event the policy gives for each pair. *)
Lemma create_delta_loop_Ok n : forall old new w old' new' w',
  reader_ok old -> reader_ok new ->
  csize old = csize new -> 0 <= csize old <= NTFS_MAX_CLUSTER_SIZE ->
  for_loop n create_delta_step (old, new, w) = Ok (old', new', w') ->
  exists eso esn,
    read_events n false old = Ok (eso, old')
    /\ read_events n false new = Ok (esn, new')
    /\ emit_all (csize new) w (zip_with delta_event eso esn) = Ok w'.
Proof.
  induction n as [|n IH]; intros old new w old' new' w' Ko Kn Hcs Hc H.
  - injection H as <- <- <-. exists [], []. auto.
  - cbn [for_loop] in H. inv_bind H.
    destruct (read_next_cluster old false) as [old1| |] eqn:Ro;
      try (unfold create_delta_step in E; rewrite Ro in E; discriminate).
    destruct (read_next_cluster new false) as [new1| |] eqn:Rn;
      try (unfold create_delta_step in E; rewrite Ro, Rn in E; discriminate).
    rewrite (create_delta_step_eq old new old1 new1 w Ro Rn) in E;
      try assumption; try apply Ko; try apply Kn.
    inv_bind E. injection E as <-.
    destruct (read_next_cluster_static _ _ _ Ro) as [So _].
    destruct (read_next_cluster_static _ _ _ Rn) as [Sn _].
    pose proof (static_csize _ _ So) as Co.
    pose proof (static_csize _ _ Sn) as Cn.
    destruct (IH old1 new1 x0 old' new' w') as (eso & esn & Eo & En & Ew);
      try assumption.
    { eapply read_next_cluster_reader_ok; eassumption. }
    { eapply read_next_cluster_reader_ok; eassumption. }
    { congruence. }
    { now rewrite Co. }
    exists (event_of old1 :: eso), (event_of new1 :: esn).
    cbn [read_events]. rewrite Ro, Rn. cbn [bind]. rewrite Eo, En. cbn [bind].
    repeat split. cbn [zip_with emit_all]. rewrite E0. cbn [bind].
    now rewrite <- Cn.
Qed.

(** The loop of [apply_patch] succeeds when its reads and writes do. *)
Lemma apply_patch_loop_intro n : forall old dl w eso esd old' dl' w',
  reader_ok old -> buffer_ok dl ->
  csize old = csize dl -> 0 <= csize old <= NTFS_MAX_CLUSTER_SIZE ->
  read_events n false old = Ok (eso, old') ->
  read_events n true dl = Ok (esd, dl') ->
  emit_all (csize old) w (zip_with patch_event eso esd) = Ok w' ->
  for_loop n apply_patch_step (old, dl, w) = Ok (old', dl', w').
Proof.
  induction n as [|n IH]; intros old dl w eso esd old' dl' w' Ko Bd Hcs Hc Ro Rd Hw.
  - injection Ro as <- <-. injection Rd as <- <-. cbn in Hw.
    injection Hw as <-. reflexivity.
  - cbn [read_events] in Ro, Rd.
    inv_bind Ro. inv_bind Ro. destruct x0 as [eso1 old2]. injection Ro as <- <-.
    inv_bind Rd. inv_bind Rd. destruct x1 as [esd1 dl2]. injection Rd as <- <-.
    cbn [zip_with emit_all] in Hw. inv_bind Hw.
    cbn [for_loop].
    rewrite (apply_patch_step_eq old dl x x0 w E E1); try assumption;
      try apply Ko.
    rewrite E3. cbn [bind].
    destruct (read_next_cluster_static _ _ _ E) as [So _].
    destruct (read_next_cluster_static _ _ _ E1) as [Sd Bd'].
    pose proof (static_csize _ _ So) as Co.
    pose proof (static_csize _ _ Sd) as Cd.
    apply (IH x x0 x1 eso1 esd1); try assumption.
    + eapply read_next_cluster_reader_ok; eassumption.
    + auto.
    + congruence.
    + now rewrite Co.
    + now rewrite Co.
Qed.

Lemma patch_delta_event eo en :
  no_drop eo -> no_drop en -> patch_event eo (delta_event eo en) = en.
Proof.
  intros Ho Hn. destruct eo as [| |a], en as [| |b]; try reflexivity;
    try (exfalso; apply Ho; reflexivity);
    try (exfalso; apply Hn; reflexivity).
  cbn. destruct (bytes_eqb a b) eqn:E; [|reflexivity].
  apply bytes_eqb_eq in E. now subst.
Qed.

Lemma patch_delta_events eso : forall esn,
  Forall no_drop eso -> Forall no_drop esn -> length eso = length esn ->
  zip_with patch_event eso (zip_with delta_event eso esn) = esn.
Proof.
  induction eso as [|eo eso IH]; intros [|en esn] Ho Hn Hl;
    try discriminate; [reflexivity|].
  inversion Ho; subst. inversion Hn; subst. cbn.
  rewrite patch_delta_event by assumption. f_equal.
  apply IH; auto.
Qed.

Lemma zip_with_delta_facts csz eso : forall esn,
  Forall (payload_ok csz) esn -> length eso = length esn ->
  Forall (payload_ok csz) (zip_with delta_event eso esn)
  /\ length (zip_with delta_event eso esn) = length esn.
Proof.
  induction eso as [|eo eso IH]; intros [|en esn] Hp Hl; try discriminate.
  - split; [constructor|reflexivity].
  - inversion Hp; subst. destruct (IH esn) as [P L]; auto.
    split; [|cbn; now rewrite L].
    cbn. constructor; [|assumption].
    destruct eo as [| |a], en as [| |b]; cbn; auto.
    destruct (bytes_eqb a b); cbn; auto.
Qed.

(** A read that delivers no drop does not depend on [allow_drop_cmd]. *)
Lemma read_next_cluster_allow img a b img' :
  read_next_cluster img a = Ok img' -> event_of img' <> Drop ->
  read_next_cluster img b = Ok img'.
Proof.
  unfold read_next_cluster.
  destruct (cmd_repeat img >? 0); [auto|].
  destruct (read_all (fd img) 1 1) as [[c fd1]| |]; cbn; try discriminate.
  destruct (Byte.eqb (hd Byte.x00 c) CMD_SKIP) eqn:E1; cbn; [auto|].
  destruct (Byte.eqb (hd Byte.x00 c) CMD_DROP) eqn:E2; cbn.
  - apply byte_eqb_eq in E2. rewrite E2. destruct a; cbn.
    + destruct (read_all fd1 8 8) as [[r fd2]| |]; cbn; try discriminate.
      destruct (_ =? 0); [discriminate|].
      intros H. injection H as <-. unfold event_of. cbn. congruence.
    + discriminate.
  - rewrite !andb_false_r. auto.
Qed.

(** ** Round trip *)

Lemma lenZ_zeroed n : 0 <= n -> lenZ (zeroed n) = n.
Proof. intros H. unfold lenZ, zeroed. rewrite repeat_length. lia. Qed.

Lemma initial_image_reader_ok h e r : reader_ok (initial_image h e r).
Proof.
  split; [left; reflexivity|]. unfold buffer_ok. cbn.
  apply lenZ_zeroed. consts. lia.
Qed.

Lemma initial_image_bbs h e r :
  bbs_present (initial_image h e r) = 0 \/ bbs_present (initial_image h e r) = 1.
Proof. cbn. destruct (_ =? _); auto. Qed.

Lemma initial_image_csize h e r : 0 <= csize (initial_image h e r).
Proof. cbn. unfold le32_to_cpu. apply le_combine_bound. Qed.

Lemma initial_image_ccount h e r :
  - 2 ^ 63 <= ccount (initial_image h e r) < 2 ^ 63.
Proof. cbn. unfold sle64_to_cpu. apply to_int64_range. Qed.

Lemma header_check_fields h1 e1 r1 h2 e2 r2 :
  hdr_wf h1 -> hdr_wf h2 ->
  header_check (initial_image h1 e1 r1) (initial_image h2 e2 r2) = Ok tt ->
  cluster_size h1 = cluster_size h2 /\ nr_clusters h1 = nr_clusters h2.
Proof.
  intros W1 W2 H. unfold header_check in H. cbn [hdr initial_image] in H.
  inv_bind H. destruct x; [discriminate|]. clear H.
  unfold memcmp_ne in E.
  destruct (_ <=? 0) eqn:E0; [consts; lia|].
  destruct (_ || _); [discriminate|].
  injection E as E. apply negb_false_iff, bytes_eqb_eq in E.
  destruct (takeZ_compared_fields h1 W1) as [T1 _].
  destruct (takeZ_compared_fields h2 W2) as [T2 _].
  rewrite T1, T2 in E. apply compared_fields_eq in E; tauto.
Qed.

(** As [codec], with one data cluster written last. *)
Lemma codec_data_tail csz es p w :
  0 <= csz <= NTFS_MAX_CLUSTER_SIZE ->
  Forall (payload_ok csz) es -> lenZ p = csz ->
  writer_inv w -> out_cmd_repeat w + Z.of_nat (length es) < 2 ^ 63 ->
  exists w1 s,
    emit_all csz w es = Ok w1
    /\ write_data w1 p csz = Ok (fresh_output (out_fd w ++ s))
    /\ forall img rest a,
        cmd_repeat img <= 0 -> fd img = s ++ rest ->
        csize img = csz -> buffer_ok img ->
        exists img1 img',
          read_events (length (pending_events w ++ es)) true img
          = Ok (pending_events w ++ es, img1)
          /\ read_next_cluster img1 a = Ok img'
          /\ event_of img' = Data p /\ cmd img' = CMD_DATA
          /\ fd img' = rest /\ cmd_repeat img' <= 0
          /\ static img' = static img /\ buffer_ok img'.
Proof.
  intros Hc Hes Hp Hw Hr.
  assert (NTFS_MAX_CLUSTER_SIZE = 65536) as HM by reflexivity.
  destruct (codec csz Hc es Hes w Hw Hr) as (w1 & s1 & E1 & Hw1 & Hout & Hread).
  exists w1, (s1 ++ CMD_DATA :: p). split; [assumption|]. split.
  { rewrite write_data_eq by (assumption || lia).
    rewrite !app_assoc. rewrite Hout. reflexivity. }
  intros img rest a Hrep Hfd Hcs Hb. rewrite <- app_assoc in Hfd.
  destruct (Hread img ((CMD_DATA :: p) ++ rest) Hrep Hfd Hcs Hb)
    as (img1 & R1 & F1 & C1 & S1 & B1).
  pose proof (static_csize _ _ S1) as Cs1.
  pose (img2 := set_fd_cdata (set_fd_cmd img1 rest CMD_DATA) rest
                  (p ++ skipn (length p) (cdata img1))).
  assert (read_next_cluster img1 a = Ok img2) as R2.
  { apply read_next_cluster_data; try assumption; try lia. }
  destruct (read_next_cluster_static _ _ _ R2) as [S2 B2].
  exists img1, img2. repeat split; try assumption; auto.
  unfold event_of. cbn. rewrite Cs1, Hcs. now rewrite takeZ_app_exact.
Qed.

Lemma create_delta_opened file1 file2 old0 new0 :
  open_input_image file1 IMAGE_MAGIC = Ok old0 ->
  open_input_image file2 IMAGE_MAGIC = Ok new0 ->
  create_delta file1 file2
  = (_ <- header_check old0 new0 ;;
     w0 <- create_output_image DELTA_MAGIC new0 ;;
     st <- for_loop
             (Z.to_nat (if (bbs_present old0 =? 1) && (bbs_present new0 =? 1)
                        then to_int64 (ccount old0 + 1) else ccount old0))
             create_delta_step (old0, new0, w0) ;;
     st <- lone_backup_boot_sector st ;;
     finish st).
Proof.
  intros O1 O2. unfold create_delta.
  rewrite prepare_image_files_eq, O1, O2. cbn [bind].
  destruct (header_check old0 new0) as [[]| |]; cbn [bind]; try reflexivity.
  destruct (create_output_image DELTA_MAGIC new0); reflexivity.
Qed.

Lemma apply_patch_opened file1 file2 old0 dl0 :
  open_input_image file1 IMAGE_MAGIC = Ok old0 ->
  open_input_image file2 DELTA_MAGIC = Ok dl0 ->
  apply_patch file1 file2
  = (_ <- header_check old0 dl0 ;;
     w0 <- create_output_image IMAGE_MAGIC dl0 ;;
     st <- for_loop (Z.to_nat (ccount old0)) apply_patch_step (old0, dl0, w0) ;;
     st <- lone_backup_boot_sector st ;;
     finish st).
Proof.
  intros O1 O2. unfold apply_patch.
  rewrite prepare_image_files_eq, O1, O2. cbn [bind].
  destruct (header_check old0 dl0) as [[]| |]; cbn [bind]; try reflexivity.
  destruct (create_output_image IMAGE_MAGIC dl0); reflexivity.
Qed.

Lemma finish_Ok img1 img2 w out :
  finish (img1, img2, w) = Ok out <->
  cmd_repeat img1 <= 0 /\ cmd_repeat img2 <= 0
  /\ exists w', write_pending_cmd w = Ok w' /\ out = out_fd w'.
Proof.
  unfold finish, finish_image_files. split.
  - intros H. inv_bind H. injection H as <-.
    destruct (cmd_repeat img1 >? 0) eqn:E1; [discriminate|].
    destruct (cmd_repeat img2 >? 0) eqn:E2; [discriminate|].
    repeat split; try lia. eauto.
  - intros (H1 & H2 & w' & Hw & ->).
    destruct (cmd_repeat img1 >? 0) eqn:E1; [lia|].
    destruct (cmd_repeat img2 >? 0) eqn:E2; [lia|].
    now rewrite Hw.
Qed.

(** The delta file of an operation that went well opens as a delta whose
    header fields, but the magic, and extra block are those of NEW. *)
Lemma open_delta_file h2 e2 s :
  hdr_wf h2 -> extra_ok h2 e2 ->
  let hD := set_magic h2 (takeZ IMAGE_MAGIC_SIZE DELTA_MAGIC) in
  open_input_image
    ((takeZ IMAGE_MAGIC_SIZE DELTA_MAGIC ++ from_major_ver h2 ++ e2) ++ s)
    DELTA_MAGIC
  = Ok (initial_image hD e2 s)
  /\ hdr_wf hD /\ extra_ok hD e2.
Proof.
  intros W2 X2 hD.
  assert (hdr_wf hD) as WD.
  { destruct W2 as (Hm & Hrest). split; [reflexivity|exact Hrest]. }
  assert (extra_ok hD e2) as XD by exact X2.
  split; [|auto].
  rewrite <- (open_input_image_intro hD e2 s DELTA_MAGIC WD eq_refl XD).
  unfold hdr_bytes. cbn [magic hD set_magic].
  rewrite <- !app_assoc. reflexivity.
Qed.

Lemma lone_backup_boot_sector_cases img1 img2 w st :
  lone_backup_boot_sector (img1, img2, w) = Ok st ->
  (bbs_present img1 = 0 \/ bbs_present img1 = 1) ->
  (bbs_present img2 = 0 \/ bbs_present img2 = 1) ->
  (bbs_present img1 = bbs_present img2 /\ st = (img1, img2, w))
  \/ (bbs_present img1 = 1 /\ bbs_present img2 = 0
      /\ exists img1', read_next_cluster img1 false = Ok img1'
                       /\ st = (img1', img2, w))
  \/ (bbs_present img1 = 0 /\ bbs_present img2 = 1
      /\ exists img2' w',
           read_next_cluster img2 false = Ok img2'
           /\ write_data w (cdata img2') (csize img2') = Ok w'
           /\ st = (img1, img2', w')).
Proof.
  unfold lone_backup_boot_sector.
  intros H [B1|B1] [B2|B2]; rewrite B1, B2 in H; cbn in H.
  - injection H as <-. left. split; congruence.
  - inv_bind H. inv_bind H. injection H as <-. right. right. eauto 8.
  - inv_bind H. injection H as <-. right. left. eauto 8.
  - injection H as <-. left. split; congruence.
Qed.

Section RoundTrip.

Variables (old_file : list byte) (h1 h2 : image_hdr) (e1 r1 e2 : list byte).

Let old0 := initial_image h1 e1 r1.
Let csz := csize old0.
Let n := Z.to_nat (ccount old0).
Let hD := set_magic h2 (takeZ IMAGE_MAGIC_SIZE DELTA_MAGIC).
Let hdrD := takeZ IMAGE_MAGIC_SIZE DELTA_MAGIC ++ from_major_ver h2 ++ e2.
Let hdrN := takeZ IMAGE_MAGIC_SIZE IMAGE_MAGIC ++ from_major_ver h2 ++ e2.

Hypothesis O1 : open_input_image old_file IMAGE_MAGIC = Ok old0.
Hypothesis W1 : hdr_wf h1.
Hypothesis W2 : hdr_wf h2.
Hypothesis X2 : extra_ok h2 e2.
Hypothesis csz_new : le32_to_cpu (cluster_size h2) = csz.
Hypothesis csz_max : csz <= NTFS_MAX_CLUSTER_SIZE.
Hypothesis check : forall r2, header_check old0 (initial_image h2 e2 r2) = Ok tt.

Variables (eso esn : list event) (old1 : input_image).

Hypothesis Eo : read_events n false old0 = Ok (eso, old1).
Hypothesis Ln : length esn = n.
Hypothesis Pn : Forall (payload_ok csz) esn.
Hypothesis Dn : Forall no_drop esn.

Let des := zip_with delta_event eso esn.

(** Applying a delta whose command stream is [s]: the part of
    [apply_patch] up to the end of its loop.  The stream is read back as
    the events of the delta, and the writer receives the events of NEW. *)
Lemma apply_patch_loop_round_trip s dl1 wn1 :
  read_events n true (initial_image hD e2 s) = Ok (des, dl1) ->
  emit_all csz (fresh_output hdrN) esn = Ok wn1 ->
  apply_patch old_file (hdrD ++ s)
  = (st <- lone_backup_boot_sector (old1, dl1, wn1) ;; finish st).
Proof.
  intros Rd Ew.
  destruct (open_delta_file h2 e2 s W2 X2) as (OD & WD & XD).
  fold hD hdrD in OD.
  rewrite (apply_patch_opened _ _ _ _ O1 OD).
  rewrite (header_check_Ok _ _ (check s)) by reflexivity. cbn [bind].
  rewrite create_output_image_initial by (auto using lenZ_IMAGE_MAGIC).
  cbn [bind]. fold n.
  change (from_major_ver hD) with (from_major_ver h2). fold hdrN.
  pose proof (initial_image_reader_ok h1 e1 r1) as Ko. fold old0 in Ko.
  pose proof (initial_image_reader_ok hD e2 s) as [_ Bd].
  pose proof (initial_image_csize h1 e1 r1) as C0. fold old0 csz in C0.
  destruct (read_events_facts _ _ _ _ Eo Ko) as (Ko1 & So1 & Lo & Po & Do);
    [fold csz; lia|].
  rewrite (apply_patch_loop_intro n old0 (initial_image hD e2 s)
             (fresh_output hdrN) eso des old1 dl1 wn1); try assumption.
  - reflexivity.
  - cbn. fold csz. now rewrite csz_new.
  - fold csz. lia.
  - fold csz. unfold des. rewrite patch_delta_events; try assumption.
    congruence.
Qed.

End RoundTrip.

Lemma pending_events_fresh out : pending_events (fresh_output out) = [].
Proof. reflexivity. Qed.

Lemma write_image_initial magic0 h e r es :
  hdr_wf h -> extra_ok h e -> IMAGE_MAGIC_SIZE <= lenZ magic0 ->
  write_image magic0 (initial_image h e r) es
  = (w <- emit_all (le32_to_cpu (cluster_size h))
            (fresh_output (takeZ IMAGE_MAGIC_SIZE magic0 ++ from_major_ver h ++ e))
            es ;;
     w <- write_pending_cmd w ;;
     Ok (out_fd w)).
Proof.
  intros W X M. unfold write_image.
  now rewrite create_output_image_initial.
Qed.

Lemma last_snoc (l : list event) e d : last (l ++ [e]) d = e.
Proof. apply last_last. Qed.

(** The round trip, on events: when [create_delta] succeeds on OLD and
    NEW, not both with a backup boot sector, [apply_patch] succeeds on OLD
    and the delta, and writes the image [write_image] builds from the
    header of NEW and the events [es] that NEW decodes to. *)
Lemma round_trip_events old_file new_file delta_file old0 new0 es new1 :
  open_input_image old_file IMAGE_MAGIC = Ok old0 ->
  open_input_image new_file IMAGE_MAGIC = Ok new0 ->
  create_delta old_file new_file = Ok delta_file ->
  ~ (bbs_present old0 = 1 /\ bbs_present new0 = 1) ->
  csize new0 <= NTFS_MAX_CLUSTER_SIZE ->
  read_events (clusters_of new0) false new0 = Ok (es, new1) ->
  (bbs_present old0 = 0 -> bbs_present new0 = 1 ->
   exists p, last es Skip = Data p) ->
  exists out,
    apply_patch old_file delta_file = Ok out
    /\ write_image IMAGE_MAGIC new0 es = Ok out.
Proof.
  intros O1 O2 G NB Hcs RE Tail.
  assert (NTFS_MAX_CLUSTER_SIZE = 65536) as HM by reflexivity.
  destruct (open_input_image_elim _ _ _ O1)
    as (h1 & e1 & r1 & W1 & M1 & X1 & F1 & I1).
  destruct (open_input_image_elim _ _ _ O2)
    as (h2 & e2 & r2 & W2 & M2 & X2 & F2 & I2).
  rewrite (create_delta_opened _ _ _ _ O1 O2) in G.
  destruct (header_check old0 new0) as [[]| |] eqn:HC; try discriminate.
  cbn [bind] in G. subst old0 new0.
  set (old0 := initial_image h1 e1 r1) in *.
  set (new0 := initial_image h2 e2 r2) in *.
  unfold new0 in G at 1.
  rewrite create_output_image_initial in G by (auto using lenZ_DELTA_MAGIC).
  cbn [bind] in G. fold new0 in G.
  set (hdrD := takeZ IMAGE_MAGIC_SIZE DELTA_MAGIC ++ from_major_ver h2 ++ e2) in *.
  set (hdrN := takeZ IMAGE_MAGIC_SIZE IMAGE_MAGIC ++ from_major_ver h2 ++ e2).
  destruct (header_check_fields _ _ _ _ _ _ W1 W2 HC) as [Qcs Qnr].
  assert (csize old0 = csize new0) as Ecs by (cbn; now rewrite Qcs).
  assert (ccount old0 = ccount new0) as Ecc by (cbn; now rewrite Qnr).
  pose proof (initial_image_bbs h1 e1 r1) as Bo. fold old0 in Bo.
  pose proof (initial_image_bbs h2 e2 r2) as Bn. fold new0 in Bn.
  pose proof (initial_image_reader_ok h1 e1 r1) as Ko. fold old0 in Ko.
  pose proof (initial_image_reader_ok h2 e2 r2) as Kn. fold new0 in Kn.
  pose proof (initial_image_csize h1 e1 r1) as C0. fold old0 in C0.
  pose proof (initial_image_ccount h1 e1 r1) as CC. fold old0 in CC.
  assert ((bbs_present old0 =? 1) && (bbs_present new0 =? 1) = false) as Eb.
  { destruct Bo as [-> | Bo]; [reflexivity|].
    destruct Bn as [-> | Bn]; [now rewrite andb_false_r|]. tauto. }
  rewrite Eb in G. clear Eb.
  set (n := Z.to_nat (ccount old0)) in *.
  set (csz := csize old0) in *.
  assert (0 <= csz <= NTFS_MAX_CLUSTER_SIZE) as Hc by lia.
  assert (Z.of_nat n < 2 ^ 63) as Hn by (unfold n; lia).
  inv_bind G. destruct x as [[old1 new1'] wd1]. inv_bind G. rename E0 into L.
  destruct (create_delta_loop_Ok n _ _ _ _ _ _ Ko Kn Ecs Hc E)
    as (eso & esn & Eo & En & Ew).
  destruct (read_events_facts _ _ _ _ Eo Ko Hc) as (Ko1 & So1 & Lo & Po & Do).
  destruct (read_events_facts _ _ _ _ En Kn) as (Kn1 & Sn1 & Ln & Pn & Dn);
    [lia|].
  rewrite <- Ecs in Pn, Ew. fold csz in Pn, Ew, Po.
  destruct (zip_with_delta_facts csz eso esn Pn) as [Pd Ld]; [congruence|].
  assert (forall r, header_check old0 (initial_image h2 e2 r) = Ok tt) as HCr.
  { intros r. apply (header_check_Ok _ _ HC); reflexivity. }
  assert (le32_to_cpu (cluster_size h2) = csz) as Qcsz by (symmetry; exact Ecs).
  pose (hD := set_magic h2 (takeZ IMAGE_MAGIC_SIZE DELTA_MAGIC)).
  pose proof (initial_image_reader_ok hD e2) as KD.
  assert (forall s dl, static dl = static (initial_image hD e2 s) ->
                       bbs_present dl = bbs_present new0 /\ csize dl = csz)
    as Hdl.
  { intros s dl H. split.
    - rewrite (static_bbs _ _ H). reflexivity.
    - rewrite (static_csize _ _ H). exact Qcsz. }
  assert (bbs_present old1 = bbs_present old0) as Bo1 by now apply static_bbs.
  assert (bbs_present new1' = bbs_present new0) as Bn1 by now apply static_bbs.
  destruct (lone_backup_boot_sector_cases _ _ _ _ L)
    as [(Bq & ->)|[(B1 & B2 & old2 & R & ->)|(B1 & B2 & new2 & wd2 & R & Wd & ->)]];
    [rewrite Bo1; exact Bo | rewrite Bn1; exact Bn | | | ];
    apply finish_Ok in G; destruct G as (Cr1 & Cr2 & wd' & Wp & ->).
  - (* neither image has a backup boot sector *)
    assert (bbs_present new0 = 0) as Bn0.
    { rewrite Bo1, Bn1 in Bq. destruct Bn as [|Bn]; [assumption|].
      exfalso. apply NB. split; congruence. }
    assert (bbs_present old0 = 0) as Bo0 by congruence.
    unfold clusters_of in RE. rewrite Bn0, <- Ecc in RE. fold n in RE.
    change (Z.to_nat 0) with 0%nat in RE. rewrite Nat.add_0_r in RE.
    assert (es = esn) as -> by congruence.
    destruct (codec csz Hc _ Pd (fresh_output hdrD) (writer_inv_fresh _))
      as (w1 & s & E1 & Hw1 & Hout & Hread); [cbn; lia|].
    assert (w1 = wd1) as -> by congruence.
    rewrite write_pending_cmd_eq in Wp by assumption. injection Wp as <-.
    cbn [out_fd fresh_output] in *. rewrite Hout.
    destruct (Hread (initial_image hD e2 s) [])
      as (dl1 & Rd & _ & Cd & Sd & _);
      [cbn; lia | cbn; now rewrite app_nil_r | exact Qcsz | apply KD |].
    rewrite pending_events_fresh in Rd. cbn [app] in Rd.
    rewrite Ld, Ln in Rd.
    destruct (codec csz Hc _ Pn (fresh_output hdrN) (writer_inv_fresh _))
      as (wn1 & sN & EN & HwN & HoutN & _); [cbn; lia|].
    exists (hdrN ++ sN). split.
    + rewrite (apply_patch_loop_round_trip old_file h1 h2 e1 r1 e2 O1 W2 X2
                 Qcsz (proj2 Hc) HCr eso esn old1 Eo Ln Dn s dl1 wn1 Rd EN
               : apply_patch old_file (hdrD ++ s) = _).
      destruct (Hdl _ _ Sd) as [Bd1 _].
      unfold lone_backup_boot_sector. rewrite Bo1, Bo0, Bd1, Bn0.
      cbn [Z.eqb andb bind].
      apply finish_Ok. split; [assumption|]. split; [assumption|].
      eexists. split; [now apply write_pending_cmd_eq|].
      cbn. now rewrite HoutN.
    + unfold new0. rewrite write_image_initial by (auto using lenZ_IMAGE_MAGIC).
      rewrite Qcsz. fold hdrN. rewrite EN. cbn [bind].
      rewrite write_pending_cmd_eq by assumption. cbn. now rewrite HoutN.
  - (* only OLD has a backup boot sector *)
    rewrite Bo1 in B1. rewrite Bn1 in B2.
    unfold clusters_of in RE. rewrite B2, <- Ecc in RE. fold n in RE.
    change (Z.to_nat 0) with 0%nat in RE. rewrite Nat.add_0_r in RE.
    assert (es = esn) as -> by congruence.
    destruct (codec csz Hc _ Pd (fresh_output hdrD) (writer_inv_fresh _))
      as (w1 & s & E1 & Hw1 & Hout & Hread); [cbn; lia|].
    assert (w1 = wd1) as -> by congruence.
    rewrite write_pending_cmd_eq in Wp by assumption. injection Wp as <-.
    cbn [out_fd fresh_output] in *. rewrite Hout.
    destruct (Hread (initial_image hD e2 s) [])
      as (dl1 & Rd & _ & Cd & Sd & _);
      [cbn; lia | cbn; now rewrite app_nil_r | exact Qcsz | apply KD |].
    rewrite pending_events_fresh in Rd. cbn [app] in Rd.
    rewrite Ld, Ln in Rd.
    destruct (codec csz Hc _ Pn (fresh_output hdrN) (writer_inv_fresh _))
      as (wn1 & sN & EN & HwN & HoutN & _); [cbn; lia|].
    exists (hdrN ++ sN). split.
    + rewrite (apply_patch_loop_round_trip old_file h1 h2 e1 r1 e2 O1 W2 X2
                 Qcsz (proj2 Hc) HCr eso esn old1 Eo Ln Dn s dl1 wn1 Rd EN
               : apply_patch old_file (hdrD ++ s) = _).
      destruct (Hdl _ _ Sd) as [Bd1 _].
      unfold lone_backup_boot_sector. rewrite Bo1, B1, Bd1, B2.
      cbn [Z.eqb andb bind]. rewrite R. cbn [bind].
      apply finish_Ok. split; [assumption|]. split; [assumption|].
      eexists. split; [now apply write_pending_cmd_eq|].
      cbn. now rewrite HoutN.
    + unfold new0. rewrite write_image_initial by (auto using lenZ_IMAGE_MAGIC).
      rewrite Qcsz. fold hdrN. rewrite EN. cbn [bind].
      rewrite write_pending_cmd_eq by assumption. cbn. now rewrite HoutN.
  - (* only NEW has a backup boot sector *)
    rewrite Bo1 in B1. rewrite Bn1 in B2.
    unfold clusters_of in RE. rewrite B2, <- Ecc in RE. fold n in RE.
    change (Z.to_nat 1) with 1%nat in RE.
    apply read_events_split in RE.
    destruct RE as (es1 & img1 & es2 & RE1 & RE2 & ->).
    assert (es1 = esn /\ img1 = new1') as [-> ->].
    { rewrite En in RE1. injection RE1 as <- <-. auto. }
    cbn [read_events] in RE2. rewrite R in RE2. cbn in RE2.
    injection RE2 as <- <-.
    destruct (Tail B1 B2) as [p Hp]. rewrite last_snoc in Hp.
    pose proof (read_next_cluster_reader_ok _ _ R Kn1) as [Tn2 Bn2].
    destruct (read_next_cluster_static _ _ _ R) as [Sn2 _].
    assert (csize new2 = csz) as Cn2.
    { rewrite (static_csize _ _ Sn2), (static_csize _ _ Sn1). now symmetry. }
    assert (p = takeZ csz (cdata new2) /\ lenZ p = csz) as [Qp Lp].
    { destruct (event_of_base_tags _ Tn2) as [[_ Q]|[_ Q]];
        rewrite Q in Hp; [discriminate|].
      injection Hp as <-. rewrite Cn2. split; [reflexivity|].
      apply lenZ_takeZ. rewrite Bn2. lia. }
    rewrite Cn2 in Wd.
    rewrite write_data_buffer in Wd by (rewrite ?Bn2; lia).
    rewrite <- Qp in Wd.
    destruct (codec_data_tail csz (zip_with delta_event eso esn) p
                (fresh_output hdrD) Hc Pd Lp
                (writer_inv_fresh _))
      as (w1 & s & E1 & Wd1 & Hread); [cbn; lia|].
    assert (w1 = wd1) as -> by congruence.
    assert (wd2 = fresh_output (hdrD ++ s)) as ->.
    { change (out_fd (fresh_output hdrD)) with hdrD in Wd1. congruence. }
    change (write_pending_cmd (fresh_output (hdrD ++ s)))
      with (Ok (fresh_output (hdrD ++ s))) in Wp.
    assert (wd' = fresh_output (hdrD ++ s)) as -> by congruence.
    change (out_fd (fresh_output (hdrD ++ s))) with (hdrD ++ s).
    destruct (Hread (initial_image hD e2 s) [] false)
      as (dl1 & dl2 & Rd & Rt & Et & Ct & _ & Cd & Sd & Bd);
      [cbn; lia | cbn; now rewrite app_nil_r | exact Qcsz | apply KD |].
    rewrite pending_events_fresh in Rd. cbn [app] in Rd.
    rewrite Ld, Ln in Rd.
    destruct (codec_data_tail csz esn p (fresh_output hdrN) Hc Pn Lp
                (writer_inv_fresh _))
      as (wn1 & sN & EN & WdN & _); [cbn; lia|].
    cbn [out_fd fresh_output] in WdN.
    exists (hdrN ++ sN). split.
    + rewrite (apply_patch_loop_round_trip old_file h1 h2 e1 r1 e2 O1 W2 X2
                 Qcsz (proj2 Hc) HCr eso esn old1 Eo Ln Dn s dl1 wn1 Rd EN
               : apply_patch old_file (hdrD ++ s) = _).
      destruct (Hdl _ _ Sd) as [Bd2 Cd2].
      assert (bbs_present dl1 = 1) as Bd1.
      { destruct (read_next_cluster_static _ _ _ Rt) as [St _].
        rewrite <- (static_bbs _ _ St), Bd2. exact B2. }
      unfold lone_backup_boot_sector. rewrite Bo1, B1, Bd1.
      cbn [Z.eqb andb bind]. rewrite Rt. cbn [bind].
      rewrite Cd2. rewrite write_data_buffer by (rewrite ?Bd; lia).
      assert (takeZ csz (cdata dl2) = p) as ->.
      { unfold event_of in Et. rewrite Ct in Et. cbn in Et.
        rewrite Cd2 in Et. now injection Et. }
      rewrite WdN. cbn [bind].
      apply finish_Ok. split; [assumption|]. split; [assumption|].
      exists (fresh_output (hdrN ++ sN)). split; reflexivity.
    + unfold new0. rewrite write_image_initial by (auto using lenZ_IMAGE_MAGIC).
      rewrite Qcsz. fold hdrN. rewrite emit_all_app, EN, Hp.
      cbn [bind emit_all emit]. rewrite WdN. reflexivity.
Qed.

(** C1, as the code has it.  For OLD and NEW whose headers pass the
    cross-check, not both with a backup boot sector, and with a cluster
    size that fits the cluster buffer: when [create_delta] succeeds,
    [apply_patch] on OLD and the delta succeeds as well, and its output is
    the header and extra block of NEW followed by the writer's encoding of
    the cluster events [es] NEW decodes to (a backup boot sector that only
    NEW has being a data cluster).  This is NEW byte for byte exactly when
    NEW is its own re-encoding, [write_image IMAGE_MAGIC new0 es]. *)
Theorem delta_round_trip
    (old_file new_file delta_file : list byte) (old0 new0 new1 : input_image)
    (es : list event) :
  open_input_image old_file IMAGE_MAGIC = Ok old0 ->
  open_input_image new_file IMAGE_MAGIC = Ok new0 ->
  create_delta old_file new_file = Ok delta_file ->
  ~ (bbs_present old0 = 1 /\ bbs_present new0 = 1) ->
  csize new0 <= NTFS_MAX_CLUSTER_SIZE ->
  read_events (clusters_of new0) false new0 = Ok (es, new1) ->
  (bbs_present old0 = 0 -> bbs_present new0 = 1 ->
   exists p, last es Skip = Data p) ->
  apply_patch old_file delta_file = write_image IMAGE_MAGIC new0 es
  /\ (exists out, apply_patch old_file delta_file = Ok out)
  /\ (write_image IMAGE_MAGIC new0 es = Ok new_file ->
      apply_patch old_file delta_file = Ok new_file).
Proof.
  intros O1 O2 G NB Hcs RE Tail.
  destruct (round_trip_events _ _ _ _ _ _ _ O1 O2 G NB Hcs RE Tail)
    as (out & A & W).
  split; [congruence|]. split; [eauto|]. congruence.
Qed.

(** ** Images the writer wrote *)

Lemma read_events_allow n a b : forall img es img',
  read_events n a img = Ok (es, img') -> Forall no_drop es ->
  read_events n b img = Ok (es, img').
Proof.
  induction n as [|n IH]; intros img es img' H D; [exact H|].
  cbn [read_events] in *. inv_bind H. inv_bind H. destruct x0 as [es1 img2].
  injection H as <- <-. inversion D; subst.
  rewrite (read_next_cluster_allow _ _ b _ E) by assumption. cbn [bind].
  rewrite (IH _ _ _ E0) by assumption. reflexivity.
Qed.

(** An image written by [write_image] opens, decodes to the events it was
    written from, and so is its own re-encoding. *)
Lemma written_image_is_canonical h e r es :
  hdr_wf h -> magic h = takeZ IMAGE_MAGIC_SIZE IMAGE_MAGIC -> extra_ok h e ->
  le32_to_cpu (cluster_size h) <= NTFS_MAX_CLUSTER_SIZE ->
  Forall (payload_ok (le32_to_cpu (cluster_size h))) es ->
  Forall no_drop es -> Z.of_nat (length es) < 2 ^ 63 ->
  exists file img',
    write_image IMAGE_MAGIC (initial_image h e r) es = Ok file
    /\ open_input_image file IMAGE_MAGIC = Ok (initial_image h e (dropZ (lenZ (hdr_bytes h ++ e)) file))
    /\ read_events (length es) false
         (initial_image h e (dropZ (lenZ (hdr_bytes h ++ e)) file))
       = Ok (es, img')
    /\ cmd_repeat img' <= 0 /\ fd img' = [].
Proof.
  intros W M X Hcs P D L.
  set (csz := le32_to_cpu (cluster_size h)) in *.
  assert (0 <= csz <= NTFS_MAX_CLUSTER_SIZE) as Hc.
  { split; [apply le_combine_bound|assumption]. }
  set (hdrN := takeZ IMAGE_MAGIC_SIZE IMAGE_MAGIC ++ from_major_ver h ++ e).
  destruct (codec csz Hc es P (fresh_output hdrN) (writer_inv_fresh _))
    as (w & s & E & Hw & Hout & Hread); [cbn; lia|].
  assert (hdrN = hdr_bytes h ++ e) as Hh.
  { unfold hdrN, hdr_bytes. now rewrite M, <- app_assoc. }
  assert (dropZ (lenZ (hdr_bytes h ++ e)) (hdrN ++ s) = s) as Hd.
  { rewrite Hh. now apply dropZ_app_exact. }
  destruct (Hread (initial_image h e s) [])
    as (img' & R & F & C & _);
    [cbn; lia | cbn; now rewrite app_nil_r | reflexivity
     | apply initial_image_reader_ok |].
  rewrite pending_events_fresh in R. cbn [app] in R.
  exists (hdrN ++ s), img'. rewrite Hd. split; [|split; [|split; [|split]]].
  - rewrite write_image_initial by (auto using lenZ_IMAGE_MAGIC).
    fold csz hdrN. rewrite E. cbn [bind].
    rewrite write_pending_cmd_eq by assumption. cbn [bind out_fd fresh_output].
    now rewrite Hout.
  - rewrite Hh, <- app_assoc. now apply open_input_image_intro.
  - now apply (read_events_allow _ true false).
  - assumption.
  - assumption.
Qed.

(** ** The end of an operation *)

Lemma write_pending_cmd_total w : exists w', write_pending_cmd w = Ok w'.
Proof.
  unfold write_pending_cmd. destruct (negb _); [|eauto].
  rewrite (write_all_exact _ [out_cmd w] 1) by reflexivity. cbn [bind].
  rewrite write_all_exact; [cbn; eauto|].
  unfold lenZ. now rewrite length_cpu_to_sle64.
Qed.


(** The loop of [create_delta] succeeds when its reads and writes do. *)
Lemma create_delta_loop_intro n : forall old new w eso esn old' new' w',
  reader_ok old -> reader_ok new ->
  csize old = csize new -> 0 <= csize old <= NTFS_MAX_CLUSTER_SIZE ->
  read_events n false old = Ok (eso, old') ->
  read_events n false new = Ok (esn, new') ->
  emit_all (csize new) w (zip_with delta_event eso esn) = Ok w' ->
  for_loop n create_delta_step (old, new, w) = Ok (old', new', w').
Proof.
  induction n as [|n IH]; intros old new w eso esn old' new' w' Ko Kn Hcs Hc Ro Rn Hw.
  - injection Ro as <- <-. injection Rn as <- <-. cbn in Hw.
    injection Hw as <-. reflexivity.
  - cbn [read_events] in Ro, Rn.
    inv_bind Ro. inv_bind Ro. destruct x0 as [eso1 old2]. injection Ro as <- <-.
    inv_bind Rn. inv_bind Rn. destruct x1 as [esn1 new2]. injection Rn as <- <-.
    cbn [zip_with emit_all] in Hw. inv_bind Hw.
    cbn [for_loop].
    rewrite (create_delta_step_eq old new x x0 w E E1); try assumption;
      try apply Ko; try apply Kn.
    rewrite E3. cbn [bind].
    destruct (read_next_cluster_static _ _ _ E) as [So _].
    destruct (read_next_cluster_static _ _ _ E1) as [Sn _].
    pose proof (static_csize _ _ So) as Co.
    pose proof (static_csize _ _ Sn) as Cn.
    apply (IH x x0 x1 eso1 esn1); try assumption.
    + eapply read_next_cluster_reader_ok; eassumption.
    + eapply read_next_cluster_reader_ok; eassumption.
    + congruence.
    + now rewrite Co.
    + now rewrite Cn.
Qed.



(** ** The properties on the example images *)

Lemma blank_hdr_wf : hdr_wf blank_hdr.
Proof. unfold hdr_wf. vm_compute. repeat split; auto. Qed.

(** Results are named through [force], so that no proof has to display a
    cluster buffer. *)
Lemma force_is_ok {A} (d : A) (o : outcome A) :
  is_ok o = true -> o = Ok (force d o).
Proof. destruct o; try discriminate. reflexivity. Qed.

Lemma force_is_ok_pair {A B} (d : A * B) (o : outcome (A * B)) :
  is_ok o = true -> o = Ok (fst (force d o), snd (force d o)).
Proof. destruct o as [[a b]| |]; try discriminate. reflexivity. Qed.

Lemma force_is_ok_triple {A B C} (d : A * B * C) (o : outcome (A * B * C)) :
  is_ok o = true ->
  o = Ok (fst (fst (force d o)), snd (fst (force d o)), snd (force d o)).
Proof. destruct o as [[[a b] c]| |]; try discriminate. reflexivity. Qed.

Lemma opened_is_ok file magic0 :
  is_ok (open_input_image file magic0) = true ->
  open_input_image file magic0 = Ok (opened file magic0).
Proof. apply force_is_ok. Qed.

(** The claim C1 as it is worded fails, on images with identical headers.
    NEW with its two skipped clusters in two run records: the round trip
    returns them as one run record.  NEW alone with a backup boot sector,
    which is a skipped cluster: the round trip returns a data cluster in
    its place. *)
Lemma round_trip_not_byte_for_byte :
  (exists delta_file out,
      create_delta one_run two_runs = Ok delta_file
      /\ apply_patch one_run delta_file = Ok out
      /\ out <> two_runs)
  /\ (exists delta_file out,
        create_delta plain_old lone_new_skipped = Ok delta_file
        /\ apply_patch plain_old delta_file = Ok out
        /\ out <> lone_new_skipped).
Proof.
  split.
  - exists (force [] (create_delta one_run two_runs)), one_run.
    split; [vm_compute; reflexivity|].
    split; [vm_compute; reflexivity|]. vm_compute. discriminate.
  - exists (force [] (create_delta plain_old lone_new_skipped)), lone_new_stale.
    split; [vm_compute; reflexivity|].
    split; [vm_compute; reflexivity|]. vm_compute. discriminate.
Qed.

(** The round trip on [ex_old] and [ex_new], neither with a backup boot
    sector: the hypotheses of the round-trip theorem hold there, and
    [ex_new] is its own re-encoding. *)
Lemma delta_round_trip_witness : apply_patch ex_old ex_delta = Ok ex_new.
Proof.
  pose (new0 := opened ex_new IMAGE_MAGIC).
  pose (r := force ([], new0) (read_events (clusters_of new0) false new0)).
  destruct (delta_round_trip ex_old ex_new ex_delta
              (opened ex_old IMAGE_MAGIC) new0 (snd r) (fst r))
    as (_ & _ & H).
  - apply opened_is_ok. vm_compute. reflexivity.
  - apply opened_is_ok. vm_compute. reflexivity.
  - vm_compute. reflexivity.
  - intros [H _]. vm_compute in H. discriminate.
  - vm_compute. discriminate.
  - apply force_is_ok_pair. vm_compute. reflexivity.
  - intros _ H. vm_compute in H. discriminate.
  - apply H. vm_compute. reflexivity.
Defined.

(** The round trip with a backup boot sector in OLD only and in NEW only;
    and, in NEW only and skipped, where the delta and the output carry the
    bytes left in the cluster buffer in its place. *)
Example round_trip_lone_old :
  (d <- create_delta lone_old plain_new ;; apply_patch lone_old d)
  = Ok plain_new.
Proof. vm_compute. reflexivity. Qed.

Example round_trip_lone_new :
  (d <- create_delta plain_old lone_new ;; apply_patch plain_old d)
  = Ok lone_new.
Proof. vm_compute. reflexivity. Qed.

Example round_trip_lone_new_skipped :
  (d <- create_delta plain_old lone_new_skipped ;; apply_patch plain_old d)
  = Ok lone_new_stale.
Proof. vm_compute. reflexivity. Qed.

(** C2 fails on the code: OLD and DELTA both have the backup boot sector.
    The source computes [ccount = old.ccount + 1 = 2], but its loop tests
    [old.ccount = 1]: one cluster is written and the backup boot sector of
    NEW is not. *)
Theorem apply_patch_loop_misses_backup_boot_sector :
  create_delta bbs_old bbs_new = Ok bbs_delta
  /\ bbs_present (opened bbs_old IMAGE_MAGIC) = 1
  /\ bbs_present (opened bbs_delta DELTA_MAGIC) = 1
  /\ apply_patch_ccount (opened bbs_old IMAGE_MAGIC)
       (opened bbs_delta DELTA_MAGIC) = 2
  /\ apply_patch_loop_bound (opened bbs_old IMAGE_MAGIC)
       (opened bbs_delta DELTA_MAGIC) = 1
  /\ apply_patch bbs_old bbs_delta = Ok one_cluster_bbs
  /\ bbs_new = one_cluster_bbs ++ data_record ex_c.
Proof. vm_compute. repeat split; reflexivity. Qed.



(** [ex_old] has one byte of extra block and [ex_new_bare] has none: the
    second [memcmp] is given a block of no byte. *)
Lemma short_second_block_example :
  create_delta ex_old ex_new_bare = Undefined.
Proof.
  unfold create_delta.
  rewrite (header_check_short_second_block
             ex_old IMAGE_MAGIC ex_new_bare IMAGE_MAGIC DELTA_MAGIC
             (opened ex_old IMAGE_MAGIC) (opened ex_new_bare IMAGE_MAGIC)).
  - reflexivity.
  - apply opened_is_ok. vm_compute. reflexivity.
  - apply opened_is_ok. vm_compute. reflexivity.
  - vm_compute. discriminate.
  - vm_compute. reflexivity.
  - vm_compute. reflexivity.
Qed.

(** The image [apply_patch] writes from [ex_old] and [ex_delta] begins with
    the image magic and the header fields and extra block of [ex_delta]. *)
Lemma output_header_witness :
  exists cmds,
    ex_new
    = takeZ IMAGE_MAGIC_SIZE IMAGE_MAGIC
        ++ (from_major_ver (hdr (opened ex_delta DELTA_MAGIC))
              ++ hdr_extra (opened ex_delta DELTA_MAGIC)) ++ cmds.
Proof.
  destruct (output_header_from_second_input ex_old ex_delta ex_new
              DELTA_MAGIC IMAGE_MAGIC (opened ex_delta DELTA_MAGIC))
    as [_ H].
  - apply opened_is_ok. vm_compute. reflexivity.
  - right. split; [reflexivity|]. split; [reflexivity|].
    vm_compute. reflexivity.
  - exact H.
Defined.

(** The claim C4 as it is worded fails: the header fields written by
    [apply_patch] are not those of the OLD image (here the in-use counts
    differ), they are those of the DELTA file. *)
Lemma apply_patch_header_is_not_old :
  exists out,
    apply_patch ex_old ex_delta = Ok out
    /\ sub 16 34 out <> from_major_ver (hdr (opened ex_old IMAGE_MAGIC))
    /\ sub 16 34 out = from_major_ver (hdr (opened ex_delta DELTA_MAGIC)).
Proof.
  exists ex_new. split; [vm_compute; reflexivity|].
  split; [vm_compute; discriminate | vm_compute; reflexivity].
Qed.

Lemma events_read_is_ok {A} (d : list event * A)
    (o : outcome (list event * A)) es :
  is_ok o = true -> fst (force d o) = es -> o = Ok (es, snd (force d o)).
Proof. intros H <-. now apply force_is_ok_pair. Qed.

(** A run record with the stored count 3 is read as three skipped
    clusters. *)
Lemma run_record_witness :
  read_events 3 false run_of_three
  = Ok (repeat (tag_event CMD_SKIP) 3,
        set_cmd_repeat (set_fd_cmd run_of_three (data_record ex_a) CMD_SKIP) 0).
Proof.
  destruct (run_record_counts_its_clusters 2 CMD_SKIP 3 (fresh_output [])
              run_of_three false (data_record ex_a)) as (_ & _ & H).
  - left. reflexivity.
  - cbn. lia.
  - apply writer_inv_fresh.
  - discriminate.
  - cbn. lia.
  - reflexivity.
  - left. reflexivity.
  - exact H.
Defined.

(** The claim C5 as it is worded fails: a pending run of one cluster is
    flushed with the stored count 1, not 0, and a run record with the
    stored count 1 stands for one cluster, not two: the second read
    delivers the data record that follows. *)
Lemma stored_count_is_the_run_length :
  (exists w,
      write_cmd (fresh_output []) CMD_SKIP = Ok w
      /\ out_cmd_repeat w = 1
      /\ write_pending_cmd w = Ok (fresh_output (CMD_SKIP :: cpu_to_sle64 1)))
  /\ sle64_to_cpu (cpu_to_sle64 1) <> 1 - 1
  /\ exists img',
       read_events 2 false run_of_one = Ok ([Skip; Data ex_a], img').
Proof.
  split; [|split].
  - eexists. split; [reflexivity|]. split; reflexivity.
  - vm_compute. discriminate.
  - eexists. apply (events_read_is_ok ([], run_of_one)).
    + vm_compute. reflexivity.
    + vm_compute. reflexivity.
Qed.

(** Three skip events are flushed as one run record with the stored
    count 3. *)
Lemma run_length_inverse_witness :
  exists w s,
    emit_all 2 (fresh_output []) (repeat Skip 3) = Ok w
    /\ write_pending_cmd w = Ok (fresh_output ([] ++ s))
    /\ s = run_record CMD_SKIP 3.
Proof.
  destruct (run_length_inverse_law 2 Skip 3 [] run_of_three (data_record ex_a))
    as ((w & s & A & B & _) & _ & _).
  - left. reflexivity.
  - lia.
  - cbn. lia.
  - cbn. lia.
  - exists w, s. split; [exact A|]. split; [exact B|].
    vm_compute in A. injection A as <-. vm_compute in B. now injection B as <-.
Defined.





(** An image whose header gives a cluster size of 65537 opens, and its
    data record is read past the cluster buffer. *)
Lemma big_cluster_size_witness :
  exists img,
    open_input_image
      (hdr_bytes (set_cluster_size blank_hdr big_cluster_size) ++ []
         ++ data_record big_payload) IMAGE_MAGIC = Ok img
    /\ csize img = NTFS_MAX_CLUSTER_SIZE + 1
    /\ read_next_cluster img false = Undefined.
Proof.
  destruct (open_input_image_any_cluster_size blank_hdr big_cluster_size []
              IMAGE_MAGIC (data_record big_payload))
    as (img & O & C & _ & _ & U).
  - exact blank_hdr_wf.
  - reflexivity.
  - vm_compute. reflexivity.
  - reflexivity.
  - exists img. split; [exact O|]. split.
    + rewrite C. vm_compute. reflexivity.
    + apply (U big_payload []).
      * unfold data_record. now rewrite app_nil_r.
      * vm_compute. split; reflexivity.
      * vm_compute. reflexivity.
Defined.

(** * The command line, rejected inputs and whole operations *)

(** ** The command line *)

Lemma main_operands prog mode f1 rest :
  main (prog :: mode :: f1 :: rest)
  = let f2 := nth 0 rest "-"%string in
    let f3 := nth 1 rest "-"%string in
    if (String.eqb f1 "-" && String.eqb f2 "-")%bool then stdin_twice
    else if String.eqb mode "delta" then call_create_delta f1 f2 f3
    else if String.eqb mode "patch" then call_apply_patch f1 f2 f3
    else usage.
Proof.
  unfold main.
  assert ((Z.of_nat (length (prog :: mode :: f1 :: rest)) <? 3) = false) as ->.
  { apply Z.ltb_ge. cbn [length]. lia. }
  destruct rest as [|f2 [|f3 rest]]; try reflexivity.
  assert (forall k,
            (Z.of_nat (length (prog :: mode :: f1 :: f2 :: f3 :: rest)) >? k)
            = (5 + Z.of_nat (length rest) >? k)) as E.
  { intros k. f_equal. cbn [length]. lia. }
  rewrite !E.
  assert ((5 + Z.of_nat (length rest) >? 3) = true) as -> by (apply Z.gtb_lt; lia).
  assert ((5 + Z.of_nat (length rest) >? 4) = true) as -> by (apply Z.gtb_lt; lia).
  reflexivity.
Qed.

Lemma main_too_few argv : (length argv < 3)%nat -> main argv = usage.
Proof.
  intros H. unfold main.
  destruct (Z.of_nat (length argv) <? 3) eqn:E; [reflexivity|].
  apply Z.ltb_ge in E. lia.
Qed.

Lemma both_stdin_false f1 f2 :
  (String.eqb f1 "-" && String.eqb f2 "-")%string = false
  <-> ~ (f1 = "-"%string /\ f2 = "-"%string).
Proof.
  rewrite andb_false_iff, <- !not_true_iff_false, !String.eqb_eq.
  destruct (String.eqb_spec f1 "-"); tauto.
Qed.

(** [main] calls an operation exactly when its first argument is the word
    of that operation and a first file name follows it; the second and the
    third file name are the next two arguments, or "-" (standard input,
    standard output) where they are missing, further arguments are not
    looked at, and the two input names are not both "-". *)
Theorem main_calls_the_operation (argv : list string) (f1 f2 f3 : string) :
  let operands mode :=
    exists prog rest,
      argv = prog :: mode :: f1 :: rest
      /\ f2 = nth 0 rest "-"%string /\ f3 = nth 1 rest "-"%string
      /\ ~ (f1 = "-"%string /\ f2 = "-"%string) in
  (main argv = call_create_delta f1 f2 f3 <-> operands "delta"%string)
  /\ (main argv = call_apply_patch f1 f2 f3 <-> operands "patch"%string).
Proof.
  intros operands. unfold operands. split; split.
  - intros H. destruct argv as [|prog [|m [|a rest]]];
      try (rewrite main_too_few in H by (cbn; lia); discriminate).
    rewrite main_operands in H. cbv zeta in H.
    destruct (_ && _)%bool eqn:E1; [discriminate|].
    destruct (String.eqb m "delta") eqn:E2.
    + injection H as -> <- <-. apply String.eqb_eq in E2. subst m.
      exists prog, rest. repeat split. now apply both_stdin_false.
    + destruct (String.eqb m "patch"); discriminate.
  - intros (prog & rest & -> & -> & -> & Hn). rewrite main_operands. cbv zeta.
    apply both_stdin_false in Hn. now rewrite Hn.
  - intros H. destruct argv as [|prog [|m [|a rest]]];
      try (rewrite main_too_few in H by (cbn; lia); discriminate).
    rewrite main_operands in H. cbv zeta in H.
    destruct (_ && _)%bool eqn:E1; [discriminate|].
    destruct (String.eqb m "delta") eqn:E2; [discriminate|].
    destruct (String.eqb m "patch") eqn:E3; [|discriminate].
    injection H as -> <- <-. apply String.eqb_eq in E3. subst m.
    exists prog, rest. repeat split. now apply both_stdin_false.
  - intros (prog & rest & -> & -> & -> & Hn). rewrite main_operands. cbv zeta.
    apply both_stdin_false in Hn. now rewrite Hn.
Qed.

(** [main] exits on the two input names both being "-" before it looks at
    the word of the operation: with three arguments or more, standard
    input named twice is reported whatever the first argument is.  It
    exits with the usage text when fewer than two arguments follow the
    program name, or when the word is neither "delta" nor "patch". *)
Theorem main_exits (argv : list string) :
  (main argv = stdin_twice <->
   exists prog mode rest,
     argv = prog :: mode :: "-"%string :: rest
     /\ nth 0 rest "-"%string = "-"%string)
  /\ (main argv = usage <->
      (length argv < 3)%nat
      \/ exists prog mode f1 rest,
           argv = prog :: mode :: f1 :: rest
           /\ ~ (f1 = "-"%string /\ nth 0 rest "-"%string = "-"%string)
           /\ mode <> "delta"%string /\ mode <> "patch"%string).
Proof.
  split; split.
  - intros H. destruct argv as [|prog [|m [|a rest]]];
      try (rewrite main_too_few in H by (cbn; lia); discriminate).
    rewrite main_operands in H. cbv zeta in H.
    destruct (_ && _)%bool eqn:E1.
    + apply andb_true_iff in E1. rewrite !String.eqb_eq in E1.
      destruct E1 as [-> E1]. eauto.
    + destruct (String.eqb m "delta"); [discriminate|].
      destruct (String.eqb m "patch"); discriminate.
  - intros (prog & mode & rest & -> & Hn). rewrite main_operands. cbv zeta.
    rewrite Hn. reflexivity.
  - intros H. destruct argv as [|prog [|m [|a rest]]];
      try (left; cbn; lia).
    right. rewrite main_operands in H. cbv zeta in H.
    destruct (_ && _)%bool eqn:E1; [discriminate|].
    destruct (String.eqb m "delta") eqn:E2; [discriminate|].
    destruct (String.eqb m "patch") eqn:E3; [discriminate|].
    apply String.eqb_neq in E2, E3. apply both_stdin_false in E1.
    exists prog, m, a, rest. auto.
  - intros [H|(prog & mode & f1 & rest & -> & Hn & Hd & Hp)].
    + now apply main_too_few.
    + rewrite main_operands. cbv zeta.
      apply both_stdin_false in Hn. rewrite Hn.
      apply String.eqb_neq in Hd, Hp. now rewrite Hd, Hp.
Qed.

(** ** Files that are not opened *)

Lemma lenZ_takeZ_short n l : lenZ l <= n -> takeZ n l = l.
Proof. intros H. unfold takeZ, lenZ in *. apply firstn_all2. lia. Qed.

Lemma read_all_short f room n :
  0 < n -> lenZ f < n -> lenZ f <= room -> read_all f room n = Fatal read_eof.
Proof.
  intros Hn Hf Hr. unfold read_all.
  destruct (n <=? 0) eqn:E; [lia|].
  rewrite lenZ_takeZ_short by lia.
  destruct (room <? lenZ f) eqn:E1; [lia|].
  destruct (lenZ f <? n) eqn:E2; [reflexivity|lia].
Qed.

Lemma read_all_enough f room n :
  0 < n <= room -> n <= lenZ f -> read_all f room n = Ok (takeZ n f, dropZ n f).
Proof.
  intros Hn Hf. unfold read_all.
  destruct (n <=? 0) eqn:E; [lia|].
  rewrite lenZ_takeZ by lia.
  destruct (room <? n) eqn:E1; [lia|].
  destruct (n <? n) eqn:E2; [lia|reflexivity].
Qed.

Lemma takeZ_takeZ n m l : 0 <= n <= m -> takeZ n (takeZ m l) = takeZ n l.
Proof.
  intros H. unfold takeZ. rewrite firstn_firstn. f_equal. lia.
Qed.

Lemma lenZ_dropZ n l : 0 <= n <= lenZ l -> lenZ (dropZ n l) = lenZ l - n.
Proof. intros H. unfold lenZ, dropZ in *. rewrite length_skipn. lia. Qed.

Lemma nth_takeZ (i : nat) n (l : list byte) d :
  Z.of_nat i < n -> nth i (takeZ n l) d = nth i l d.
Proof.
  intros H. unfold takeZ. rewrite nth_firstn.
  destruct (i <? Z.to_nat n)%nat eqn:E; [reflexivity|].
  apply Nat.ltb_ge in E. lia.
Qed.

(** The header that [open_input_image] checks, on a file that holds the
    46 bytes of the first read. *)
Lemma open_input_image_first_read file :
  offsetof_offset_to_image_data <= lenZ file ->
  let h0 := hdr_of_bytes (takeZ offsetof_offset_to_image_data file) (zeroed 4) in
  read_all file sizeof_image_hdr offsetof_offset_to_image_data
  = Ok (takeZ offsetof_offset_to_image_data file,
        dropZ offsetof_offset_to_image_data file)
  /\ magic h0 = takeZ IMAGE_MAGIC_SIZE file
  /\ major_ver h0 = nth 16 file Byte.x00
  /\ minor_ver h0 = nth 17 file Byte.x00.
Proof.
  intros H h0. split; [|split; [|split]].
  - apply read_all_enough; consts; lia.
  - cbn [h0 hdr_of_bytes magic]. unfold sub.
    change (dropZ 0 ?l) with l. apply takeZ_takeZ. consts. lia.
  - cbn [h0 hdr_of_bytes major_ver]. apply nth_takeZ. consts. lia.
  - cbn [h0 hdr_of_bytes minor_ver]. apply nth_takeZ. consts. lia.
Qed.

Lemma open_input_image_bad_magic file magic0 :
  offsetof_offset_to_image_data <= lenZ file ->
  takeZ IMAGE_MAGIC_SIZE file <> takeZ IMAGE_MAGIC_SIZE magic0 ->
  open_input_image file magic0 = Fatal bad_magic.
Proof.
  intros H M.
  destruct (open_input_image_first_read file H) as (R & Hm & _).
  unfold open_input_image. rewrite R. cbn [bind]. cbv zeta. rewrite Hm.
  destruct (bytes_eqb _ _) eqn:E; [|reflexivity].
  apply bytes_eqb_eq in E. contradiction.
Qed.

Lemma version_test major minor :
  negb (byte.unsigned major =? NTFSCLONE_IMG_VER_MAJOR)
  || (negb (byte.unsigned minor =? NTFSCLONE_IMG_VER_MINOR_OLD)
      && negb (byte.unsigned minor =? NTFSCLONE_IMG_VER_MINOR_NEW)) = false
  <-> supported_version major minor.
Proof.
  unfold supported_version.
  destruct (Z.eqb_spec (byte.unsigned major) NTFSCLONE_IMG_VER_MAJOR);
    destruct (Z.eqb_spec (byte.unsigned minor) NTFSCLONE_IMG_VER_MINOR_OLD);
    destruct (Z.eqb_spec (byte.unsigned minor) NTFSCLONE_IMG_VER_MINOR_NEW);
    cbn; intuition congruence.
Qed.

(** The checks of [open_input_image] in their order.  A file shorter than
    the 46 bytes of the first read ends it with "unexpected end of file",
    whatever its bytes are; then a wrong magic is reported, before the
    version is looked at; then an unsupported version; and only then are
    the data offset and the extra block read, a file too short for either
    ending it with "unexpected end of file" again. *)
Theorem open_input_image_rejects (file magic0 : list byte) :
  let major := nth 16 file Byte.x00 in
  let minor := nth 17 file Byte.x00 in
  let magic_ok := takeZ IMAGE_MAGIC_SIZE file = takeZ IMAGE_MAGIC_SIZE magic0 in
  let extra_len :=
    to_uint32 (le32_to_cpu (sub offsetof_offset_to_image_data 4 file)
               - sizeof_image_hdr) in
  (lenZ file < offsetof_offset_to_image_data ->
   open_input_image file magic0 = Fatal read_eof)
  /\ (offsetof_offset_to_image_data <= lenZ file -> ~ magic_ok ->
      open_input_image file magic0 = Fatal bad_magic)
  /\ (offsetof_offset_to_image_data <= lenZ file -> magic_ok ->
      ~ supported_version major minor ->
      open_input_image file magic0 = Fatal (bad_version major minor))
  /\ (offsetof_offset_to_image_data <= lenZ file < sizeof_image_hdr ->
      magic_ok -> supported_version major minor ->
      open_input_image file magic0 = Fatal read_eof)
  /\ (sizeof_image_hdr <= lenZ file < sizeof_image_hdr + extra_len ->
      magic_ok -> supported_version major minor ->
      0 < to_int extra_len ->
      open_input_image file magic0 = Fatal read_eof).
Proof.
  intros major minor magic_ok extra_len.
  split; [|split; [|split; [|split]]].
  - intros H. unfold open_input_image.
    rewrite read_all_short by (consts; lia). reflexivity.
  - intros H M. now apply open_input_image_bad_magic.
  - intros H M V.
    destruct (open_input_image_first_read file H) as (R & Hm & Hj & Hn).
    unfold open_input_image. rewrite R. cbn [bind]. cbv zeta.
    rewrite Hm, Hj, Hn. fold major minor.
    rewrite (proj2 (bytes_eqb_eq _ _) M). cbn [negb].
    destruct (_ || _) eqn:E; [reflexivity|].
    apply version_test in E. contradiction.
  - intros H M V.
    destruct (open_input_image_first_read file (proj1 H))
      as (R & Hm & Hj & Hn).
    unfold open_input_image. rewrite R. cbn [bind]. cbv zeta.
    rewrite Hm, Hj, Hn. fold major minor.
    rewrite (proj2 (bytes_eqb_eq _ _) M). cbn [negb].
    rewrite (proj2 (version_test _ _) V).
    rewrite read_all_short; [reflexivity|lia| |];
      rewrite lenZ_dropZ; consts; lia.
  - intros H M V X.
    assert (offsetof_offset_to_image_data <= lenZ file) as H0 by (consts; lia).
    destruct (open_input_image_first_read file H0) as (R & Hm & Hj & Hn).
    unfold open_input_image. rewrite R. cbn [bind]. cbv zeta.
    rewrite Hm, Hj, Hn. fold major minor.
    rewrite (proj2 (bytes_eqb_eq _ _) M). cbn [negb].
    rewrite (proj2 (version_test _ _) V).
    rewrite read_all_enough by (rewrite ?lenZ_dropZ; consts; lia).
    cbn [bind]. fold (sub offsetof_offset_to_image_data 4 file).
    fold extra_len.
    assert (0 <= extra_len < 2 ^ 32) as Hx by (apply Z.mod_pos_bound; lia).
    pose proof (to_int_pos _ Hx X) as Hi.
    destruct (extra_len >? 0) eqn:E; [|lia].
    rewrite read_all_short; [reflexivity|lia| |];
      rewrite !lenZ_dropZ; rewrite ?lenZ_dropZ; consts; lia.
Qed.

(** ** Images and deltas are told apart *)

Lemma lenZ_hdr_bytes h : hdr_wf h -> lenZ (hdr_bytes h) = sizeof_image_hdr.
Proof.
  intros W. pose proof (lenZ_from_major_ver h W) as L.
  destruct W as (Hm & _). unfold hdr_bytes. rewrite lenZ_app, L.
  unfold lenZ at 1. rewrite Hm. reflexivity.
Qed.

Lemma open_input_image_magic file magic0 img :
  open_input_image file magic0 = Ok img ->
  sizeof_image_hdr <= lenZ file
  /\ takeZ IMAGE_MAGIC_SIZE file = takeZ IMAGE_MAGIC_SIZE magic0.
Proof.
  intros O.
  destruct (open_input_image_elim _ _ _ O) as (h & e & r & W & M & _ & -> & _).
  split.
  - rewrite lenZ_app, lenZ_hdr_bytes by assumption.
    pose proof (lenZ_nonneg (e ++ r)). lia.
  - rewrite <- M. unfold hdr_bytes. rewrite <- app_assoc.
    apply takeZ_app_exact. destruct W as (Hm & _). unfold lenZ. now rewrite Hm.
Qed.

Lemma magics_differ :
  takeZ IMAGE_MAGIC_SIZE IMAGE_MAGIC <> takeZ IMAGE_MAGIC_SIZE DELTA_MAGIC.
Proof. vm_compute. discriminate. Qed.

Lemma open_input_image_other_magic file magic0 magic1 img :
  open_input_image file magic0 = Ok img ->
  takeZ IMAGE_MAGIC_SIZE magic0 <> takeZ IMAGE_MAGIC_SIZE magic1 ->
  open_input_image file magic1 = Fatal bad_magic.
Proof.
  intros O D. destruct (open_input_image_magic _ _ _ O) as [L M].
  apply open_input_image_bad_magic; [consts; lia|]. congruence.
Qed.

(** A file that opens as a delta does not open as an image, and a file
    that opens as an image does not open as a delta.  So a delta given
    where an image is expected, as the first input of either operation or
    as the second input of [create_delta], ends the operation with the
    magic error; and so does an image given to [apply_patch] as its
    delta. *)
Theorem image_and_delta_are_told_apart (file : list byte) (img : input_image) :
  (open_input_image file DELTA_MAGIC = Ok img ->
   open_input_image file IMAGE_MAGIC = Fatal bad_magic
   /\ (forall file2, create_delta file file2 = Fatal bad_magic)
   /\ (forall file2, apply_patch file file2 = Fatal bad_magic)
   /\ (forall file1 old,
         open_input_image file1 IMAGE_MAGIC = Ok old ->
         create_delta file1 file = Fatal bad_magic))
  /\ (open_input_image file IMAGE_MAGIC = Ok img ->
      open_input_image file DELTA_MAGIC = Fatal bad_magic
      /\ (forall file1 old,
            open_input_image file1 IMAGE_MAGIC = Ok old ->
            apply_patch file1 file = Fatal bad_magic)).
Proof.
  split.
  - intros O.
    assert (open_input_image file IMAGE_MAGIC = Fatal bad_magic) as B.
    { apply (open_input_image_other_magic _ _ _ _ O).
      intros H. apply magics_differ. now symmetry. }
    split; [exact B|]. split; [|split].
    + intros file2. unfold create_delta, prepare_image_files. now rewrite B.
    + intros file2. unfold apply_patch, prepare_image_files. now rewrite B.
    + intros file1 old O1. unfold create_delta, prepare_image_files.
      now rewrite O1, B.
  - intros O.
    assert (open_input_image file DELTA_MAGIC = Fatal bad_magic) as B.
    { apply (open_input_image_other_magic _ _ _ _ O). apply magics_differ. }
    split; [exact B|].
    intros file1 old O1. unfold apply_patch, prepare_image_files.
    now rewrite O1, B.
Qed.

(** ** Written files read back *)

Lemma open_written_file h e s magic1 :
  hdr_wf h -> extra_ok h e -> IMAGE_MAGIC_SIZE <= lenZ magic1 ->
  let hW := set_magic h (takeZ IMAGE_MAGIC_SIZE magic1) in
  open_input_image
    ((takeZ IMAGE_MAGIC_SIZE magic1 ++ from_major_ver h ++ e) ++ s) magic1
  = Ok (initial_image hW e s)
  /\ hdr_wf hW /\ extra_ok hW e.
Proof.
  intros W X L hW.
  assert (hdr_wf hW) as WW.
  { destruct W as (Hm & Hrest). split; [|exact Hrest].
    cbn [hW set_magic magic].
    apply Nat2Z.inj. apply (lenZ_takeZ IMAGE_MAGIC_SIZE magic1).
    consts. lia. }
  assert (extra_ok hW e) as XW by exact X.
  split; [|auto].
  rewrite <- (open_input_image_intro hW e s magic1 WW eq_refl XW).
  unfold hdr_bytes. cbn [magic hW set_magic].
  rewrite <- !app_assoc. reflexivity.
Qed.

(** Whatever [write_image] writes reads back.  From the header of an
    opened image and a list of cluster events, each data event of one
    cluster, it writes a file that [open_input_image] accepts under the
    magic written, with the header fields and the extra block of the
    template; [read_next_cluster] then delivers the events written, in
    their order, and has read the file to its end with no run count left;
    and writing the events read under the header read gives the same file
    again. *)
Theorem written_image_reads_back
    (file0 magic0 magic1 : list byte) (tmpl : input_image) (es : list event) :
  open_input_image file0 magic0 = Ok tmpl ->
  IMAGE_MAGIC_SIZE <= lenZ magic1 ->
  csize tmpl <= NTFS_MAX_CLUSTER_SIZE ->
  Forall (payload_ok (csize tmpl)) es ->
  Z.of_nat (length es) < 2 ^ 63 ->
  exists file img0 img',
    write_image magic1 tmpl es = Ok file
    /\ open_input_image file magic1 = Ok img0
    /\ hdr img0 = set_magic (hdr tmpl) (takeZ IMAGE_MAGIC_SIZE magic1)
    /\ hdr_extra img0 = hdr_extra tmpl
    /\ csize img0 = csize tmpl /\ ccount img0 = ccount tmpl
    /\ bbs_present img0 = bbs_present tmpl
    /\ read_events (length es) true img0 = Ok (es, img')
    /\ (Forall no_drop es -> read_events (length es) false img0 = Ok (es, img'))
    /\ fd img' = [] /\ cmd_repeat img' <= 0
    /\ write_image magic1 img0 es = Ok file.
Proof.
  intros O L Hcs P Ln.
  destruct (open_input_image_elim _ _ _ O) as (h & e & r & W & M & X & _ & ->).
  set (csz := le32_to_cpu (cluster_size h)) in *.
  change (csize (initial_image h e r)) with csz in *.
  assert (0 <= csz <= NTFS_MAX_CLUSTER_SIZE) as Hc.
  { split; [apply le_combine_bound|assumption]. }
  set (hdrW := takeZ IMAGE_MAGIC_SIZE magic1 ++ from_major_ver h ++ e).
  destruct (codec csz Hc es P (fresh_output hdrW) (writer_inv_fresh _))
    as (w & s & E & Hw & Hout & Hread); [cbn; lia|].
  destruct (open_written_file h e s magic1 W X L) as (OW & WW & XW).
  fold hdrW in OW.
  set (hW := set_magic h (takeZ IMAGE_MAGIC_SIZE magic1)) in *.
  destruct (Hread (initial_image hW e s) [])
    as (img' & R & F & C & _);
    [cbn; lia | cbn; now rewrite app_nil_r | reflexivity
     | apply initial_image_reader_ok |].
  rewrite pending_events_fresh in R. cbn [app] in R.
  assert (write_image magic1 (initial_image h e r) es = Ok (hdrW ++ s)) as Wr.
  { rewrite write_image_initial by assumption.
    fold csz hdrW. rewrite E. cbn [bind].
    rewrite write_pending_cmd_eq by assumption. cbn [bind out_fd fresh_output].
    now rewrite Hout. }
  exists (hdrW ++ s), (initial_image hW e s), img'.
  split; [exact Wr|]. split; [exact OW|]. do 5 (split; [reflexivity|]).
  split; [exact R|].
  split; [intros D; now apply (read_events_allow _ true false)|].
  split; [exact F|]. split; [exact C|].
  rewrite <- Wr. rewrite !write_image_initial by assumption. reflexivity.
Qed.

(** ** The operations on the events of their inputs *)

Lemma read_events_buffer n a : forall img es img',
  read_events n a img = Ok (es, img') ->
  buffer_ok img -> 0 <= csize img <= NTFS_MAX_CLUSTER_SIZE ->
  buffer_ok img' /\ static img' = static img /\ length es = n
  /\ Forall (payload_ok (csize img)) es.
Proof.
  induction n as [|n IH]; intros img es img' H B Hc.
  - injection H as <- <-. auto.
  - cbn [read_events] in H. inv_bind H. inv_bind H. destruct x0 as [es1 img2].
    injection H as <- <-.
    destruct (read_next_cluster_static _ _ _ E) as [S1 B1].
    pose proof (static_csize _ _ S1) as C1.
    destruct (IH _ _ _ E0 (B1 B)) as (B2 & S2 & L2 & P2); [lia|].
    split; [assumption|]. split; [congruence|]. split; [cbn; lia|].
    constructor; [|now rewrite <- C1].
    unfold event_of. destruct (Byte.eqb (cmd x) CMD_SKIP); [exact I|].
    destruct (Byte.eqb (cmd x) CMD_DROP); [exact I|].
    cbn [payload_ok]. rewrite C1. apply lenZ_takeZ.
    specialize (B1 B). unfold buffer_ok in B1. lia.
Qed.

Lemma zip_with_patch_facts csz eso : forall esd,
  Forall (payload_ok csz) eso -> Forall (payload_ok csz) esd ->
  Forall (payload_ok csz) (zip_with patch_event eso esd).
Proof.
  induction eso as [|eo eso IH]; intros [|ed esd] Po Pd; cbn; try constructor.
  - inversion Po; inversion Pd; subst.
    destruct ed; [destruct eo| |]; cbn; auto.
  - inversion Po; inversion Pd; subst. auto.
Qed.

Lemma zip_with_nil_r f l : zip_with f l [] = [].
Proof. destruct l; reflexivity. Qed.

Lemma zip_with_app f a : forall b c d,
  length a = length b ->
  zip_with f (a ++ c) (b ++ d) = zip_with f a b ++ zip_with f c d.
Proof.
  induction a as [|x a IH]; intros [|y b] c d L; try discriminate.
  - reflexivity.
  - cbn. f_equal. apply IH. now injection L.
Qed.

Lemma length_zip_with_le f a : forall b,
  (length (zip_with f a b) <= length a)%nat.
Proof.
  induction a as [|x a IH]; intros [|y b]; cbn; try lia.
  specialize (IH b). lia.
Qed.

Lemma bind_ret {A} (m : outcome A) : (x <- m ;; Ok x) = m.
Proof. destruct m; reflexivity. Qed.

Lemma bind_assoc {A B C} (m : outcome A) (f : A -> outcome B)
    (g : B -> outcome C) :
  (y <- (x <- m ;; f x) ;; g y) = (x <- m ;; y <- f x ;; g y).
Proof. destruct m; reflexivity. Qed.

(** [lone_backup_boot_sector] on the events of the two readers. *)
Lemma lone_backup_boot_sector_events img1 img2 w es1 es2 img1' img2' :
  bbs_present img1 = 0 \/ bbs_present img1 = 1 ->
  bbs_present img2 = 0 \/ bbs_present img2 = 1 ->
  buffer_ok img2 -> 0 <= csize img2 <= NTFS_MAX_CLUSTER_SIZE ->
  read_events (lone_cluster img1 img2) false img1 = Ok (es1, img1') ->
  read_events (lone_cluster img2 img1) false img2 = Ok (es2, img2') ->
  lone_backup_boot_sector (img1, img2, w)
  = (w' <- emit_all (csize img2) w (kept_cluster img1 img2') ;;
     Ok (img1', img2', w')).
Proof.
  intros B1 B2 Bf Hc R1 R2.
  unfold lone_backup_boot_sector, lone_cluster, kept_cluster in *.
  destruct (read_events_buffer _ _ _ _ _ R2 Bf Hc) as (Bf' & S2 & _).
  rewrite (static_bbs _ _ S2), (static_csize _ _ S2).
  destruct B1 as [B1|B1], B2 as [B2|B2]; rewrite B1, B2 in *;
    cbn [Z.eqb andb Pos.eqb] in *.
  - injection R1 as <- <-. injection R2 as <- <-. reflexivity.
  - injection R1 as <- <-. cbn [read_events] in R2.
    inv_bind R2. cbn in R2. injection R2 as <- <-. rewrite E. cbn [bind].
    rewrite write_data_cluster;
      [|assumption|now rewrite (static_csize _ _ S2)].
    rewrite (static_csize _ _ S2). cbn [emit_all].
    rewrite bind_ret. reflexivity.
  - injection R2 as <- <-. cbn [read_events] in R1.
    inv_bind R1. cbn in R1. injection R1 as <- <-. rewrite E. reflexivity.
  - injection R1 as <- <-. injection R2 as <- <-. reflexivity.
Qed.

Lemma lone_cluster_static a b a' b' :
  static a' = static a -> static b' = static b ->
  lone_cluster a' b' = lone_cluster a b.
Proof.
  intros Sa Sb. unfold lone_cluster.
  now rewrite (static_bbs _ _ Sa), (static_bbs _ _ Sb).
Qed.

Lemma lone_cluster_one_side a b :
  lone_cluster a b = 0%nat \/ lone_cluster b a = 0%nat.
Proof.
  unfold lone_cluster.
  destruct (bbs_present a =? 1) eqn:Ea, (bbs_present b =? 0) eqn:Eb; cbn; auto.
  right. apply Z.eqb_eq in Ea. rewrite Ea. rewrite andb_false_r. reflexivity.
Qed.

Lemma zip_with_lone f (es1 es2 : list event) a b :
  length es1 = lone_cluster a b -> length es2 = lone_cluster b a ->
  zip_with f es1 es2 = [].
Proof.
  intros L1 L2. destruct (lone_cluster_one_side a b) as [H|H].
  - rewrite H in L1. destruct es1; [reflexivity|discriminate].
  - rewrite H in L2. destruct es2; [apply zip_with_nil_r|discriminate].
Qed.

Lemma emit_all_kept_cluster csz w img1 img2 :
  writer_inv w -> buffer_ok img2 ->
  csize img2 = csz /\ 0 <= csz <= NTFS_MAX_CLUSTER_SIZE ->
  exists w', emit_all csz w (kept_cluster img1 img2) = Ok w'.
Proof.
  intros Hw B [C Hc]. unfold kept_cluster.
  destruct (_ && _); [|cbn; eauto]. cbn [emit_all emit].
  assert (NTFS_MAX_CLUSTER_SIZE = 65536) as HM by reflexivity.
  rewrite write_data_eq; [cbn; eauto|assumption| |lia].
  rewrite C. apply lenZ_takeZ. unfold buffer_ok in B. lia.
Qed.

(** [create_delta] on the events of its two inputs, up to [finish]. *)
Lemma create_delta_events file1 file2 old0 new0 delta0 eso esn old1 new1 :
  prepare_image_files file1 IMAGE_MAGIC file2 IMAGE_MAGIC DELTA_MAGIC
  = Ok (old0, new0, delta0) ->
  csize old0 <= NTFS_MAX_CLUSTER_SIZE ->
  let n := Z.to_nat (if (bbs_present old0 =? 1) && (bbs_present new0 =? 1)
                     then to_int64 (ccount old0 + 1) else ccount old0) in
  read_events (n + lone_cluster old0 new0) false old0 = Ok (eso, old1) ->
  read_events (n + lone_cluster new0 old0) false new0 = Ok (esn, new1) ->
  let es := zip_with delta_event eso esn ++ kept_cluster old0 new1 in
  create_delta file1 file2
  = (w <- emit_all (csize new0) delta0 es ;; finish (old1, new1, w))
  /\ exists w, emit_all (csize new0) delta0 es = Ok w.
Proof.
  intros P Hcs n Eo En es. unfold es. clear es.
  destruct (prepare_image_files_Ok _ _ _ _ _ _ _ _ P lenZ_DELTA_MAGIC)
    as (O1 & O2 & HC & ->).
  assert (NTFS_MAX_CLUSTER_SIZE = 65536) as HM by reflexivity.
  destruct (open_input_image_elim _ _ _ O1)
    as (h1 & e1 & r1 & W1 & M1 & X1 & F1 & I1).
  destruct (open_input_image_elim _ _ _ O2)
    as (h2 & e2 & r2 & W2 & M2 & X2 & F2 & I2).
  rewrite (create_delta_opened _ _ _ _ O1 O2), HC. cbn [bind].
  subst old0 new0.
  set (old0 := initial_image h1 e1 r1) in *.
  set (new0 := initial_image h2 e2 r2) in *.
  change (hdr new0) with h2. change (hdr_extra new0) with e2.
  set (hdrD := takeZ IMAGE_MAGIC_SIZE DELTA_MAGIC ++ from_major_ver h2 ++ e2).
  assert (create_output_image DELTA_MAGIC new0 = Ok (fresh_output hdrD)) as ->.
  { apply create_output_image_initial; auto using lenZ_DELTA_MAGIC. }
  cbn [bind]. fold n.
  destruct (header_check_fields _ _ _ _ _ _ W1 W2 HC) as [Qcs Qnr].
  assert (csize old0 = csize new0) as Ecs by (cbn; now rewrite Qcs).
  pose proof (initial_image_reader_ok h1 e1 r1) as Ko. fold old0 in Ko.
  pose proof (initial_image_reader_ok h2 e2 r2) as Kn. fold new0 in Kn.
  pose proof (initial_image_csize h1 e1 r1) as C0. fold old0 in C0.
  pose proof (initial_image_ccount h1 e1 r1) as CC. fold old0 in CC.
  pose proof (initial_image_bbs h1 e1 r1) as Bo. fold old0 in Bo.
  pose proof (initial_image_bbs h2 e2 r2) as Bn. fold new0 in Bn.
  assert (0 <= csize old0 <= NTFS_MAX_CLUSTER_SIZE) as Hc by lia.
  assert (Z.of_nat n < 2 ^ 63) as Hn.
  { unfold n. pose proof (to_int64_range (ccount old0 + 1)).
    destruct (_ && _); lia. }
  destruct (read_events_split _ _ _ _ _ _ Eo)
    as (eso1 & oldm & eso2 & Eo1 & Eo2 & ->).
  destruct (read_events_split _ _ _ _ _ _ En)
    as (esn1 & newm & esn2 & En1 & En2 & ->).
  destruct (read_events_facts _ _ _ _ Eo1 Ko Hc) as (Kom & Som & Lo & Po & Do).
  destruct (read_events_facts _ _ _ _ En1 Kn) as (Knm & Snm & Ln & Pn & Dn);
    [lia|].
  destruct (read_events_facts _ _ _ _ Eo2 Kom) as (_ & _ & Lo2 & _);
    [rewrite (static_csize _ _ Som); lia|].
  destruct (read_events_facts _ _ _ _ En2 Knm) as (Kn1 & Sn1 & Ln2 & _);
    [rewrite (static_csize _ _ Snm); lia|].
  rewrite zip_with_app by congruence.
  rewrite (zip_with_lone _ _ _ _ _ Lo2 Ln2), app_nil_r.
  destruct (zip_with_delta_facts (csize new0) eso1 esn1 Pn) as [Pd Ld];
    [congruence|].
  destruct (codec (csize new0) ltac:(lia) _ Pd (fresh_output hdrD)
              (writer_inv_fresh _))
    as (w1 & _ & Ew & Hw1 & _); [cbn; lia|].
  rewrite emit_all_app, Ew. cbn [bind].
  split; [|apply (emit_all_kept_cluster _ _ _ _ Hw1 (proj2 Kn1));
           rewrite (static_csize _ _ Sn1), (static_csize _ _ Snm); lia].
  rewrite (create_delta_loop_intro n old0 new0 (fresh_output hdrD)
             eso1 esn1 oldm newm w1 Ko Kn Ecs Hc Eo1 En1 Ew).
  cbn [bind].
  rewrite <- (lone_cluster_static _ _ _ _ Som Snm) in Eo2.
  rewrite <- (lone_cluster_static _ _ _ _ Snm Som) in En2.
  rewrite (lone_backup_boot_sector_events oldm newm w1 eso2 esn2 old1 new1);
    try assumption.
  - rewrite (static_csize _ _ Snm).
    assert (kept_cluster oldm new1 = kept_cluster old0 new1) as ->.
    { unfold kept_cluster. now rewrite (static_bbs _ _ Som). }
    now rewrite bind_assoc.
  - now rewrite (static_bbs _ _ Som).
  - now rewrite (static_bbs _ _ Snm).
  - apply Knm.
  - rewrite (static_csize _ _ Snm). lia.
Qed.

Lemma event_of_not_drop img : cmd img <> CMD_DROP -> event_of img <> Drop.
Proof.
  intros H. unfold event_of.
  destruct (Byte.eqb (cmd img) CMD_SKIP); [discriminate|].
  destruct (Byte.eqb (cmd img) CMD_DROP) eqn:E; [|discriminate].
  apply byte_eqb_eq in E. contradiction.
Qed.

Lemma read_events_lone a b img es img' :
  read_events (lone_cluster a b) true img = Ok (es, img') ->
  (lone_cluster a b = 1%nat -> cmd img' <> CMD_DROP) ->
  read_events (lone_cluster a b) false img = Ok (es, img').
Proof.
  intros R H. apply (read_events_allow _ true false _ _ _ R).
  unfold lone_cluster in *. destruct (_ && _).
  - cbn [read_events] in R. inv_bind R. cbn in R. injection R as <- <-.
    constructor; [|constructor]. now apply event_of_not_drop, H.
  - injection R as <- <-. constructor.
Qed.

(** [apply_patch] on the events of its two inputs, up to [finish].  The
    loop runs [old.ccount] times. *)
Lemma apply_patch_events file1 file2 old0 dl0 new0 eso esd old1 dl1 :
  prepare_image_files file1 IMAGE_MAGIC file2 DELTA_MAGIC IMAGE_MAGIC
  = Ok (old0, dl0, new0) ->
  csize old0 <= NTFS_MAX_CLUSTER_SIZE ->
  let n := Z.to_nat (ccount old0) in
  read_events (n + lone_cluster old0 dl0) false old0 = Ok (eso, old1) ->
  read_events (n + lone_cluster dl0 old0) true dl0 = Ok (esd, dl1) ->
  (lone_cluster dl0 old0 = 1%nat -> cmd dl1 <> CMD_DROP) ->
  let es := zip_with patch_event eso esd ++ kept_cluster old0 dl1 in
  apply_patch file1 file2
  = (w <- emit_all (csize dl0) new0 es ;; finish (old1, dl1, w))
  /\ exists w, emit_all (csize dl0) new0 es = Ok w.
Proof.
  intros P Hcs n Eo Ed Hd es. unfold es. clear es.
  destruct (prepare_image_files_Ok _ _ _ _ _ _ _ _ P lenZ_IMAGE_MAGIC)
    as (O1 & O2 & HC & ->).
  assert (NTFS_MAX_CLUSTER_SIZE = 65536) as HM by reflexivity.
  destruct (open_input_image_elim _ _ _ O1)
    as (h1 & e1 & r1 & W1 & M1 & X1 & F1 & I1).
  destruct (open_input_image_elim _ _ _ O2)
    as (h2 & e2 & r2 & W2 & M2 & X2 & F2 & I2).
  rewrite (apply_patch_opened _ _ _ _ O1 O2), HC. cbn [bind].
  subst old0 dl0.
  set (old0 := initial_image h1 e1 r1) in *.
  set (dl0 := initial_image h2 e2 r2) in *.
  change (hdr dl0) with h2. change (hdr_extra dl0) with e2.
  set (hdrN := takeZ IMAGE_MAGIC_SIZE IMAGE_MAGIC ++ from_major_ver h2 ++ e2).
  assert (create_output_image IMAGE_MAGIC dl0 = Ok (fresh_output hdrN)) as ->.
  { apply create_output_image_initial; auto using lenZ_IMAGE_MAGIC. }
  cbn [bind]. fold n.
  destruct (header_check_fields _ _ _ _ _ _ W1 W2 HC) as [Qcs Qnr].
  assert (csize old0 = csize dl0) as Ecs by (cbn; now rewrite Qcs).
  pose proof (initial_image_reader_ok h1 e1 r1) as Ko. fold old0 in Ko.
  pose proof (initial_image_reader_ok h2 e2 r2) as Kd. fold dl0 in Kd.
  pose proof (initial_image_csize h1 e1 r1) as C0. fold old0 in C0.
  pose proof (initial_image_ccount h1 e1 r1) as CC. fold old0 in CC.
  pose proof (initial_image_bbs h1 e1 r1) as Bo. fold old0 in Bo.
  pose proof (initial_image_bbs h2 e2 r2) as Bd. fold dl0 in Bd.
  assert (0 <= csize old0 <= NTFS_MAX_CLUSTER_SIZE) as Hc by lia.
  assert (Z.of_nat n < 2 ^ 63) as Hn by (unfold n; lia).
  destruct (read_events_split _ _ _ _ _ _ Eo)
    as (eso1 & oldm & eso2 & Eo1 & Eo2 & ->).
  destruct (read_events_split _ _ _ _ _ _ Ed)
    as (esd1 & dlm & esd2 & Ed1 & Ed2 & ->).
  destruct (read_events_facts _ _ _ _ Eo1 Ko Hc) as (Kom & Som & Lo & Po & Do).
  destruct (read_events_buffer _ _ _ _ _ Ed1 (proj2 Kd))
    as (Kdm & Sdm & Ld & Pd); [lia|].
  destruct (read_events_facts _ _ _ _ Eo2 Kom) as (_ & _ & Lo2 & _);
    [rewrite (static_csize _ _ Som); lia|].
  destruct (read_events_buffer _ _ _ _ _ Ed2 Kdm) as (Kd1 & Sd1 & Ld2 & _);
    [rewrite (static_csize _ _ Sdm); lia|].
  rewrite zip_with_app by congruence.
  rewrite (zip_with_lone _ _ _ _ _ Lo2 Ld2), app_nil_r.
  rewrite Ecs in Po.
  pose proof (zip_with_patch_facts _ _ _ Po Pd) as Pp.
  assert (length (zip_with patch_event eso1 esd1) <= n)%nat as Lp.
  { rewrite <- Lo. apply length_zip_with_le. }
  destruct (codec (csize dl0) ltac:(lia) _ Pp (fresh_output hdrN)
              (writer_inv_fresh _))
    as (w1 & _ & Ew & Hw1 & _); [cbn; lia|].
  rewrite emit_all_app, Ew. cbn [bind].
  split; [|apply (emit_all_kept_cluster _ _ _ _ Hw1 Kd1);
           rewrite (static_csize _ _ Sd1), (static_csize _ _ Sdm); lia].
  rewrite <- Ecs in Ew.
  rewrite (apply_patch_loop_intro n old0 dl0 (fresh_output hdrN)
             eso1 esd1 oldm dlm w1 Ko (proj2 Kd) Ecs Hc Eo1 Ed1 Ew).
  cbn [bind].
  apply read_events_lone in Ed2; [|exact Hd].
  rewrite <- (lone_cluster_static _ _ _ _ Som Sdm) in Eo2.
  rewrite <- (lone_cluster_static _ _ _ _ Sdm Som) in Ed2.
  rewrite (lone_backup_boot_sector_events oldm dlm w1 eso2 esd2 old1 dl1);
    try assumption.
  - rewrite (static_csize _ _ Sdm).
    assert (kept_cluster oldm dl1 = kept_cluster old0 dl1) as ->.
    { unfold kept_cluster. now rewrite (static_bbs _ _ Som). }
    now rewrite bind_assoc.
  - now rewrite (static_bbs _ _ Som).
  - now rewrite (static_bbs _ _ Sdm).
  - rewrite (static_csize _ _ Sdm). lia.
Qed.

Lemma prepare_image_files_output file1 magic1 file2 magic2 magic3 img1 img2 img3 :
  prepare_image_files file1 magic1 file2 magic2 magic3 = Ok (img1, img2, img3) ->
  create_output_image magic3 img2 = Ok img3.
Proof.
  intros P. rewrite prepare_image_files_eq in P.
  inv_bind P. inv_bind P. inv_bind P. inv_bind P.
  injection P as <- <- <-. assumption.
Qed.

Lemma finish_flush img1 img2 w :
  cmd_repeat img1 <= 0 -> cmd_repeat img2 <= 0 ->
  finish (img1, img2, w) = (w' <- write_pending_cmd w ;; Ok (out_fd w')).
Proof.
  intros H1 H2. unfold finish, finish_image_files.
  destruct (cmd_repeat img1 >? 0) eqn:E1; [lia|].
  destruct (cmd_repeat img2 >? 0) eqn:E2; [lia|]. reflexivity.
Qed.

Lemma finish_flush_after {A} (m : outcome A) f img1 img2 :
  cmd_repeat img1 <= 0 -> cmd_repeat img2 <= 0 ->
  (x <- m ;; finish (img1, img2, f x))
  = (x <- m ;; w' <- write_pending_cmd (f x) ;; Ok (out_fd w')).
Proof.
  intros H1 H2. destruct m; cbn [bind]; try reflexivity.
  now apply finish_flush.
Qed.

(** [create_delta] as a function of the cluster events of its inputs.
    For two inputs that pass [prepare_image_files], with a cluster size
    that fits the cluster buffer, whose command streams deliver the
    clusters asked for and leave no run count: the delta is the header
    and extra block of NEW under the delta magic, followed by the
    writer's encoding of [delta_event] applied cluster by cluster to the
    events of OLD and of NEW.  When only OLD has a backup boot sector its
    cluster is read and not written; when only NEW has one, its cluster
    buffer follows as a data cluster. *)
Theorem create_delta_on_events
    (file1 file2 : list byte) (old0 new0 old1 new1 : input_image)
    (delta0 : output_image) (eso esn : list event) :
  prepare_image_files file1 IMAGE_MAGIC file2 IMAGE_MAGIC DELTA_MAGIC
  = Ok (old0, new0, delta0) ->
  csize old0 <= NTFS_MAX_CLUSTER_SIZE ->
  let n := Z.to_nat (if (bbs_present old0 =? 1) && (bbs_present new0 =? 1)
                     then to_int64 (ccount old0 + 1) else ccount old0) in
  read_events (n + lone_cluster old0 new0) false old0 = Ok (eso, old1) ->
  read_events (n + lone_cluster new0 old0) false new0 = Ok (esn, new1) ->
  cmd_repeat old1 <= 0 -> cmd_repeat new1 <= 0 ->
  let es := zip_with delta_event eso esn ++ kept_cluster old0 new1 in
  create_delta file1 file2 = write_image DELTA_MAGIC new0 es
  /\ exists out, create_delta file1 file2 = Ok out.
Proof.
  intros P Hcs n Eo En Ro Rn es.
  destruct (create_delta_events _ _ _ _ _ _ _ _ _ P Hcs Eo En) as [E [w Ew]].
  fold n es in E, Ew. rewrite E.
  unfold write_image. rewrite (prepare_image_files_output _ _ _ _ _ _ _ _ P).
  cbn [bind]. rewrite Ew. cbn [bind]. rewrite finish_flush by assumption.
  split; [reflexivity|].
  destruct (write_pending_cmd_total w) as [w' ->]. cbn. eauto.
Qed.

(** [apply_patch] as a function of the cluster events of its inputs.  For
    an image and a delta that pass [prepare_image_files], with a cluster
    size that fits the cluster buffer, whose command streams deliver the
    clusters asked for and leave no run count: the output is the header
    and extra block of the delta under the image magic, followed by the
    writer's encoding of [patch_event] applied cluster by cluster to the
    events of OLD and of the delta.  The loop runs over the cluster count
    of OLD, also when both inputs have a backup boot sector.  When only
    the delta has one, its cluster, which is not a dropped cluster,
    follows as a data cluster. *)
Theorem apply_patch_on_events
    (file1 file2 : list byte) (old0 dl0 old1 dl1 : input_image)
    (new0 : output_image) (eso esd : list event) :
  prepare_image_files file1 IMAGE_MAGIC file2 DELTA_MAGIC IMAGE_MAGIC
  = Ok (old0, dl0, new0) ->
  csize old0 <= NTFS_MAX_CLUSTER_SIZE ->
  let n := Z.to_nat (ccount old0) in
  read_events (n + lone_cluster old0 dl0) false old0 = Ok (eso, old1) ->
  read_events (n + lone_cluster dl0 old0) true dl0 = Ok (esd, dl1) ->
  (lone_cluster dl0 old0 = 1%nat -> cmd dl1 <> CMD_DROP) ->
  cmd_repeat old1 <= 0 -> cmd_repeat dl1 <= 0 ->
  let es := zip_with patch_event eso esd ++ kept_cluster old0 dl1 in
  apply_patch file1 file2 = write_image IMAGE_MAGIC dl0 es
  /\ exists out, apply_patch file1 file2 = Ok out.
Proof.
  intros P Hcs n Eo Ed Hd Ro Rd es.
  destruct (apply_patch_events _ _ _ _ _ _ _ _ _ P Hcs Eo Ed Hd) as [E [w Ew]].
  fold n es in E, Ew. rewrite E.
  unfold write_image. rewrite (prepare_image_files_output _ _ _ _ _ _ _ _ P).
  cbn [bind]. rewrite Ew. cbn [bind]. rewrite finish_flush by assumption.
  split; [reflexivity|].
  destruct (write_pending_cmd_total w) as [w' ->]. cbn. eauto.
Qed.

(** The end of [apply_patch].  For an image and a delta that pass
    [prepare_image_files] and whose command streams deliver the clusters
    asked for, a run count left in the reader of the image ends the
    operation with the error that names the first input; otherwise one
    left in the reader of the delta ends it with the error that names the
    second input. *)
Theorem apply_patch_unused_clusters
    (file1 file2 : list byte) (old0 dl0 old1 dl1 : input_image)
    (new0 : output_image) (eso esd : list event) :
  prepare_image_files file1 IMAGE_MAGIC file2 DELTA_MAGIC IMAGE_MAGIC
  = Ok (old0, dl0, new0) ->
  csize old0 <= NTFS_MAX_CLUSTER_SIZE ->
  let n := Z.to_nat (ccount old0) in
  read_events (n + lone_cluster old0 dl0) false old0 = Ok (eso, old1) ->
  read_events (n + lone_cluster dl0 old0) true dl0 = Ok (esd, dl1) ->
  (lone_cluster dl0 old0 = 1%nat -> cmd dl1 <> CMD_DROP) ->
  (0 < cmd_repeat old1 ->
   apply_patch file1 file2
   = Fatal (first_remaining (to_int (cmd_repeat old1))))
  /\ (cmd_repeat old1 <= 0 -> 0 < cmd_repeat dl1 ->
      apply_patch file1 file2
      = Fatal (second_remaining (to_int (cmd_repeat dl1)))).
Proof.
  intros P Hcs n Eo Ed Hd.
  destruct (apply_patch_events _ _ _ _ _ _ _ _ _ P Hcs Eo Ed Hd) as [E [w Ew]].
  fold n in E, Ew. rewrite E, Ew. cbn [bind].
  unfold finish, finish_image_files. split.
  - intros H. destruct (cmd_repeat old1 >? 0) eqn:E1; [reflexivity|lia].
  - intros H1 H2. destruct (cmd_repeat old1 >? 0) eqn:E1; [lia|].
    destruct (cmd_repeat dl1 >? 0) eqn:E2; [reflexivity|lia].
Qed.

(** ** The delta of an image with itself *)

Lemma header_check_same img file magic0 :
  open_input_image file magic0 = Ok img ->
  hdr_extra_len img <= lenZ (hdr_extra img) ->
  header_check img img = Ok tt.
Proof.
  intros O L.
  destruct (open_input_image_elim _ _ _ O) as (h & e & r & W & M & X & _ & ->).
  cbn [initial_image hdr_extra_len hdr_extra] in L.
  rewrite header_check_opened by assumption.
  destruct (extra_ok_takeZ h e X) as [-> _].
  now rewrite !bytes_eqb_refl.
Qed.

Lemma zip_with_delta_same es :
  Forall no_drop es -> zip_with delta_event es es = repeat Skip (length es).
Proof.
  induction 1 as [|e es D _ IH]; [reflexivity|].
  cbn [zip_with length repeat]. rewrite IH. f_equal.
  destruct e; cbn; [reflexivity|now destruct D|now rewrite bytes_eqb_refl].
Qed.

Lemma create_delta_same file img0 img1 es :
  open_input_image file IMAGE_MAGIC = Ok img0 ->
  hdr_extra_len img0 <= lenZ (hdr_extra img0) ->
  csize img0 <= NTFS_MAX_CLUSTER_SIZE ->
  let n := Z.to_nat (if bbs_present img0 =? 1
                     then to_int64 (ccount img0 + 1) else ccount img0) in
  read_events n false img0 = Ok (es, img1) ->
  cmd_repeat img1 <= 0 ->
  create_delta file file
  = Ok (takeZ IMAGE_MAGIC_SIZE DELTA_MAGIC ++ from_major_ver (hdr img0)
          ++ hdr_extra img0
          ++ (if (n =? 0)%nat then [] else run_record CMD_SKIP (Z.of_nat n))).
Proof.
  intros O L Hcs n R C.
  set (hdrD := takeZ IMAGE_MAGIC_SIZE DELTA_MAGIC ++ from_major_ver (hdr img0)
                 ++ hdr_extra img0).
  assert (prepare_image_files file IMAGE_MAGIC file IMAGE_MAGIC DELTA_MAGIC
          = Ok (img0, img0, fresh_output hdrD)) as P.
  { rewrite prepare_image_files_eq, O. cbn [bind].
    rewrite (header_check_same _ _ _ O L). cbn [bind].
    destruct (open_input_image_elim _ _ _ O)
      as (h & e & r & W & M & X & _ & ->).
    rewrite create_output_image_initial by (auto using lenZ_DELTA_MAGIC).
    reflexivity. }
  assert (lone_cluster img0 img0 = 0%nat) as L0.
  { destruct (lone_cluster_one_side img0 img0); assumption. }
  assert ((bbs_present img0 =? 1) && (bbs_present img0 =? 1)
          = (bbs_present img0 =? 1)) as Eb by apply andb_diag.
  destruct (open_input_image_elim _ _ _ O)
    as (h & e & r & W & M & X & _ & I0).
  assert (reader_ok img0) as K by (subst img0; apply initial_image_reader_ok).
  assert (0 <= csize img0) as C0 by (subst img0; apply initial_image_csize).
  assert (- 2 ^ 63 <= ccount img0 < 2 ^ 63) as CC
    by (subst img0; apply initial_image_ccount).
  clear I0.
  destruct (read_events_facts _ _ _ _ R K) as (K1 & S1 & Ln & _ & D); [lia|].
  destruct (create_delta_events file file img0 img0 (fresh_output hdrD)
              es es img1 img1 P Hcs) as [E _].
  { rewrite Eb, L0, Nat.add_0_r. exact R. }
  { rewrite Eb, L0, Nat.add_0_r. exact R. }
  rewrite E. clear E.
  assert (kept_cluster img0 img1 = []) as ->.
  { unfold kept_cluster. rewrite (static_bbs _ _ S1).
    destruct (bbs_present img0 =? 0) eqn:E0; [|reflexivity].
    apply Z.eqb_eq in E0. now rewrite E0. }
  rewrite app_nil_r, zip_with_delta_same, Ln by assumption.
  rewrite finish_flush_after by assumption.
  assert (Z.of_nat n < 2 ^ 63) as Hn.
  { unfold n. pose proof (to_int64_range (ccount img0 + 1)).
    destruct (_ =? 1); lia. }
  destruct n as [|k] eqn:En.
  - cbn [repeat emit_all bind Nat.eqb].
    change (write_pending_cmd (fresh_output hdrD)) with (Ok (fresh_output hdrD)).
    cbn [bind out_fd fresh_output]. unfold hdrD. now rewrite app_nil_r.
  - destruct (emit_all_run (csize img0) CMD_SKIP (S k) (fresh_output hdrD))
      as (w & Ew & Hw & Cw & Fw & Rw);
      [now left | lia | apply writer_inv_fresh | discriminate |].
    change (tag_event CMD_SKIP) with Skip in Ew. rewrite Ew. cbn [bind].
    rewrite (write_pending_cmd_run w CMD_SKIP) by auto. cbn [bind].
    rewrite Fw, Rw. cbn [out_fd fresh_output Nat.eqb].
    change (pending_bytes (fresh_output hdrD)) with (@nil byte).
    unfold hdrD, run_record. now rewrite app_nil_r, <- !app_assoc.
Qed.

(** The delta of an image with itself: under the delta magic, the header
    and extra block of the image and, for an image of [n] clusters, its
    backup boot sector counted, one skip record of count [n]; nothing
    after the header for an image of no cluster.  Its size is that of the
    header and extra block and nine bytes more, whatever the size of the
    image. *)
Theorem delta_of_an_image_with_itself
    (file : list byte) (img0 img1 : input_image) (es : list event) :
  open_input_image file IMAGE_MAGIC = Ok img0 ->
  hdr_extra_len img0 <= lenZ (hdr_extra img0) ->
  csize img0 <= NTFS_MAX_CLUSTER_SIZE ->
  let n := Z.to_nat (if bbs_present img0 =? 1
                     then to_int64 (ccount img0 + 1) else ccount img0) in
  read_events n false img0 = Ok (es, img1) ->
  cmd_repeat img1 <= 0 ->
  let delta_file :=
    takeZ IMAGE_MAGIC_SIZE DELTA_MAGIC ++ from_major_ver (hdr img0)
      ++ hdr_extra img0
      ++ (if (n =? 0)%nat then [] else run_record CMD_SKIP (Z.of_nat n)) in
  create_delta file file = Ok delta_file
  /\ lenZ delta_file
     = sizeof_image_hdr + lenZ (hdr_extra img0) + (if (n =? 0)%nat then 0 else 9).
Proof.
  intros O L Hcs n R C delta_file.
  split; [now apply (create_delta_same file img0 img1 es)|].
  destruct (open_input_image_elim _ _ _ O) as (h & e & r & W & _ & _ & _ & ->).
  unfold delta_file. cbn [hdr hdr_extra initial_image].
  rewrite !lenZ_app, lenZ_from_major_ver by assumption.
  rewrite (lenZ_takeZ IMAGE_MAGIC_SIZE DELTA_MAGIC)
    by (pose proof lenZ_DELTA_MAGIC; consts; lia).
  assert (lenZ (run_record CMD_SKIP (Z.of_nat n)) = 9) as L9.
  { unfold run_record, lenZ. cbn [length]. now rewrite length_cpu_to_sle64. }
  destruct (n =? 0)%nat; [|rewrite L9]; consts; change (lenZ []) with 0; lia.
Qed.

Lemma read_events_in_run_part k a : forall img m,
  0 <= m -> cmd_repeat img = Z.of_nat k + m ->
  exists es img',
    read_events k a img = Ok (es, img')
    /\ cmd_repeat img' = m /\ static img' = static img
    /\ (buffer_ok img -> buffer_ok img').
Proof.
  induction k as [|k IH]; intros img m Hm Hc.
  - exists [], img. cbn. repeat split; auto; lia.
  - cbn [read_events]. rewrite read_next_cluster_in_run by lia. cbn [bind].
    destruct (IH (set_cmd_repeat img (cmd_repeat img - 1)) m Hm)
      as (es & img' & R & C & S & B); [cbn; lia|].
    rewrite R. cbn [bind]. eauto 8.
Qed.

(** The delta of an image with itself, applied to that image, when the
    image has a backup boot sector and at least one cluster.  The delta is
    one skip record that counts the backup boot sector; the loop of
    [apply_patch] runs over the cluster count of the image, which does
    not; so one cluster is left in the run of one of the readers, and
    the operation ends with the error of [finish_image_files]. *)
Theorem identity_delta_with_backup_boot_sector
    (file : list byte) (img0 img1 : input_image) (es : list event) :
  open_input_image file IMAGE_MAGIC = Ok img0 ->
  hdr_extra_len img0 <= lenZ (hdr_extra img0) ->
  csize img0 <= NTFS_MAX_CLUSTER_SIZE ->
  bbs_present img0 = 1 -> 1 <= ccount img0 < 2 ^ 63 - 1 ->
  read_events (Z.to_nat (ccount img0) + 1) false img0 = Ok (es, img1) ->
  cmd_repeat img1 <= 0 ->
  exists delta_file,
    create_delta file file = Ok delta_file
    /\ (apply_patch file delta_file = Fatal (first_remaining 1)
        \/ apply_patch file delta_file = Fatal (second_remaining 1)).
Proof.
  intros O L Hcs Hb Hcc R C.
  assert (NTFS_MAX_CLUSTER_SIZE = 65536) as HM by reflexivity.
  set (n := Z.to_nat (ccount img0)) in *.
  assert (Z.to_nat (if bbs_present img0 =? 1
                    then to_int64 (ccount img0 + 1) else ccount img0)
          = (n + 1)%nat) as En.
  { rewrite Hb. cbn [Z.eqb Pos.eqb]. rewrite to_int64_small by lia.
    unfold n. lia. }
  pose proof (create_delta_same file img0 img1 es O L Hcs) as G.
  cbv zeta in G. rewrite En in G. specialize (G R C).
  replace (n + 1 =? 0)%nat with false in G
    by (symmetry; apply Nat.eqb_neq; lia).
  eexists. split; [exact G|].
  destruct (open_input_image_elim _ _ _ O)
    as (h & e & r & W & M & X & _ & I0).
  set (s := run_record CMD_SKIP (Z.of_nat (n + 1))) in *.
  destruct (open_written_file h e s DELTA_MAGIC W X lenZ_DELTA_MAGIC)
    as (OD & WD & XD).
  set (hD := set_magic h (takeZ IMAGE_MAGIC_SIZE DELTA_MAGIC)) in *.
  set (dl0 := initial_image hD e s) in *.
  assert (hdr img0 = h /\ hdr_extra img0 = e) as [Eh Ee] by (now subst img0).
  rewrite Eh, Ee, !app_assoc. rewrite <- (app_assoc _ _ e).
  set (hdrN := takeZ IMAGE_MAGIC_SIZE IMAGE_MAGIC ++ from_major_ver hD ++ e).
  assert (prepare_image_files file IMAGE_MAGIC
            ((takeZ IMAGE_MAGIC_SIZE DELTA_MAGIC ++ from_major_ver h ++ e) ++ s)
            DELTA_MAGIC IMAGE_MAGIC
          = Ok (img0, dl0, fresh_output hdrN)) as P.
  { rewrite prepare_image_files_eq, O, OD. cbn [bind].
    rewrite (header_check_Ok _ _ (header_check_same _ _ _ O L) dl0)
      by (now subst img0).
    cbn [bind]. unfold dl0.
    rewrite create_output_image_initial by (auto using lenZ_IMAGE_MAGIC).
    reflexivity. }
  assert (reader_ok img0) as K by (subst img0; apply initial_image_reader_ok).
  assert (0 <= csize img0) as C0 by (subst img0; apply initial_image_csize).
  assert (lone_cluster img0 dl0 = 0%nat /\ lone_cluster dl0 img0 = 0%nat)
    as [L1 L2].
  { assert (bbs_present dl0 = bbs_present img0) as Bd by (now rewrite I0).
    unfold lone_cluster. rewrite Bd, Hb. split; reflexivity. }
  destruct (read_events_split _ _ _ _ _ _ R)
    as (eso & old1 & es2 & Ro & R2 & _).
  (* the delta: one run of [n + 1] clusters, of which [n] are read *)
  assert (exists esd dl1,
             read_events n true dl0 = Ok (esd, dl1) /\ cmd_repeat dl1 = 1)
    as (esd & dl1 & Rd & Cd).
  { destruct n as [|k] eqn:Ek; [lia|].
    cbn [read_events].
    rewrite (read_next_cluster_run dl0 true CMD_SKIP (Z.of_nat (S k + 1)) []);
      [|cbn; lia|unfold dl0, s, run_record; cbn [fd initial_image];
                 now rewrite app_nil_r|now left|lia].
    cbn [bind].
    destruct (read_events_in_run_part k true
                (set_cmd_repeat (set_fd_cmd dl0 [] CMD_SKIP)
                   (Z.of_nat (S k + 1) - 1)) 1)
      as (es' & dl1 & Rd & Cd & _); [lia|cbn; lia|].
    rewrite Rd. cbn [bind]. eauto. }
  destruct (apply_patch_events _ _ _ _ _ eso esd old1 dl1 P Hcs) as [E [w Ew]].
  { fold n. now rewrite L1, Nat.add_0_r. }
  { fold n. now rewrite L2, Nat.add_0_r. }
  { rewrite L2. discriminate. }
  rewrite E, Ew. cbn [bind]. unfold finish, finish_image_files.
  destruct (cmd_repeat old1 >? 0) eqn:E1.
  - left. cbn [read_events] in R2. rewrite read_next_cluster_in_run in R2 by lia.
    cbn in R2. injection R2 as _ <-. cbn [cmd_repeat set_cmd_repeat] in C.
    replace (cmd_repeat old1) with 1 by lia. reflexivity.
  - right. destruct (cmd_repeat dl1 >? 0) eqn:E2; [|lia].
    rewrite Cd. reflexivity.
Qed.

(** ** Bytes after the last record are not read *)

Lemma read_all_more f room n got rest j :
  read_all f room n = Ok (got, rest) ->
  read_all (f ++ j) room n = Ok (got, rest ++ j).
Proof.
  intros H. destruct (read_all_Ok _ _ _ _ _ H) as (-> & Hp & Hn).
  destruct (Z.lt_ge_cases 0 n) as [L|L].
  - destruct (Hp L) as [Lg Lr]. rewrite <- app_assoc.
    now apply read_all_app.
  - rewrite (Hn ltac:(lia)) in *. unfold read_all.
    destruct (n <=? 0) eqn:E; [reflexivity|lia].
Qed.

Lemma open_input_image_more file magic0 img j :
  open_input_image file magic0 = Ok img ->
  open_input_image (file ++ j) magic0 = Ok (more j img).
Proof.
  intros O.
  destruct (open_input_image_elim _ _ _ O) as (h & e & r & W & M & X & -> & ->).
  rewrite <- !app_assoc. now apply open_input_image_intro.
Qed.

Lemma more_static j img : static (more j img) = static img.
Proof. reflexivity. Qed.

Lemma read_next_cluster_more img a img' j :
  read_next_cluster img a = Ok img' ->
  read_next_cluster (more j img) a = Ok (more j img').
Proof.
  unfold read_next_cluster. intros H.
  change (cmd_repeat (more j img)) with (cmd_repeat img).
  destruct (cmd_repeat img >? 0); [now injection H as <-|].
  change (fd (more j img)) with (fd img ++ j).
  inv_bind H. destruct x as [c fd1].
  rewrite (read_all_more _ _ _ _ _ j E). cbn [bind] in *.
  cbn [set_fd_cmd cmd fd] in *.
  destruct (_ || _).
  - inv_bind H. destruct x as [r fd2].
    rewrite (read_all_more _ _ _ _ _ j E0). cbn [bind] in *.
    cbn [set_cmd_repeat set_fd set_fd_cmd cmd_repeat] in *.
    destruct (sle64_to_cpu r =? 0); [discriminate|].
    now injection H as <-.
  - destruct (Byte.eqb _ _); [|discriminate].
    inv_bind H. destruct x as [d fd2].
    cbn [csize cdata set_fd_cmd set_fd more] in *.
    rewrite (read_all_more _ _ _ _ _ j E0). cbn [bind] in *.
    now injection H as <-.
Qed.

Lemma create_delta_step_more j1 j2 old new w old' new' w' :
  create_delta_step (old, new, w) = Ok (old', new', w') ->
  create_delta_step (more j1 old, more j2 new, w)
  = Ok (more j1 old', more j2 new', w').
Proof.
  unfold create_delta_step. intros H.
  inv_bind H. inv_bind H.
  rewrite (read_next_cluster_more _ _ _ j1 E).
  rewrite (read_next_cluster_more _ _ _ j2 E0). cbn [bind].
  change (cmd (more j1 x)) with (cmd x).
  change (cmd (more j2 x0)) with (cmd x0).
  change (cdata (more j1 x)) with (cdata x).
  change (cdata (more j2 x0)) with (cdata x0).
  change (csize (more j1 x)) with (csize x).
  change (csize (more j2 x0)) with (csize x0).
  inv_bind H. rewrite E1. cbn [bind].
  inv_bind H. rewrite E2. cbn [bind].
  now injection H as <- <- <-.
Qed.

Lemma apply_patch_step_more j1 j2 old dl w old' dl' w' :
  apply_patch_step (old, dl, w) = Ok (old', dl', w') ->
  apply_patch_step (more j1 old, more j2 dl, w)
  = Ok (more j1 old', more j2 dl', w').
Proof.
  unfold apply_patch_step. intros H.
  inv_bind H. inv_bind H.
  rewrite (read_next_cluster_more _ _ _ j1 E).
  rewrite (read_next_cluster_more _ _ _ j2 E0). cbn [bind].
  change (cmd (more j1 x)) with (cmd x).
  change (cmd (more j2 x0)) with (cmd x0).
  change (cdata (more j1 x)) with (cdata x).
  change (cdata (more j2 x0)) with (cdata x0).
  change (csize (more j1 x)) with (csize x).
  change (csize (more j2 x0)) with (csize x0).
  inv_bind H. rewrite E1. cbn [bind].
  now injection H as <- <- <-.
Qed.

Lemma for_loop_more j1 j2 body :
  (forall a b w a' b' w',
      body (a, b, w) = Ok (a', b', w') ->
      body (more j1 a, more j2 b, w) = Ok (more j1 a', more j2 b', w')) ->
  forall n a b w a' b' w',
    for_loop n body (a, b, w) = Ok (a', b', w') ->
    for_loop n body (more j1 a, more j2 b, w)
    = Ok (more j1 a', more j2 b', w').
Proof.
  intros Hb. induction n as [|n IH]; intros a b w a' b' w' H.
  - now injection H as <- <- <-.
  - cbn [for_loop] in *. inv_bind H. destruct x as [[a1 b1] w1].
    rewrite (Hb _ _ _ _ _ _ E). cbn [bind]. now apply IH.
Qed.

Lemma lone_backup_boot_sector_more j1 j2 a b w a' b' w' :
  lone_backup_boot_sector (a, b, w) = Ok (a', b', w') ->
  lone_backup_boot_sector (more j1 a, more j2 b, w)
  = Ok (more j1 a', more j2 b', w').
Proof.
  unfold lone_backup_boot_sector. intros H.
  change (bbs_present (more j1 a)) with (bbs_present a).
  change (bbs_present (more j2 b)) with (bbs_present b).
  destruct (_ && _).
  - inv_bind H. rewrite (read_next_cluster_more _ _ _ j1 E). cbn [bind].
    now injection H as <- <- <-.
  - destruct (_ && _).
    + inv_bind H. rewrite (read_next_cluster_more _ _ _ j2 E). cbn [bind].
      change (cdata (more j2 x)) with (cdata x).
      change (csize (more j2 x)) with (csize x).
      inv_bind H. rewrite E0. cbn [bind]. now injection H as <- <- <-.
    + now injection H as <- <- <-.
Qed.

Lemma header_check_more j1 j2 a b :
  header_check (more j1 a) (more j2 b) = header_check a b.
Proof. reflexivity. Qed.

(** An operation that went well did not read past the last record it
    needed: whatever bytes follow in either input, it goes well again
    and writes the same output. *)
Theorem trailing_bytes_are_not_read
    (operation : list byte -> list byte -> outcome (list byte))
    (file1 file2 out : list byte) :
  operation = create_delta \/ operation = apply_patch ->
  operation file1 file2 = Ok out ->
  forall j1 j2, operation (file1 ++ j1) (file2 ++ j2) = Ok out.
Proof.
  intros [-> | ->] G j1 j2.
  - pose proof G as G0. unfold create_delta in G0. inv_bind G0.
    destruct x as [[old0 new0] w0].
    destruct (prepare_image_files_Ok _ _ _ _ _ _ _ _ E lenZ_DELTA_MAGIC)
      as (O1 & O2 & HC & _).
    pose proof (prepare_image_files_output _ _ _ _ _ _ _ _ E) as CO.
    inv_bind G0. destruct x as [[old1 new1] w1].
    inv_bind G0. destruct x as [[old2 new2] w2].
    rewrite (create_delta_opened _ _ _ _
               (open_input_image_more _ _ _ j1 O1)
               (open_input_image_more _ _ _ j2 O2)).
    rewrite header_check_more, HC. cbn [bind].
    change (create_output_image DELTA_MAGIC (more j2 new0))
      with (create_output_image DELTA_MAGIC new0).
    rewrite CO. cbn [bind].
    change (bbs_present (more j1 old0)) with (bbs_present old0).
    change (bbs_present (more j2 new0)) with (bbs_present new0).
    change (ccount (more j1 old0)) with (ccount old0).
    rewrite (for_loop_more j1 j2 _ (create_delta_step_more j1 j2) _ _ _ _ _ _ _ E0).
    cbn [bind].
    rewrite (lone_backup_boot_sector_more j1 j2 _ _ _ _ _ _ E1). cbn [bind].
    exact G0.
  - pose proof G as G0. unfold apply_patch in G0. inv_bind G0.
    destruct x as [[old0 dl0] w0].
    destruct (prepare_image_files_Ok _ _ _ _ _ _ _ _ E lenZ_IMAGE_MAGIC)
      as (O1 & O2 & HC & _).
    pose proof (prepare_image_files_output _ _ _ _ _ _ _ _ E) as CO.
    inv_bind G0. destruct x as [[old1 dl1] w1].
    inv_bind G0. destruct x as [[old2 dl2] w2].
    rewrite (apply_patch_opened _ _ _ _
               (open_input_image_more _ _ _ j1 O1)
               (open_input_image_more _ _ _ j2 O2)).
    rewrite header_check_more, HC. cbn [bind].
    change (create_output_image IMAGE_MAGIC (more j2 dl0))
      with (create_output_image IMAGE_MAGIC dl0).
    rewrite CO. cbn [bind].
    change (ccount (more j1 old0)) with (ccount old0).
    change (apply_patch_loop_bound old0 dl0) with (ccount old0) in E0.
    rewrite (for_loop_more j1 j2 _ (apply_patch_step_more j1 j2) _ _ _ _ _ _ _ E0).
    cbn [bind].
    rewrite (lone_backup_boot_sector_more j1 j2 _ _ _ _ _ _ E1). cbn [bind].
    exact G0.
Qed.

(** ** Records at the edge of the format *)

Lemma read_all_Fatal f room n e : read_all f room n = Fatal e -> e = read_eof.
Proof.
  unfold read_all. destruct (n <=? 0); [discriminate|].
  destruct (room <? _); [discriminate|].
  destruct (_ <? n); [|discriminate]. now intros [= <-].
Qed.

(** A run record whose count is negative is taken without complaint:
    the call that reads it delivers the event of its tag and leaves the
    count less one, in 64 bits.  For every count but the least, that is
    below zero: the record stands for one cluster, the next call reads
    the record that follows, and [finish] does not report it.  For the
    least count, [- 2 ^ 63], the decrement wraps around to [2 ^ 63 - 1]:
    the reader is within a run, the next call delivers the same event
    without reading the file, and [finish] reports clusters left over in
    the second input (as [-1], the count converted to [int]). *)
Theorem negative_repeat_count_is_accepted
    (img : input_image) (a : bool) (c : byte) (r : Z) (rest : list byte) :
  cmd_repeat img <= 0 ->
  fd img = c :: cpu_to_sle64 r ++ rest ->
  c = CMD_SKIP \/ (a = true /\ c = CMD_DROP) ->
  - 2 ^ 63 <= r < 0 ->
  exists img',
    read_events 1 a img = Ok ([tag_event c], img')
    /\ fd img' = rest /\ cmd_repeat img' = to_int64 (r - 1)
    /\ (- 2 ^ 63 < r ->
        cmd_repeat img' = r - 1
        /\ forall img1 w,
             cmd_repeat img1 <= 0 ->
             exists out, finish (img1, img', w) = Ok out)
    /\ (r = - 2 ^ 63 ->
        cmd_repeat img' = 2 ^ 63 - 1
        /\ (forall b, exists img'',
              read_events 1 b img' = Ok ([tag_event c], img'')
              /\ fd img'' = rest /\ cmd_repeat img'' = 2 ^ 63 - 2)
        /\ forall img1 w,
             cmd_repeat img1 <= 0 ->
             finish (img1, img', w) = Fatal (second_remaining (-1))).
Proof.
  intros Hrep Hfd Hc Hr.
  assert (read_next_cluster img a
          = Ok (set_cmd_repeat (set_fd_cmd img rest c) (to_int64 (r - 1))))
    as R.
  { unfold read_next_cluster.
    destruct (cmd_repeat img >? 0) eqn:E; [lia|].
    rewrite Hfd. change (c :: cpu_to_sle64 r ++ rest)
      with ([c] ++ (cpu_to_sle64 r ++ rest)).
    rewrite read_all_app by (reflexivity || lia). cbn.
    replace (Byte.eqb c CMD_SKIP || (a && Byte.eqb c CMD_DROP)) with true.
    2:{ symmetry. destruct Hc as [->|[-> ->]]; reflexivity. }
    rewrite read_all_app; try lia.
    2:{ unfold lenZ. now rewrite length_cpu_to_sle64. }
    cbn. rewrite sle64_to_cpu_to_sle64 by lia.
    destruct (r =? 0) eqn:E0; [lia|]. reflexivity. }
  assert (event_of (set_fd_cmd img rest c) = tag_event c) as Ev.
  { destruct Hc as [->|[_ ->]]; reflexivity. }
  exists (set_cmd_repeat (set_fd_cmd img rest c) (to_int64 (r - 1))).
  split; [|split; [reflexivity|split; [reflexivity|split]]].
  - cbn [read_events]. rewrite R. cbn [bind]. f_equal. f_equal. f_equal.
    exact Ev.
  - intros Hlow. cbn [cmd_repeat set_cmd_repeat].
    rewrite to_int64_small by lia. split; [reflexivity|].
    intros img1 w H1. rewrite finish_flush by (cbn; lia).
    destruct (write_pending_cmd_total w) as [w' ->]. cbn. eauto.
  - intros ->. cbn [cmd_repeat set_cmd_repeat].
    assert (to_int64 (- 2 ^ 63 - 1) = 2 ^ 63 - 1) as -> by reflexivity.
    split; [reflexivity|]. split.
    + intros b.
      exists (set_cmd_repeat (set_fd_cmd img rest c) (2 ^ 63 - 2)).
      split; [|split; reflexivity].
      cbn [read_events]. unfold read_next_cluster.
      cbn [cmd_repeat set_cmd_repeat].
      destruct (2 ^ 63 - 1 >? 0) eqn:E; [|lia].
      cbn [bind set_cmd_repeat fd hdr hdr_extra hdr_extra_len csize ccount
             bbs_present cmd cdata].
      f_equal. f_equal. f_equal. exact Ev.
    + intros img1 w H1. unfold finish, finish_image_files.
      destruct (cmd_repeat img1 >? 0) eqn:E1; [lia|].
      cbn [cmd_repeat set_cmd_repeat].
      destruct (2 ^ 63 - 1 >? 0) eqn:E; [|lia]. reflexivity.
Qed.

(** The command codes.  At a record boundary, [read_next_cluster] ends
    with "Invalid command code" exactly when the tag is neither the skip
    nor the data code, nor the drop code with the drop command allowed:
    a drop record is invalid in an image and valid in a delta read by the
    loop of [apply_patch]. *)
Theorem command_codes
    (img : input_image) (a : bool) (c : byte) (rest : list byte) :
  cmd_repeat img <= 0 -> fd img = c :: rest ->
  (read_next_cluster img a = Fatal invalid_cmd
   <-> c <> CMD_SKIP /\ c <> CMD_DATA /\ ~ (a = true /\ c = CMD_DROP)).
Proof.
  intros Hrep Hfd. unfold read_next_cluster.
  destruct (cmd_repeat img >? 0) eqn:E; [lia|].
  rewrite Hfd. change (c :: rest) with ([c] ++ rest).
  rewrite read_all_app by (reflexivity || lia).
  cbn [bind set_fd_cmd set_fd cmd fd hd csize cdata].
  assert (forall (k : list byte * list byte -> outcome input_image) f room n,
            (forall x, k x <> Fatal invalid_cmd) ->
            (x <- read_all f room n ;; k x) <> Fatal invalid_cmd) as Hk.
  { intros k f room n H. destruct (read_all f room n) as [x|e|] eqn:R.
    - apply H.
    - apply read_all_Fatal in R. subst e. discriminate.
    - discriminate. }
  destruct (Byte.eqb c CMD_SKIP) eqn:Es.
  - apply byte_eqb_eq in Es. cbn [orb]. split; [|tauto].
    intros H. exfalso. revert H. apply Hk. intros [r fd2].
    cbn [set_cmd_repeat cmd_repeat]. destruct (_ =? 0); discriminate.
  - apply byte_eqb_neq in Es. cbn [orb].
    destruct (a && Byte.eqb c CMD_DROP) eqn:Ed.
    + apply andb_true_iff in Ed. destruct Ed as [-> Ed].
      apply byte_eqb_eq in Ed. split; [|tauto].
      intros H. exfalso. revert H. apply Hk. intros [r fd2].
      cbn [set_cmd_repeat cmd_repeat]. destruct (_ =? 0); discriminate.
    + destruct (Byte.eqb c CMD_DATA) eqn:Et.
      * apply byte_eqb_eq in Et. split; [|tauto].
        intros H. exfalso. revert H. apply Hk. intros [d fd2]. discriminate.
      * apply byte_eqb_neq in Et. split; [|reflexivity].
        intros _. split; [assumption|]. split; [assumption|].
        intros [-> Hd]. rewrite (proj2 (byte_eqb_eq _ _) Hd) in Ed.
        discriminate.
Qed.

(** The data offset of the header is not checked.  One that is below the
    size of the header gives, in 32-bit unsigned arithmetic, an extra
    length of almost 4 GiB; its conversion to [int] is negative, so that
    no byte of an extra block is read and the command stream is taken to
    start right after the 50 bytes of the header.  Given as second input
    beside a first input that has no extra block and the same compared
    fields, the file passes the cross-check, and the header of the
    output is the magic and the 34 header bytes of this file, low offset
    included, with no extra block after them. *)
Theorem data_offset_below_the_header
    (h : image_hdr) (rest magic0 : list byte) :
  hdr_wf h -> magic h = takeZ IMAGE_MAGIC_SIZE magic0 ->
  le32_to_cpu (offset_to_image_data h) < sizeof_image_hdr ->
  let img := initial_image h [] rest in
  open_input_image (hdr_bytes h ++ rest) magic0 = Ok img
  /\ fd img = rest /\ hdr_extra img = []
  /\ hdr_extra_len img
     = 2 ^ 32 - (sizeof_image_hdr - le32_to_cpu (offset_to_image_data h))
  /\ forall file1 magic1 magic3 img1,
       open_input_image file1 magic1 = Ok img1 ->
       hdr_extra_len img1 = 0 ->
       compared_fields (hdr img1) = compared_fields h ->
       IMAGE_MAGIC_SIZE <= lenZ magic3 ->
       prepare_image_files file1 magic1 (hdr_bytes h ++ rest) magic0 magic3
       = Ok (img1, img,
             fresh_output (takeZ IMAGE_MAGIC_SIZE magic3 ++ from_major_ver h)).
Proof.
  intros W M Hoff img.
  pose proof (le_combine_bound (offset_to_image_data h)) as Hb.
  destruct W as (Lm & Lc & Ld & Ln & Li & Lo & Hv) eqn:EW. clear EW.
  rewrite Lo in Hb. change (2 ^ (8 * Z.of_nat 4)) with (2 ^ 32) in Hb.
  fold (le32_to_cpu (offset_to_image_data h)) in Hb.
  assert (extra_len_of h
          = 2 ^ 32 - (sizeof_image_hdr - le32_to_cpu (offset_to_image_data h)))
    as Hlen.
  { unfold extra_len_of, to_uint32. consts.
    symmetry. apply Z.mod_unique_pos with (q := -1); lia. }
  assert (to_int (extra_len_of h) < 0) as Hint.
  { rewrite Hlen. unfold to_int. consts.
    replace (2 ^ 32 - (50 - le32_to_cpu (offset_to_image_data h)) + 2 ^ 31)
      with (le32_to_cpu (offset_to_image_data h) - 50 + 2 ^ 31 + 1 * 2 ^ 32)
      by lia.
    rewrite Z.mod_add by lia. rewrite Z.mod_small; lia. }
  assert (extra_ok h []) as X.
  { unfold extra_ok. destruct (0 <? to_int (extra_len_of h)) eqn:E; [lia|].
    reflexivity. }
  assert (open_input_image (hdr_bytes h ++ rest) magic0 = Ok img) as O.
  { apply (open_input_image_intro h [] rest magic0 W M X). }
  split; [exact O|]. split; [reflexivity|]. split; [reflexivity|].
  split; [exact Hlen|].
  intros file1 magic1 magic3 img1 O1 Hno Hcf Hm3.
  destruct (open_input_image_elim _ _ _ O1)
    as (h1 & e1 & r1 & W1 & _ & _ & _ & ->).
  cbn [hdr hdr_extra_len initial_image] in Hcf, Hno.
  rewrite prepare_image_files_eq, O1, O. cbn [bind]. unfold img.
  rewrite header_check_cases by assumption.
  rewrite Hcf, bytes_eqb_refl. cbn [negb].
  destruct (extra_len_of h1 =? 0) eqn:E0; [|lia]. cbn [bind].
  rewrite create_output_image_initial by assumption.
  cbn [bind]. now rewrite app_nil_r.
Qed.

Lemma open_ccount_range file magic0 img :
  open_input_image file magic0 = Ok img -> - 2 ^ 63 <= ccount img < 2 ^ 63.
Proof.
  intros O.
  destruct (open_input_image_elim _ _ _ O) as (? & ? & ? & _ & _ & _ & _ & ->).
  apply initial_image_ccount.
Qed.

Lemma open_bbs_present file magic0 img :
  open_input_image file magic0 = Ok img ->
  bbs_present img = 0 \/ bbs_present img = 1.
Proof.
  intros O.
  destruct (open_input_image_elim _ _ _ O) as (? & ? & ? & _ & _ & _ & _ & ->).
  apply initial_image_bbs.
Qed.

(** An image of no cluster.  When the cluster count of OLD, its backup
    boot sector counted, is zero or below, and NEW agrees with OLD on
    having a backup boot sector, [create_delta] writes the header and
    nothing else, and reads no record of either input; so does
    [apply_patch] when the cluster count of OLD itself is zero or below.
    A negative count is a count of zero. *)
Theorem no_cluster_no_record
    (file1 file2 : list byte) (old0 img2 : input_image) (w0 : output_image) :
  bbs_present old0 = bbs_present img2 ->
  (prepare_image_files file1 IMAGE_MAGIC file2 IMAGE_MAGIC DELTA_MAGIC
   = Ok (old0, img2, w0) ->
   ccount old0 + bbs_present old0 <= 0 ->
   create_delta file1 file2 = Ok (out_fd w0))
  /\ (prepare_image_files file1 IMAGE_MAGIC file2 DELTA_MAGIC IMAGE_MAGIC
      = Ok (old0, img2, w0) ->
      ccount old0 <= 0 ->
      apply_patch file1 file2 = Ok (out_fd w0)).
Proof.
  intros Hb.
  assert (forall st : images,
            st = (old0, img2, w0) ->
            cmd_repeat old0 = 0 -> cmd_repeat img2 = 0 ->
            out_cmd w0 = CMD_DATA ->
            (st <- lone_backup_boot_sector st ;; finish st) = Ok (out_fd w0))
    as Tail.
  { intros st -> R1 R2 Cw. unfold lone_backup_boot_sector. rewrite <- Hb.
    assert ((bbs_present old0 =? 1) && (bbs_present old0 =? 0) = false) as ->.
    { destruct (bbs_present old0 =? 1) eqn:E; [|reflexivity].
      apply Z.eqb_eq in E. now rewrite E. }
    assert ((bbs_present old0 =? 0) && (bbs_present old0 =? 1) = false) as ->.
    { destruct (bbs_present old0 =? 0) eqn:E; [|reflexivity].
      apply Z.eqb_eq in E. now rewrite E. }
    cbn [bind]. rewrite finish_flush by lia.
    unfold write_pending_cmd. rewrite Cw. reflexivity. }
  assert (forall m1 m2 m3,
            IMAGE_MAGIC_SIZE <= lenZ m3 ->
            prepare_image_files file1 m1 file2 m2 m3 = Ok (old0, img2, w0) ->
            cmd_repeat old0 = 0 /\ cmd_repeat img2 = 0 /\ out_cmd w0 = CMD_DATA)
    as Init.
  { intros m1 m2 m3 L P.
    destruct (prepare_image_files_Ok _ _ _ _ _ _ _ _ P L) as (O1 & O2 & _ & ->).
    destruct (open_input_image_elim _ _ _ O1) as (? & ? & ? & _ & _ & _ & _ & ->).
    destruct (open_input_image_elim _ _ _ O2) as (? & ? & ? & _ & _ & _ & _ & ->).
    auto. }
  split; intros P Hc.
  - destruct (Init _ _ _ lenZ_DELTA_MAGIC P) as (R1 & R2 & Cw).
    unfold create_delta. rewrite P. cbn [bind].
    assert (Z.to_nat (if (bbs_present old0 =? 1) && (bbs_present img2 =? 1)
                      then to_int64 (ccount old0 + 1) else ccount old0)
            = 0%nat) as ->.
    { rewrite <- Hb, andb_diag.
      destruct (bbs_present old0 =? 1) eqn:E.
      - apply Z.eqb_eq in E. pose proof (to_int64_range (ccount old0 + 1)).
        destruct (open_ccount_range file1 IMAGE_MAGIC old0) as [? ?].
        { now destruct (prepare_image_files_Ok _ _ _ _ _ _ _ _ P
                          lenZ_DELTA_MAGIC). }
        rewrite to_int64_small by lia. lia.
      - apply Z.eqb_neq in E.
        destruct (open_bbs_present file1 IMAGE_MAGIC old0) as [Hz|Hz];
          [now destruct (prepare_image_files_Ok _ _ _ _ _ _ _ _ P
                           lenZ_DELTA_MAGIC) | lia | contradiction]. }
    cbn [for_loop bind]. now apply Tail.
  - destruct (Init _ _ _ lenZ_IMAGE_MAGIC P) as (R1 & R2 & Cw).
    unfold apply_patch. rewrite P. cbn [bind].
    change (apply_patch_loop_bound old0 img2) with (ccount old0).
    assert (Z.to_nat (ccount old0) = 0%nat) as -> by lia.
    cbn [for_loop bind]. now apply Tail.
Qed.

(** ** What [apply_patch] takes from OLD *)

Lemma zip_with_patch_agree esd : forall eso eso',
  length eso = length eso' ->
  (forall i, nth i esd Drop = Skip -> nth i eso Skip = nth i eso' Skip) ->
  zip_with patch_event eso esd = zip_with patch_event eso' esd.
Proof.
  induction esd as [|ed esd IH]; intros eso eso' L H.
  - now rewrite !zip_with_nil_r.
  - destruct eso as [|eo eso], eso' as [|eo' eso']; try discriminate;
      [reflexivity|].
    cbn [zip_with]. f_equal.
    + destruct ed; [|reflexivity|reflexivity].
      exact (H 0%nat eq_refl).
    + apply IH; [now injection L|]. intros i Hi. exact (H (S i) Hi).
Qed.

(** [apply_patch] takes from OLD the clusters that the delta skips, and
    nothing else.  Let two images pass the cross-check with the same
    delta, with a cluster size within the cluster buffer, and have the
    same version flag; let the clusters the operation takes from the
    three files be read without error, the lone last cluster of the
    delta, if it has one, not from a drop record; let neither image be
    left within a run; and let the two images deliver the same cluster
    wherever the delta has a skip.  Then [apply_patch] ends in the same
    way on both: with the same output when the delta is not left within
    a run, and otherwise with the error that reports the clusters left
    over in the second input. *)
Theorem apply_patch_reads_old_where_the_delta_skips
    (file1 file1' file2 : list byte)
    (old0 old0' dl0 dl0' old1 old1' dl1 : input_image)
    (w0 w0' : output_image) (eso eso' esd : list event) :
  prepare_image_files file1 IMAGE_MAGIC file2 DELTA_MAGIC IMAGE_MAGIC
  = Ok (old0, dl0, w0) ->
  prepare_image_files file1' IMAGE_MAGIC file2 DELTA_MAGIC IMAGE_MAGIC
  = Ok (old0', dl0', w0') ->
  csize old0 <= NTFS_MAX_CLUSTER_SIZE ->
  bbs_present old0 = bbs_present old0' ->
  let n := Z.to_nat (ccount old0) in
  read_events (n + lone_cluster old0 dl0) false old0 = Ok (eso, old1) ->
  read_events (n + lone_cluster old0' dl0) false old0' = Ok (eso', old1') ->
  read_events (n + lone_cluster dl0 old0) true dl0 = Ok (esd, dl1) ->
  (lone_cluster dl0 old0 = 1%nat -> cmd dl1 <> CMD_DROP) ->
  cmd_repeat old1 <= 0 -> cmd_repeat old1' <= 0 ->
  (forall i, nth i esd Drop = Skip -> nth i eso Skip = nth i eso' Skip) ->
  apply_patch file1 file2 = apply_patch file1' file2
  /\ (cmd_repeat dl1 <= 0 -> exists out, apply_patch file1' file2 = Ok out)
  /\ (0 < cmd_repeat dl1 ->
      apply_patch file1' file2
      = Fatal (second_remaining (to_int (cmd_repeat dl1)))).
Proof.
  intros P P' Hcs Hb n Eo Eo' Ed Hd Ro Ro' Agree.
  assert (NTFS_MAX_CLUSTER_SIZE = 65536) as HM by reflexivity.
  destruct (prepare_image_files_Ok _ _ _ _ _ _ _ _ P lenZ_IMAGE_MAGIC)
    as (O1 & O2 & HC & _).
  assert (dl0' = dl0) as ->.
  { destruct (prepare_image_files_Ok _ _ _ _ _ _ _ _ P' lenZ_IMAGE_MAGIC)
      as (_ & O2' & _). congruence. }
  destruct (prepare_image_files_Ok _ _ _ _ _ _ _ _ P' lenZ_IMAGE_MAGIC)
    as (O1' & _ & HC' & _).
  destruct (open_input_image_elim _ _ _ O1)
    as (h1 & e1 & r1 & W1 & _ & _ & _ & I1).
  destruct (open_input_image_elim _ _ _ O1')
    as (h1' & e1' & r1' & W1' & _ & _ & _ & I1').
  destruct (open_input_image_elim _ _ _ O2)
    as (h2 & e2 & r2 & W2 & _ & _ & _ & I2).
  assert (csize old0' = csize old0 /\ ccount old0' = ccount old0) as [Ecs Ecc].
  { subst old0 old0' dl0.
    destruct (header_check_fields _ _ _ _ _ _ W1 W2 HC) as [Q1 Q2].
    destruct (header_check_fields _ _ _ _ _ _ W1' W2 HC') as [Q1' Q2'].
    cbn [csize ccount initial_image]. now rewrite Q1, Q2, Q1', Q2'. }
  assert (lone_cluster old0' dl0 = lone_cluster old0 dl0
          /\ lone_cluster dl0 old0' = lone_cluster dl0 old0) as [L1 L2].
  { unfold lone_cluster. now rewrite Hb. }
  assert (reader_ok old0 /\ reader_ok old0') as [K K'].
  { subst old0 old0'. split; apply initial_image_reader_ok. }
  assert (0 <= csize old0) as C0 by (subst old0; apply initial_image_csize).
  destruct (apply_patch_events _ _ _ _ _ _ _ _ _ P Hcs Eo Ed Hd) as [E [w Ew]].
  destruct (apply_patch_events file1' file2 old0' dl0 w0' eso' esd old1' dl1 P')
    as [E' [w' Ew']];
    [lia | rewrite Ecc; exact Eo' | rewrite Ecc, L2; exact Ed
     | rewrite L2; exact Hd |].
  destruct (read_events_facts _ _ _ _ Eo K) as (_ & _ & Lo & _); [lia|].
  destruct (read_events_facts _ _ _ _ Eo' K') as (_ & _ & Lo' & _); [lia|].
  assert (zip_with patch_event eso esd = zip_with patch_event eso' esd) as Z
    by (apply zip_with_patch_agree; [congruence|assumption]).
  assert (kept_cluster old0' dl1 = kept_cluster old0 dl1) as Kc
    by (unfold kept_cluster; now rewrite Hb).
  assert (w0' = w0) as ->.
  { pose proof (prepare_image_files_output _ _ _ _ _ _ _ _ P).
    pose proof (prepare_image_files_output _ _ _ _ _ _ _ _ P'). congruence. }
  rewrite <- Z, Kc in E', Ew'.
  assert (w' = w) as -> by congruence.
  rewrite E, E', Ew. cbn [bind].
  assert (forall o,
             cmd_repeat o <= 0 ->
             finish (o, dl1, w)
             = if cmd_repeat dl1 >? 0
               then Fatal (second_remaining (to_int (cmd_repeat dl1)))
               else (w' <- write_pending_cmd w ;; Ok (out_fd w'))) as F.
  { intros o Ho. unfold finish, finish_image_files.
    destruct (cmd_repeat o >? 0) eqn:E1; [lia|].
    destruct (cmd_repeat dl1 >? 0); reflexivity. }
  rewrite !F by assumption.
  split; [reflexivity|]. split; intros Rd.
  - destruct (cmd_repeat dl1 >? 0) eqn:E2; [lia|].
    destruct (write_pending_cmd_total w) as [w2 ->]. cbn. eauto.
  - destruct (cmd_repeat dl1 >? 0) eqn:E2; [reflexivity|lia].
Qed.

(** ** The further properties on the example images *)

Lemma prepared_is_ok file1 magic1 file2 magic2 magic3 :
  is_ok (prepare_image_files file1 magic1 file2 magic2 magic3) = true ->
  prepare_image_files file1 magic1 file2 magic2 magic3
  = Ok (fst (fst (prepared file1 magic1 file2 magic2 magic3)),
        snd (fst (prepared file1 magic1 file2 magic2 magic3)),
        snd (prepared file1 magic1 file2 magic2 magic3)).
Proof. apply force_is_ok_triple. Qed.

Lemma events_read_ok n a img :
  is_ok (read_events n a img) = true ->
  read_events n a img
  = Ok (fst (events_read n a img), snd (events_read n a img)).
Proof. apply force_is_ok_pair. Qed.

Ltac count_is k :=
  match goal with
  | |- read_events ?n _ _ = _ => replace n with k by (vm_compute; reflexivity)
  end.

(** The empty file, a delta opened as an image, and a file of version
    9.0. *)
Lemma open_input_image_rejects_witness :
  open_input_image [] IMAGE_MAGIC = Fatal read_eof
  /\ open_input_image ex_delta IMAGE_MAGIC = Fatal bad_magic
  /\ open_input_image version_nine IMAGE_MAGIC
     = Fatal (bad_version (byte.of_Z 9) Byte.x00).
Proof.
  split; [|split].
  - apply (proj1 (open_input_image_rejects [] IMAGE_MAGIC)).
    vm_compute. reflexivity.
  - apply (proj1 (proj2 (open_input_image_rejects ex_delta IMAGE_MAGIC)));
      vm_compute; [discriminate|discriminate].
  - apply (proj1 (proj2 (proj2
                   (open_input_image_rejects version_nine IMAGE_MAGIC)))).
    + vm_compute. discriminate.
    + vm_compute. reflexivity.
    + intros [H _]. vm_compute in H. discriminate H.
Defined.

(** The delta of the example images, given where an image is expected. *)
Lemma image_and_delta_witness :
  create_delta ex_delta ex_new = Fatal bad_magic
  /\ create_delta ex_old ex_delta = Fatal bad_magic.
Proof.
  destruct (proj1 (image_and_delta_are_told_apart ex_delta
                     (opened ex_delta DELTA_MAGIC)))
    as (_ & H1 & _ & H2).
  - apply opened_is_ok. vm_compute. reflexivity.
  - split; [apply H1|].
    apply (H2 ex_old (opened ex_old IMAGE_MAGIC)).
    apply opened_is_ok. vm_compute. reflexivity.
Defined.

(** Five events written under the header of [ex_old], as a delta. *)
Lemma written_image_reads_back_witness :
  exists file img0 img',
    write_image DELTA_MAGIC (opened ex_old IMAGE_MAGIC) ex_events = Ok file
    /\ open_input_image file DELTA_MAGIC = Ok img0
    /\ read_events 5 true img0 = Ok (ex_events, img').
Proof.
  destruct (written_image_reads_back ex_old IMAGE_MAGIC DELTA_MAGIC
              (opened ex_old IMAGE_MAGIC) ex_events)
    as (file & img0 & img' & W & O & _ & _ & _ & _ & _ & R & _).
  - apply opened_is_ok. vm_compute. reflexivity.
  - apply lenZ_DELTA_MAGIC.
  - vm_compute. discriminate.
  - unfold ex_events.
    repeat (constructor; [first [exact I | vm_compute; reflexivity]|]).
    constructor.
  - vm_compute. reflexivity.
  - exists file, img0, img'. split; [exact W|]. split; [exact O|exact R].
Defined.

(** The delta of the two example images. *)
Lemma create_delta_on_events_witness :
  create_delta ex_old ex_new
  = write_image DELTA_MAGIC (opened ex_new IMAGE_MAGIC)
      [Skip; Data ex_c; Drop; Drop].
Proof.
  pose (p := prepared ex_old IMAGE_MAGIC ex_new IMAGE_MAGIC DELTA_MAGIC).
  pose (old0 := fst (fst p)).
  pose (new0 := snd (fst p)).
  pose (ro := events_read 4 false old0).
  pose (rn := events_read 4 false new0).
  destruct (create_delta_on_events ex_old ex_new old0 new0 (snd ro) (snd rn)
              (snd p) (fst ro) (fst rn)) as [E _].
  - apply prepared_is_ok. vm_compute. reflexivity.
  - vm_compute. discriminate.
  - count_is 4%nat. apply events_read_ok. vm_compute. reflexivity.
  - count_is 4%nat. apply events_read_ok. vm_compute. reflexivity.
  - vm_compute. discriminate.
  - vm_compute. discriminate.
  - rewrite E. vm_compute. reflexivity.
Defined.

(** The delta of the two example images, applied to the first. *)
Lemma apply_patch_on_events_witness :
  apply_patch ex_old ex_delta
  = write_image IMAGE_MAGIC (opened ex_delta DELTA_MAGIC)
      [Data ex_a; Data ex_c; Skip; Skip].
Proof.
  pose (p := prepared ex_old IMAGE_MAGIC ex_delta DELTA_MAGIC IMAGE_MAGIC).
  pose (old0 := fst (fst p)).
  pose (dl0 := snd (fst p)).
  pose (ro := events_read 4 false old0).
  pose (rd := events_read 4 true dl0).
  destruct (apply_patch_on_events ex_old ex_delta old0 dl0 (snd ro) (snd rd)
              (snd p) (fst ro) (fst rd)) as [E _].
  - apply prepared_is_ok. vm_compute. reflexivity.
  - vm_compute. discriminate.
  - count_is 4%nat. apply events_read_ok. vm_compute. reflexivity.
  - count_is 4%nat. apply events_read_ok. vm_compute. reflexivity.
  - vm_compute. discriminate.
  - vm_compute. discriminate.
  - vm_compute. discriminate.
  - rewrite E. vm_compute. reflexivity.
Defined.

(** A delta of one cluster, applied to an image of one cluster whose skip
    record counts two. *)
Lemma apply_patch_unused_clusters_witness :
  apply_patch long_run
    (image_file DELTA_MAGIC 0 2 2 1 0 [] (run_record CMD_SKIP 1))
  = Fatal (first_remaining 1).
Proof.
  pose (d := image_file DELTA_MAGIC 0 2 2 1 0 [] (run_record CMD_SKIP 1)).
  pose (p := prepared long_run IMAGE_MAGIC d DELTA_MAGIC IMAGE_MAGIC).
  pose (old0 := fst (fst p)).
  pose (dl0 := snd (fst p)).
  pose (ro := events_read 1 false old0).
  pose (rd := events_read 1 true dl0).
  destruct (apply_patch_unused_clusters long_run d old0 dl0 (snd ro) (snd rd)
              (snd p) (fst ro) (fst rd)) as [E _].
  - apply prepared_is_ok. vm_compute. reflexivity.
  - vm_compute. discriminate.
  - apply events_read_ok. vm_compute. reflexivity.
  - apply events_read_ok. vm_compute. reflexivity.
  - vm_compute. discriminate.
  - fold d. rewrite E by (vm_compute; reflexivity). vm_compute. reflexivity.
Defined.

(** The delta of [ex_old] with itself: one skip record of count 4. *)
Lemma delta_of_an_image_with_itself_witness :
  exists hdr0,
    create_delta ex_old ex_old = Ok (hdr0 ++ run_record CMD_SKIP 4).
Proof.
  pose (old0 := opened ex_old IMAGE_MAGIC).
  pose (ro := events_read 4 false old0).
  pose proof (delta_of_an_image_with_itself ex_old old0 (snd ro) (fst ro)) as H.
  cbv zeta in H.
  replace (Z.to_nat (if bbs_present old0 =? 1
                     then to_int64 (ccount old0 + 1) else ccount old0))
    with 4%nat in H by (vm_compute; reflexivity).
  eexists. rewrite (fun a b c d e => proj1 (H a b c d e)).
  - cbn [Nat.eqb]. rewrite !app_assoc. reflexivity.
  - apply opened_is_ok. vm_compute. reflexivity.
  - vm_compute. discriminate.
  - vm_compute. discriminate.
  - apply events_read_ok. vm_compute. reflexivity.
  - vm_compute. discriminate.
Defined.

(** The delta of [bbs_old] with itself does not apply to [bbs_old]. *)
Lemma identity_delta_witness :
  exists delta_file e,
    create_delta bbs_old bbs_old = Ok delta_file
    /\ apply_patch bbs_old delta_file = Fatal e.
Proof.
  pose (old0 := opened bbs_old IMAGE_MAGIC).
  pose (ro := events_read 2 false old0).
  destruct (identity_delta_with_backup_boot_sector bbs_old old0 (snd ro) (fst ro))
    as (d & G & [A|A]).
  - apply opened_is_ok. vm_compute. reflexivity.
  - vm_compute. discriminate.
  - vm_compute. discriminate.
  - vm_compute. reflexivity.
  - vm_compute. split; [discriminate|reflexivity].
  - count_is 2%nat. apply events_read_ok. vm_compute. reflexivity.
  - vm_compute. discriminate.
  - exists d, (first_remaining 1). split; [exact G|exact A].
  - exists d, (second_remaining 1). split; [exact G|exact A].
Defined.

(** The example images with bytes after their last record. *)
Lemma trailing_bytes_witness :
  create_delta (ex_old ++ [Byte.x00]) (ex_new ++ [Byte.x01; Byte.x02])
  = Ok ex_delta.
Proof.
  apply (trailing_bytes_are_not_read create_delta ex_old ex_new ex_delta).
  - left. reflexivity.
  - apply force_is_ok. vm_compute. reflexivity.
Defined.

(** A skip record of count -5. *)
Lemma negative_repeat_count_witness :
  exists img',
    read_events 1 false run_below_zero = Ok ([Skip], img')
    /\ fd img' = data_record ex_a /\ cmd_repeat img' = -6.
Proof.
  destruct (negative_repeat_count_is_accepted run_below_zero false CMD_SKIP
              (-5) (data_record ex_a))
    as (img' & R & F & _ & H & _).
  - vm_compute. discriminate.
  - reflexivity.
  - left. reflexivity.
  - lia.
  - exists img'. split; [exact R|]. split; [exact F|].
    apply H. lia.
Defined.

(** A drop record, read as a record of an image. *)
Lemma command_codes_witness :
  read_next_cluster drop_record false = Fatal invalid_cmd.
Proof.
  apply (command_codes drop_record false CMD_DROP (cpu_to_sle64 1)).
  - vm_compute. discriminate.
  - reflexivity.
  - split; [discriminate|]. split; [discriminate|].
    intros [H _]. discriminate.
Defined.

(** A header whose data offset is 0, before one data record. *)
Lemma data_offset_witness :
  open_input_image (hdr_bytes low_offset_hdr ++ data_record ex_a) IMAGE_MAGIC
  = Ok (initial_image low_offset_hdr [] (data_record ex_a))
  /\ hdr_extra_len (initial_image low_offset_hdr [] (data_record ex_a))
     = 2 ^ 32 - 50.
Proof.
  destruct (data_offset_below_the_header low_offset_hdr (data_record ex_a)
              IMAGE_MAGIC) as (O & _ & _ & L & _).
  - unfold hdr_wf. vm_compute. repeat split; auto.
  - reflexivity.
  - vm_compute. reflexivity.
  - split; [exact O|]. rewrite L. vm_compute. reflexivity.
Defined.

(** Two images of no cluster: the record of the second is not read. *)
Lemma no_cluster_witness :
  exists hdr0,
    create_delta no_cluster_old no_cluster_new = Ok hdr0
    /\ lenZ hdr0 = sizeof_image_hdr.
Proof.
  pose (p := prepared no_cluster_old IMAGE_MAGIC no_cluster_new IMAGE_MAGIC
               DELTA_MAGIC).
  destruct (no_cluster_no_record no_cluster_old no_cluster_new
              (fst (fst p)) (snd (fst p)) (snd p)) as [H _].
  - vm_compute. reflexivity.
  - exists (out_fd (snd p)). split.
    + apply H.
      * apply prepared_is_ok. vm_compute. reflexivity.
      * vm_compute. discriminate.
    + vm_compute. reflexivity.
Defined.

(** The delta of the example images applies to another image. *)
Lemma apply_patch_other_old_witness :
  apply_patch ex_old ex_delta = apply_patch ex_old_variant ex_delta
  /\ apply_patch ex_old_variant ex_delta = Ok ex_new.
Proof.
  pose (p := prepared ex_old IMAGE_MAGIC ex_delta DELTA_MAGIC IMAGE_MAGIC).
  pose (p' := prepared ex_old_variant IMAGE_MAGIC ex_delta DELTA_MAGIC
                IMAGE_MAGIC).
  pose (old0 := fst (fst p)).
  pose (old0' := fst (fst p')).
  pose (dl0 := snd (fst p)).
  pose (ro := events_read 4 false old0).
  pose (ro' := events_read 4 false old0').
  pose (rd := events_read 4 true dl0).
  destruct (apply_patch_reads_old_where_the_delta_skips
              ex_old ex_old_variant ex_delta
              old0 old0' dl0 (snd (fst p')) (snd ro) (snd ro') (snd rd)
              (snd p) (snd p') (fst ro) (fst ro') (fst rd)) as [E _].
  - apply prepared_is_ok. vm_compute. reflexivity.
  - apply prepared_is_ok. vm_compute. reflexivity.
  - vm_compute. discriminate.
  - vm_compute. reflexivity.
  - count_is 4%nat. apply events_read_ok. vm_compute. reflexivity.
  - count_is 4%nat. apply events_read_ok. vm_compute. reflexivity.
  - count_is 4%nat. apply events_read_ok. vm_compute. reflexivity.
  - vm_compute. discriminate.
  - vm_compute. discriminate.
  - vm_compute. discriminate.
  - intros i.
    replace (fst rd) with [Skip; Data ex_c; Drop; Drop]
      by (vm_compute; reflexivity).
    replace (fst ro) with [Data ex_a; Skip; Data ex_b; Data ex_c]
      by (vm_compute; reflexivity).
    replace (fst ro') with [Data ex_a; Data ex_b; Skip; Skip]
      by (vm_compute; reflexivity).
    destruct i as [|[|[|[|[|i]]]]]; cbn; intros H;
      first [reflexivity | discriminate H].
  - split; [exact E|]. vm_compute. reflexivity.
Defined.
